(** * MIBOT3: the incident extraction and de-duplication pipeline

    A shallow embedding of the Python code of the pipeline and the
    properties its specification states about it:

    - [botapp/utils/incidentes_csv.py]: the feed parser [_parse_txt_news],
      the categorizer [_normalize_sicu] and [_dedup_rows];
    - [botapp/handlers/incidentes.py]: the categorizer [_classify_categoria]
      over the table [CATEGORY_KEYWORDS], and [_parse_message_entries];
    - [botapp/handlers/sicu_full.py]: [deduplicate_sicu_incidents] with
      [_similarity] and [_parse_time_to_minutes], and [_group_by_category];
    - [botapp/services/geocoder.py]: [geocode_place] and its helpers;
    - [botapp/services/incidentes_db.py],
      [botapp/services/incidentes_resolver.py] and
      [botapp/services/report_hooks.py]: the incident ledger, the retries
      of [_retry_locked], the resolver pass and the registrars
      [registrar_incidentes_desde_lista],
      [registrar_incidente_desde_informe] and
      [registrar_incidentes_desde_texto];
    - [botapp/services/incident_parser.py]: the report parser
      [parse_incidents_from_text], for any place reader [_extrae_place].

    Conventions.  A Python [str] is a [string] holding its UTF-8 encoding.
    Substring search, splitting on ASCII separators and concatenation act
    on the encoding exactly as Python acts on the code points.  White space
    is Python's full set of 29 code points.  Lower-casing covers ASCII and
    the Latin-1 supplement (the repertoire of the keyword tables), and
    [re.IGNORECASE] compares lower-cased texts; [int] and the class [\d]
    read the decimal digits of Unicode 14, as Python 3.11 does, and
    [int] no more than 4300 of them; the class [\w] is exact on ASCII
    and Latin-1 and takes the other code points for letters, the blocks
    of punctuation and symbols between U+1FFD and U+3004 apart.  A row
    or an entry is a dictionary from [str] to [str], a key without a
    value standing for [None] too.  Floats are never computed with, only
    stored and compared, so coordinates are values of an arbitrary type,
    the two zeros being one value, of which [is_nan] tells the floats
    that are not a number.  Of SQLite
    the model has the two tables as the code declares them and the
    documented meaning of the statements the code sends, a float that is
    not a number being stored as [NULL]; the time stamps are left out,
    and the retries on a locked database are modelled on their own, not
    around each statement.  The patterns of the report
    parser spell out the letters that [re.IGNORECASE] lets stand for
    each of theirs, U+0130, U+0131 and U+017F among them. *)

From Stdlib Require Import ZArith QArith Ascii String.
From stdpp Require Import base strings gmap list.

Local Close Scope Q_scope.
Local Open Scope Z_scope.

(* ================================================================== *)
(** * Part I: definitions                                              *)
(* ================================================================== *)

(** ** Python's built-in string methods *)

Module Py.

Definition ord (c : ascii) : N := N_of_ascii c.
Definition chr (n : N) : ascii := ascii_of_N n.

(** The newline character as a string. *)
Definition NL : string := String "010" EmptyString.

(** The code point whose UTF-8 encoding [s] starts with, and the number
    of bytes of that encoding. *)
Definition decode_first (s : string) : option (N * nat) :=
  match s with
  | String a r =>
      let x := ord a in
      (if x <? 192 then Some (x, 1%nat)
       else match r with
            | String b r2 =>
                if x <? 224 then Some ((x - 192) * 64 + (ord b - 128), 2%nat)
                else match r2 with
                     | String c r3 =>
                         if x <? 240
                         then Some ((x - 224) * 4096 + (ord b - 128) * 64
                                    + (ord c - 128), 3%nat)
                         else match r3 with
                              | String d _ =>
                                  Some ((x - 240) * 262144 + (ord b - 128) * 4096
                                        + (ord c - 128) * 64 + (ord d - 128), 4%nat)
                              | EmptyString => Some (x, 1%nat)
                              end
                     | EmptyString => Some (x, 1%nat)
                     end
            | EmptyString => Some (x, 1%nat)
            end)%N
  | EmptyString => None
  end.

Definition truthy (s : string) : bool := negb (String.eqb s "").

(** [a or b] on strings. *)
Definition or_ (a b : string) : string := if truthy a then a else b.

(** [a or b] on values that may be [None]. *)
Definition or_opt (a b : option string) : option string :=
  match a with
  | Some s => if truthy s then a else b
  | None => b
  end.

(** *** White space: [str.isspace], also the class [\s] *)

Definition space1 (a : ascii) : bool :=
  let n := ord a in
  (((9 <=? n) && (n <=? 13)) || ((28 <=? n) && (n <=? 32)))%N.

(** U+0085 and U+00A0. *)
Definition space2 (a b : ascii) : bool :=
  ((ord a =? 194) && ((ord b =? 133) || (ord b =? 160)))%N.

(** U+1680, U+2000 to U+200A, U+2028, U+2029, U+202F, U+205F, U+3000. *)
Definition space3 (a b c : ascii) : bool :=
  let x := ord a in
  let y := ord b in
  let z := ord c in
  (((x =? 225) && (y =? 154) && (z =? 128))
   || ((x =? 226) && (y =? 128)
       && (((128 <=? z) && (z <=? 138)) || (z =? 168) || (z =? 169) || (z =? 175)))
   || ((x =? 226) && (y =? 129) && (z =? 159))
   || ((x =? 227) && (y =? 128) && (z =? 128)))%N.

(** The number of bytes of the white-space character [s] starts with,
    [0] when it starts with none. *)
Definition space_len (s : string) : nat :=
  match s with
  | String a r1 =>
      if space1 a then 1%nat
      else match r1 with
           | String b r2 =>
               if space2 a b then 2%nat
               else match r2 with
                    | String c _ => if space3 a b c then 3%nat else 0%nat
                    | EmptyString => 0%nat
                    end
           | EmptyString => 0%nat
           end
  | EmptyString => 0%nat
  end.

(** Dropping leading white space, with the three recognizers as
    parameters so that the same loop serves on the reversed string. *)
Fixpoint lstrip_gen (w1 : ascii -> bool) (w2 : ascii -> ascii -> bool)
    (w3 : ascii -> ascii -> ascii -> bool) (s : string) : string :=
  match s with
  | String a r1 =>
      if w1 a then lstrip_gen w1 w2 w3 r1
      else match r1 with
           | String b r2 =>
               if w2 a b then lstrip_gen w1 w2 w3 r2
               else match r2 with
                    | String c r3 =>
                        if w3 a b c then lstrip_gen w1 w2 w3 r3 else s
                    | EmptyString => s
                    end
           | EmptyString => s
           end
  | EmptyString => EmptyString
  end.

Definition lstrip (s : string) : string := lstrip_gen space1 space2 space3 s.

Definition rstrip (s : string) : string :=
  String.rev
    (lstrip_gen space1 (fun a b => space2 b a) (fun a b c => space3 c b a)
       (String.rev s)).

(** [s.strip()] *)
Definition strip (s : string) : string := rstrip (lstrip s).

Fixpoint mem_char (c : ascii) (chars : string) : bool :=
  match chars with
  | String d r => Ascii.eqb c d || mem_char c r
  | EmptyString => false
  end.

Fixpoint lstrip_chars (chars : string) (s : string) : string :=
  match s with
  | String c r => if mem_char c chars then lstrip_chars chars r else s
  | EmptyString => EmptyString
  end.

(** [s.rstrip(chars)] and [s.strip(chars)], for sets of ASCII characters. *)
Definition rstrip_chars (chars : string) (s : string) : string :=
  String.rev (lstrip_chars chars (String.rev s)).

Definition strip_chars (chars : string) (s : string) : string :=
  rstrip_chars chars (lstrip_chars chars s).

(** *** [s.lower()] *)

Definition lower_ascii (c : ascii) : ascii :=
  let n := ord c in
  if ((65 <=? n) && (n <=? 90))%N then chr (n + 32) else c.

(** U+00C0 to U+00DE without U+00D7 are the bytes C3 80 to C3 9E without
    C3 97; the lower-case letter has the second byte 32 higher. *)
Fixpoint lower_go (after_c3 : bool) (s : string) : string :=
  match s with
  | String c r =>
      let n := ord c in
      if (after_c3 && (128 <=? n) && (n <=? 158) && negb (n =? 151))%N
      then String (chr (n + 32)) (lower_go false r)
      else String (lower_ascii c) (lower_go (n =? 195)%N r)
  | EmptyString => EmptyString
  end.

Definition lower (s : string) : string := lower_go false s.

(** *** Searching, splitting, joining *)

(** [needle in hay] *)
Fixpoint contains (needle hay : string) : bool :=
  String.prefix needle hay
  || match hay with
     | String _ r => contains needle r
     | EmptyString => false
     end.

(** [any(k in t for k in keywords)] *)
Definition any_in (keywords : list string) (t : string) : bool :=
  existsb (fun k => contains k t) keywords.

(** [s.split(sep)] for a one-character separator. *)
Fixpoint split (sep : ascii) (s : string) : list string :=
  match s with
  | String c r =>
      if Ascii.eqb c sep then EmptyString :: split sep r
      else match split sep r with
           | x :: xs => String c x :: xs
           | [] => [String c EmptyString]
           end
  | EmptyString => [EmptyString]
  end.

(** [s.split(sep, 1)]: at most one cut, at the first separator. *)
Fixpoint split1 (sep : ascii) (s : string) : list string :=
  match s with
  | String c r =>
      if Ascii.eqb c sep then [EmptyString; r]
      else match split1 sep r with
           | x :: xs => String c x :: xs
           | [] => [String c EmptyString]
           end
  | EmptyString => [EmptyString]
  end.

(** [sep.join(parts)] *)
Definition join (sep : string) (parts : list string) : string :=
  String.concat sep parts.

Fixpoint drop_str (n : nat) (s : string) : string :=
  match n, s with
  | S k, String _ r => drop_str k r
  | _, _ => s
  end.

(** [s.replace(old, new)] for a non-empty [old]; [skip] counts the bytes
    of a match still to be passed over. *)
Fixpoint replace_go (old new : string) (skip : nat) (s : string) : string :=
  match s with
  | String c r =>
      match skip with
      | S k => replace_go old new k r
      | O =>
          if String.prefix old s
          then new +:+ replace_go old new (String.length old - 1) r
          else String c (replace_go old new 0 r)
      end
  | EmptyString => EmptyString
  end.

Definition replace (old new s : string) : string := replace_go old new 0 s.

(** The length of the line boundary [s] starts with ([0]: none): the
    boundaries of [str.splitlines]. *)
Definition linebreak_len (s : string) : nat :=
  match s with
  | String a r1 =>
      let x := ord a in
      if (x =? 13)%N then
        match r1 with
        | String b _ => if (ord b =? 10)%N then 2%nat else 1%nat
        | EmptyString => 1%nat
        end
      else if (((10 <=? x) && (x <=? 12)) || ((28 <=? x) && (x <=? 30)))%N then 1%nat
      else match r1 with
           | String b r2 =>
               if ((x =? 194) && (ord b =? 133))%N then 2%nat
               else match r2 with
                    | String c _ =>
                        if ((x =? 226) && (ord b =? 128)
                            && ((ord c =? 168) || (ord c =? 169)))%N
                        then 3%nat else 0%nat
                    | EmptyString => 0%nat
                    end
           | EmptyString => 0%nat
           end
  | EmptyString => 0%nat
  end.

(** [cur] is the current line, reversed. *)
Fixpoint splitlines_go (skip : nat) (cur : string) (s : string) : list string :=
  match s with
  | String c r =>
      match skip with
      | S k => splitlines_go k cur r
      | O =>
          match linebreak_len s with
          | S k => String.rev cur :: splitlines_go k EmptyString r
          | O => splitlines_go 0 (String c cur) r
          end
      end
  | EmptyString =>
      match cur with
      | EmptyString => []
      | _ => [String.rev cur]
      end
  end.

(** [s.splitlines()] *)
Definition splitlines (s : string) : list string :=
  splitlines_go 0 EmptyString s.

(** *** [int(s)] in base ten *)

Definition digit (c : ascii) : option Z :=
  let n := ord c in
  if ((48 <=? n) && (n <=? 57))%N then Some (Z.of_N n - 48) else None.

(** The decimal digits of Unicode 14, the category Nd: they come in
    runs of ten code points, for the digits 0 to 9 in this order.
    These are the code points of the zeros. *)
Definition decimal_zeros : list N :=
  [
    48; 1632; 1776; 1984; 2406; 2534; 2662; 2790; 2918; 3046; 3174; 3302;
    3430; 3558; 3664; 3792; 3872; 4160; 4240; 6112; 6160; 6470; 6608;
    6784; 6800; 6992; 7088; 7232; 7248; 42528; 43216; 43264; 43472; 43504;
    43600; 44016; 65296; 66720; 68912; 69734; 69872; 69942; 70096; 70384;
    70736; 70864; 71248; 71360; 71472; 71904; 72016; 72784; 73040; 73120;
    92768; 92864; 93008; 120782; 120792; 120802; 120812; 120822; 123200;
    123632; 125264; 130032
  ]%N.

(** The value of a decimal digit; [None] for any other code point. *)
Definition decimal (cp : N) : option Z :=
  (fun zero => Z.of_N (cp - zero))
  <$> List.find (fun zero => (zero <=? cp) && (cp <? zero + 10))%N
        decimal_zeros.

(** The white space that [int] passes over at the two ends: the white
    space of [str.isspace] but for U+001C to U+001F. *)
Definition int_space1 (a : ascii) : bool :=
  let n := ord a in
  (((9 <=? n) && (n <=? 13)) || (n =? 32))%N.

Definition int_strip (s : string) : string :=
  String.rev
    (lstrip_gen int_space1 (fun a b => space2 b a) (fun a b c => space3 c b a)
       (String.rev (lstrip_gen int_space1 space2 space3 s))).

(** Digits, with single underscores allowed between two digits: the
    number read and the count of its digits.  [skip] counts the bytes
    of the current digit still to be passed over. *)
Fixpoint digits_go (acc : Z) (count : nat) (after_digit : bool) (skip : nat)
    (s : string) : option (Z * nat) :=
  match s with
  | String c r =>
      match skip with
      | S k => digits_go acc count after_digit k r
      | O =>
          match decode_first s with
          | Some (cp, len) =>
              match decimal cp with
              | Some d =>
                  digits_go (10 * acc + d) (S count) true (len - 1) r
              | None =>
                  if Ascii.eqb c "_" && after_digit
                  then digits_go acc count false 0 r
                  else None
              end
          | None => None
          end
      end
  | EmptyString => if after_digit then Some (acc, count) else None
  end.

(** A number of more than 4300 digits is refused. *)
Definition number (s : string) : option Z :=
  match digits_go 0 0 false 0 s with
  | Some (n, count) => if (count <=? 4300)%nat then Some n else None
  | None => None
  end.

(** [None] stands for [ValueError]. *)
Definition int (s : string) : option Z :=
  match int_strip s with
  | String "+" r => number r
  | String "-" r => Z.opp <$> number r
  | t => number t
  end.

End Py.

(** ** Regular expressions: the fragment of Python's [re] the code uses

    A backtracking matcher in continuation-passing style: alternatives
    are tried left to right, greedy repetitions longest first, lazy ones
    shortest first, as [re] does. *)

Module Re.

Inductive re : Type :=
| Lit (s : string)          (* literal text *)
| Any                       (* [.]: anything but a newline *)
| Space                     (* [\s] *)
| Digit                     (* [\d] *)
| NoneOf (chars : string)   (* [[^...]] *)
| Bol                       (* [^] *)
| Eol                       (* [$] *)
| WordB                     (* [\b] *)
| Seq (r1 r2 : re)
| Alt (r1 r2 : re)
| Opt (r : re)              (* [r?] *)
| Star (r : re)             (* [r*] *)
| Plus (r : re)             (* [r+] *)
| PlusLazy (r : re)         (* [r+?] *)
| Group (i : nat) (r : re). (* a capturing group *)

(** [r1 r2 ... rn] *)
Fixpoint seq_of (rs : list re) : re :=
  match rs with
  | [] => Lit EmptyString
  | [r] => r
  | r :: rest => Seq r (seq_of rest)
  end.

(** [(?:r1|r2|...|rn)] *)
Fixpoint alt_of (rs : list re) : re :=
  match rs with
  | [] => Lit EmptyString
  | [r] => r
  | r :: rest => Alt r (alt_of rest)
  end.

(** [(?:s1|s2|...|sn)] for literal texts. *)
Definition one_of (alts : list string) : re := alt_of (List.map Lit alts).

(** [r{n}] *)
Fixpoint rep (n : nat) (r : re) : re :=
  match n with
  | O => Lit EmptyString
  | S O => r
  | S k => Seq r (rep k r)
  end.

(** Where the matcher stands: the text before it (reversed), the text
    ahead, and the groups captured so far. *)
Record cursor : Type := Cursor {
  before : string;
  rest : string;
  groups : list (nat * string)
}.

Fixpoint take_str (n : nat) (s : string) : string :=
  match n, s with
  | S k, String c r => String c (take_str k r)
  | _, _ => EmptyString
  end.

Fixpoint advance (n : nat) (p : string) (s : string) : string * string :=
  match n, s with
  | S k, String c r => advance k (String c p) r
  | _, _ => (p, s)
  end.

Definition consume (n : nat) (c : cursor) : cursor :=
  let '(p, s) := advance n (before c) (rest c) in
  Cursor p s (groups c).

(** The class [\w] on code points: exact below U+0100 and on the blocks
    of punctuation and symbols listed; the other code points count as
    letters. *)
Definition is_word_cp (n : N) : bool :=
  (if n <? 128 then
     ((48 <=? n) && (n <=? 57)) || ((65 <=? n) && (n <=? 90))
     || ((97 <=? n) && (n <=? 122)) || (n =? 95)
   else if n <? 256 then
     (n =? 170) || ((178 <=? n) && (n <=? 179)) || (n =? 181)
     || ((185 <=? n) && (n <=? 186)) || ((188 <=? n) && (n <=? 190))
     || ((192 <=? n) && (n <=? 214)) || ((216 <=? n) && (n <=? 246))
     || (248 <=? n)
   else
     negb (((8189 <=? n) && (n <=? 8303)) || ((8349 <=? n) && (n <=? 8449))
           || ((8586 <=? n) && (n <=? 9311)) || ((9372 <=? n) && (n <=? 9449))
           || ((9472 <=? n) && (n <=? 10101))
           || ((10132 <=? n) && (n <=? 11263))
           || ((11824 <=? n) && (n <=? 12292))))%N.

Definition is_cont (a : ascii) : bool :=
  let n := Py.ord a in ((128 <=? n) && (n <=? 191))%N.

(** The code point whose encoding ends the text of which [p] is the
    reversal. *)
Definition last_cp (p : string) : option N :=
  match p with
  | String a r =>
      if is_cont a then
        match r with
        | String b r2 =>
            if is_cont b then
              match r2 with
              | String c _ =>
                  if is_cont c then Some 65536%N
                  else Some ((Py.ord c - 224) * 4096 + (Py.ord b - 128) * 64
                             + (Py.ord a - 128))%N
              | EmptyString => Some (Py.ord a)
              end
            else Some ((Py.ord b - 192) * 64 + (Py.ord a - 128))%N
        | EmptyString => Some (Py.ord a)
        end
      else Some (Py.ord a)
  | EmptyString => None
  end.

Definition word_before (c : cursor) : bool :=
  match last_cp (before c) with
  | Some n => is_word_cp n
  | None => false
  end.

Definition word_after (c : cursor) : bool :=
  match Py.decode_first (rest c) with
  | Some (n, _) => is_word_cp n
  | None => false
  end.

Definition lit_matches (icase : bool) (s : string) (text : string) : bool :=
  let slice := take_str (String.length s) text in
  if icase then String.eqb (Py.lower slice) (Py.lower s)
  else String.eqb slice s.

(** [run icase r c k]: match [r] at [c], then continue with [k];
    [None] makes the matcher backtrack. *)
Fixpoint run (icase : bool) (r : re) (c : cursor)
    (k : cursor -> option cursor) {struct r} : option cursor :=
  match r with
  | Lit s =>
      if lit_matches icase s (rest c) then k (consume (String.length s) c)
      else None
  | Any =>
      match rest c with
      | String a _ => if Ascii.eqb a "010" then None else k (consume 1 c)
      | EmptyString => None
      end
  | Space =>
      match Py.space_len (rest c) with
      | O => None
      | n => k (consume n c)
      end
  | Digit =>
      match Py.decode_first (rest c) with
      | Some (cp, len) =>
          match Py.decimal cp with
          | Some _ => k (consume len c)
          | None => None
          end
      | None => None
      end
  | NoneOf chars =>
      match rest c with
      | String a _ => if Py.mem_char a chars then None else k (consume 1 c)
      | EmptyString => None
      end
  | Bol =>
      match before c with
      | EmptyString => k c
      | _ => None
      end
  | Eol =>
      match rest c with
      | EmptyString => k c
      | String "010" EmptyString => k c
      | _ => None
      end
  | WordB => if xorb (word_before c) (word_after c) then k c else None
  | Seq r1 r2 => run icase r1 c (fun c1 => run icase r2 c1 k)
  | Alt r1 r2 =>
      match run icase r1 c k with
      | Some c' => Some c'
      | None => run icase r2 c k
      end
  | Opt r1 =>
      match run icase r1 c k with
      | Some c' => Some c'
      | None => k c
      end
  | Star r1 =>
      (fix more (fuel : nat) (c0 : cursor) : option cursor :=
         match fuel with
         | O => k c0
         | S fuel' =>
             match run icase r1 c0 (fun c1 =>
                     if (String.length (rest c1) <? String.length (rest c0))%nat
                     then more fuel' c1 else None) with
             | Some c' => Some c'
             | None => k c0
             end
         end) (String.length (rest c)) c
  | Plus r1 =>
      run icase r1 c (fun c1 =>
        (fix more (fuel : nat) (c0 : cursor) : option cursor :=
           match fuel with
           | O => k c0
           | S fuel' =>
               match run icase r1 c0 (fun c2 =>
                       if (String.length (rest c2) <? String.length (rest c0))%nat
                       then more fuel' c2 else None) with
               | Some c' => Some c'
               | None => k c0
               end
           end) (String.length (rest c1)) c1)
  | PlusLazy r1 =>
      run icase r1 c (fun c1 =>
        (fix more (fuel : nat) (c0 : cursor) : option cursor :=
           match k c0 with
           | Some c' => Some c'
           | None =>
               match fuel with
               | O => None
               | S fuel' =>
                   run icase r1 c0 (fun c2 =>
                     if (String.length (rest c2) <? String.length (rest c0))%nat
                     then more fuel' c2 else None)
               end
           end) (String.length (rest c1)) c1)
  | Group i r1 =>
      run icase r1 c (fun c1 =>
        let n := (String.length (rest c) - String.length (rest c1))%nat in
        k (Cursor (before c1) (rest c1) ((i, take_str n (rest c)) :: groups c1)))
  end.

(** The text of group [i] of a match: the last capture made. *)
Definition group (i : nat) (c : cursor) : string :=
  match List.find (fun g => Nat.eqb (fst g) i) (groups c) with
  | Some g => snd g
  | None => EmptyString
  end.

(** [r.match(s)] *)
Definition match_ (icase : bool) (r : re) (s : string) : option cursor :=
  run icase r (Cursor EmptyString s []) Some.

(** [r.sub(repl, s)] for a pattern that matches no empty text and a
    replacement without group references; [skip] counts the bytes of the
    current match still to be passed over, [p] is the text before,
    reversed. *)
Fixpoint sub_go (icase : bool) (r : re) (repl : string) (skip : nat)
    (p : string) (s : string) : string :=
  match s with
  | String a t =>
      match skip with
      | S k => sub_go icase r repl k (String a p) t
      | O =>
          match run icase r (Cursor p s []) Some with
          | Some c =>
              match (String.length s - String.length (rest c))%nat with
              | S k => repl +:+ sub_go icase r repl k (String a p) t
              | O => String a (sub_go icase r repl 0 (String a p) t)
              end
          | None => String a (sub_go icase r repl 0 (String a p) t)
          end
      end
  | EmptyString => EmptyString
  end.

Definition sub (icase : bool) (r : re) (repl : string) (s : string) : string :=
  sub_go icase r repl 0 EmptyString s.

(** [r.findall(s)] for a pattern with exactly one group, which matches
    no empty text. *)
Fixpoint findall_go (icase : bool) (r : re) (skip : nat)
    (p : string) (s : string) : list string :=
  match s with
  | String a t =>
      match skip with
      | S k => findall_go icase r k (String a p) t
      | O =>
          match run icase r (Cursor p s []) Some with
          | Some c =>
              match (String.length s - String.length (rest c))%nat with
              | S k => group 1 c :: findall_go icase r k (String a p) t
              | O => findall_go icase r 0 (String a p) t
              end
          | None => findall_go icase r 0 (String a p) t
          end
      end
  | EmptyString => []
  end.

Definition findall (icase : bool) (r : re) (s : string) : list string :=
  findall_go icase r 0 EmptyString s.

End Re.

(** A Python [dict] from [str] to [str]. *)
Abbreviation dict := (gmap string string).

(** [d.get(key) or ""] *)
Definition get_or_empty (d : dict) (key : string) : string :=
  Py.or_ (default EmptyString (d !! key)) EmptyString.

(** ** The categorizers *)

(** [botapp/handlers/incidentes.py] *)
Definition CATEGORY_KEYWORDS : list (string * list string) :=
  [ ("Terrorismo",
      [ "terrorismo"; "terrorist"; "ied"; "artefacto explosivo improvisado";
        "suicide bomb"; "bomba suicida"; "car bomb"; "explosive device" ]);
    ("Conflicto Armado",
      [ "enfrentamiento"; "combate"; "shelling"; "artillery"; "bombardeo";
        "clashes"; "firefight"; "ataque aéreo"; "airstrike"; "misil";
        "drone strike" ]);
    ("Criminalidad",
      [ "criminal"; "delincuencia"; "robbery"; "asalto"; "secuestro";
        "kidnap"; "extorsión"; "narco"; "smuggling"; "homicidio"; "murder";
        "shooting" ]);
    ("Disturbios Civiles",
      [ "protesta"; "protest"; "manifestación"; "manifestacion"; "riot";
        "huelga"; "strike"; "bloqueo"; "roadblock"; "march" ]);
    ("Hazards",
      [ "inundacion"; "inundación"; "flood"; "tormenta"; "storm"; "huracán";
        "hurricane"; "terremoto"; "earthquake"; "deslizamiento"; "landslide";
        "incendio"; "fire" ]) ].

(** The loop [for categoria, keywords in table: if any(...): return
    categoria]; [None] when the loop runs to its end. *)
Fixpoint first_category (table : list (string * list string))
    (lowered : string) : option string :=
  match table with
  | (categoria, keywords) :: rest =>
      if Py.any_in keywords lowered then Some categoria
      else first_category rest lowered
  | [] => None
  end.

Definition _classify_categoria (text : string) : string :=
  if negb (Py.truthy text) then "Sin clasificar"
  else
    let lowered := Py.lower text in
    match first_category CATEGORY_KEYWORDS lowered with
    | Some categoria => categoria
    | None => "Sin clasificar"
    end.

(** [botapp/utils/incidentes_csv.py] *)
Definition _normalize_sicu (text_es : string) : string :=
  let t := Py.lower (Py.or_ text_es EmptyString) in
  if Py.any_in [ "combate"; "enfrentamiento"; "tiroteo"; "disparos";
                 "militar"; "fuerzas armadas" ] t
  then "Conflicto Armado"
  else if Py.any_in [ "bomba"; "explosión"; "atentado"; "terrorista" ] t
  then "Terrorismo"
  else if Py.any_in [ "atraco"; "robo"; "asesinato"; "pandilla"; "drogas" ] t
  then "Criminalidad"
  else if Py.any_in [ "protesta"; "manifestación"; "disturbios"; "huelga" ] t
  then "Disturbios Civiles"
  else if Py.any_in [ "inundación"; "terremoto"; "incendio"; "deslizamiento";
                      "tormenta"; "ciclón" ] t
  then "Hazards"
  else "Otros".

(** ** The feed parser ([botapp/utils/incidentes_csv.py]) *)

(** [^---\s+(?P<channel>.+?)\s+@\s+(?P<dt>\d{4}-\d{2}-\d{2}\s+\d{2}:\d{2}:\d{2})\s+---\s*$],
    the group [channel] numbered 1 and [dt] numbered 2. *)
Definition HEADER_RE : Re.re :=
  Re.seq_of
    [ Re.Bol; Re.Lit "---"; Re.Plus Re.Space;
      Re.Group 1 (Re.PlusLazy Re.Any);
      Re.Plus Re.Space; Re.Lit "@"; Re.Plus Re.Space;
      Re.Group 2
        (Re.seq_of
           [ Re.rep 4 Re.Digit; Re.Lit "-"; Re.rep 2 Re.Digit; Re.Lit "-";
             Re.rep 2 Re.Digit; Re.Plus Re.Space;
             Re.rep 2 Re.Digit; Re.Lit ":"; Re.rep 2 Re.Digit; Re.Lit ":";
             Re.rep 2 Re.Digit ]);
      Re.Plus Re.Space; Re.Lit "---"; Re.Star Re.Space; Re.Eol ].

(** The local variables of [_parse_txt_news]. *)
Record parser_state : Type := ParserState {
  entries : list dict;
  current : option dict;
  body_lines : list string
}.

(** [current["body"] = "\n".join(body_lines).strip(); entries.append(current)]
    when [current is not None]. *)
Definition close_entry (st : parser_state) : list dict :=
  match current st with
  | Some cur =>
      entries st ++ [<["body" := Py.strip (Py.join Py.NL (body_lines st))]> cur]
  | None => entries st
  end.

(** One turn of the loop over the lines. *)
Definition parse_line (st : parser_state) (line : string) : parser_state :=
  match Re.match_ false HEADER_RE line with
  | Some m =>
      ParserState (close_entry st)
        (Some (<["dt" := Py.strip (Re.group 2 m)]>
                 (<["channel" := Py.strip (Re.group 1 m)]> ∅)))
        []
  | None =>
      match current st with
      | Some _ => ParserState (entries st) (current st) (body_lines st ++ [line])
      | None => st
      end
  end.

(** [text] is what [txt_path.read_text] returned. *)
Definition _parse_txt_news (text : string) : list dict :=
  let lines := Py.splitlines text in
  close_entry (foldl parse_line (ParserState [] None []) lines).

(** ** The location resolver, pure part ([botapp/services/geocoder.py]) *)

Definition USE_ONLINE_GEOCODER : bool := true.

Definition _WS_RE : Re.re := Re.Plus Re.Space.

Definition _PARENS_RE : Re.re :=
  Re.seq_of [ Re.Lit "("; Re.Group 1 (Re.Plus (Re.NoneOf ")")); Re.Lit ")" ].

(** Compiled with [re.IGNORECASE]. *)
Definition _DIRECTION_RE : Re.re :=
  Re.seq_of
    [ Re.WordB;
      Re.one_of
        [ "al"; "a la"; "a los"; "a las"; "towards"; "north of"; "south of";
          "east of"; "west of"; "noreste de"; "noroeste de"; "norte de";
          "sur de"; "este de"; "oeste de"; "noreste"; "noroeste"; "sureste";
          "suroeste" ];
      Re.WordB ].

(** Compiled with [re.IGNORECASE]. *)
Definition _NEAR_RE : Re.re :=
  Re.seq_of
    [ Re.WordB;
      Re.alt_of
        [ Re.Lit "cerca de";
          Re.seq_of [ Re.Lit "en las cercan"; Re.one_of [ "i"; "í" ];
                      Re.Lit "as de" ];
          Re.Lit "en las proximidades de";
          Re.seq_of [ Re.Lit "pr"; Re.one_of [ "o"; "ó" ]; Re.Lit "ximo a" ];
          Re.Lit "alrededor de"; Re.Lit "near"; Re.Lit "around";
          Re.Lit "adjacent to"; Re.Lit "junto a"; Re.Lit "junto al";
          Re.Lit "junto a la" ];
      Re.WordB ].

(** Compiled with [re.IGNORECASE]. *)
Definition _TRAILING_QUALIFIERS_RE : Re.re :=
  Re.seq_of
    [ Re.WordB;
      Re.one_of
        [ "city"; "ciudad"; "province"; "provincia"; "state"; "estado";
          "region"; "región"; "district"; "distrito"; "governorate" ];
      Re.WordB; Re.Opt (Re.Lit "."); Re.Eol ].

Definition _COUNTRY_ALIASES : dict :=
  list_to_map
    [ ("libia", "Libya"); ("libya", "Libya"); ("haiti", "Haiti");
      ("haití", "Haiti"); ("colombia", "Colombia"); ("campello", "Spain");
      ("españa", "Spain"); ("spain", "Spain"); ("gaza", "Gaza Strip");
      ("gaza strip", "Gaza Strip"); ("palestine", "State of Palestine");
      ("palestina", "State of Palestine");
      ("state of palestine", "State of Palestine"); ("liberia", "Liberia") ].

(** [bool(x)] for an optional string. *)
Definition truthy_opt (x : option string) : bool :=
  match x with
  | Some s => Py.truthy s
  | None => false
  end.

Definition _canonical_country (country : option string) : option string :=
  match country with
  | Some c =>
      if negb (Py.truthy c) then None
      else
        let norm := Py.lower (Py.strip c) in
        if negb (Py.truthy norm) then None
        else if truthy_opt (_COUNTRY_ALIASES !! norm) then _COUNTRY_ALIASES !! norm
        else Some (Py.strip c)
  | None => None
  end.

Definition _sanitize_place (place : string) : string :=
  let cleaned := Py.strip_chars ",.;" (Py.strip place) in
  let cleaned := Py.replace "#" " " cleaned in
  let cleaned := Py.replace "●" " " (Py.replace "•" " " cleaned) in
  let cleaned := Re.sub true _DIRECTION_RE "" cleaned in
  let cleaned := Re.sub true _NEAR_RE "" cleaned in
  let cleaned := Py.strip_chars " ,;:-" (Re.sub false _WS_RE " " cleaned) in
  let cleaned :=
    Py.strip_chars " ,;:-" (Re.sub true _TRAILING_QUALIFIERS_RE "" cleaned) in
  cleaned.

(** The strings the generator yields, in order. *)
Definition _iter_alt_tokens (place : string) : list string :=
  let parens := Re.findall false _PARENS_RE place in
  let from_parens := List.filter Py.truthy (List.map _sanitize_place parens) in
  let from_commas :=
    if Py.contains "," place then
      let head := _sanitize_place (default EmptyString (head (Py.split1 "," place))) in
      let tail := _sanitize_place (default EmptyString (last (Py.split1 "," place))) in
      (if Py.truthy head then [head] else [])
      ++ (if Py.truthy tail && negb (String.eqb tail head) then [tail] else [])
    else [] in
  let from_slashes :=
    if Py.contains "/" place then
      List.filter Py.truthy (List.map _sanitize_place (Py.split "/" place))
    else [] in
  from_parens ++ from_commas ++ from_slashes.

(** The closure [_add] of [_build_queries], on the pair of its two
    captured variables [queries] and [seen]. *)
Definition _add (candidate : string) (qs : list string * gset string)
    : list string * gset string :=
  let c := Py.strip_chars ", " candidate in
  if negb (Py.truthy c) then qs
  else
    let canon := Py.lower c in
    if decide (canon ∈ qs.2) then qs
    else (qs.1 ++ [c], {[canon]} ∪ qs.2).

(** [_add(x); if country: _add(f"{x}, {country}")] *)
Definition add_with_country (country : option string) (x : string)
    (qs : list string * gset string) : list string * gset string :=
  let qs := _add x qs in
  match country with
  | Some c => if Py.truthy c then _add (x +:+ ", " +:+ c) qs else qs
  | None => qs
  end.

Definition _build_queries (place : string) (country : option string)
    : list string :=
  let base := _sanitize_place place in
  let qs : list string * gset string := ([], ∅) in
  let qs := if Py.truthy base then add_with_country country base qs else qs in
  let qs := foldl (fun qs extra => add_with_country country extra qs) qs
              (_iter_alt_tokens place) in
  let qs :=
    match qs.1, country with
    | [], Some c => if Py.truthy c then _add c qs else qs
    | _, _ => qs
    end in
  qs.1.

Definition _cache_key (place : string) (country : option string) : string :=
  let canonical_country := _canonical_country country in
  let sanitized_place := Py.lower (_sanitize_place place) in
  sanitized_place +:+ "||" +:+ Py.lower (default EmptyString canonical_country).

(** ** [difflib.SequenceMatcher(None, a, b).ratio()]

    The elements compared are the code points of the two texts.  No junk
    predicate is given; the automatic heuristic sets aside the elements
    of [b] that are "popular" when [b] has 200 elements or more. *)

Module Difflib.

(** The code points of a text, from its UTF-8 encoding. *)
Fixpoint codepoints_go (skip : nat) (s : string) : list N :=
  match s with
  | String a r =>
      match skip with
      | S k => codepoints_go k r
      | O =>
          match Py.decode_first s with
          | Some (cp, n) => cp :: codepoints_go (n - 1) r
          | None => []
          end
      end
  | EmptyString => []
  end.

Definition codepoints (s : string) : list N := codepoints_go 0 s.

Definition eqb_elt (x y : N) : bool := (x =? y)%N.

(** [elt in bpopular] *)
Definition popular (b : list N) (elt : N) : bool :=
  let n := length b in
  ((200 <=? n) && (n / 100 + 1 <? length (List.filter (eqb_elt elt) b)))%nat.

(** The result of [find_longest_match]: [(besti, bestj, bestsize)]. *)
Definition Match : Type := (nat * nat * nat)%type.

(** [newj2len] from [j2len]: both hold, for each index [j] of [b], the
    length of the longest match that ends there, [0] for an absent key. *)
Definition new_row (pop : N -> bool) (ai : N) (b : list N) (j2len : list nat)
    : list nat :=
  zip_with (fun bj before => if eqb_elt ai bj && negb (pop ai) then S before else O)
    b (O :: j2len).

(** [if k > bestsize: besti, bestj, bestsize = i-k+1, j-k+1, k], for the
    indices [j] in increasing order. *)
Fixpoint update_best (i j : nat) (row : list nat) (best : Match) : Match :=
  match row with
  | k :: row' =>
      let '(_, _, bestsize) := best in
      update_best i (S j) row'
        (if (bestsize <? k)%nat then ((i + 1 - k)%nat, (j + 1 - k)%nat, k) else best)
  | [] => best
  end.

(** The loop [for i in range(alo, ahi)]. *)
Fixpoint main_loop (pop : N -> bool) (i : nat) (a b : list N)
    (j2len : list nat) (best : Match) : Match :=
  match a with
  | ai :: a' =>
      let row := new_row pop ai b j2len in
      main_loop pop (S i) a' b row (update_best i 0 row best)
  | [] => best
  end.

Definition same_at (a b : list N) (i j : nat) : bool :=
  match a !! i, b !! j with
  | Some x, Some y => eqb_elt x y
  | _, _ => false
  end.

(** The first [while]: extend the match to the left. *)
Fixpoint extend_left (fuel : nat) (a b : list N) (m : Match) : Match :=
  match fuel with
  | S fuel' =>
      match m with
      | (S i, S j, k) =>
          if same_at a b i j then extend_left fuel' a b (i, j, S k) else m
      | _ => m
      end
  | O => m
  end.

(** The second [while]: extend the match to the right. *)
Fixpoint extend_right (fuel : nat) (a b : list N) (m : Match) : Match :=
  match fuel with
  | S fuel' =>
      let '(i, j, k) := m in
      if same_at a b (i + k) (j + k) then extend_right fuel' a b (i, j, S k)
      else m
  | O => m
  end.

(** [find_longest_match(alo, ahi, blo, bhi)] on the slices [a[alo:ahi]]
    and [b[blo:bhi]], with indices relative to the slices. *)
Definition find_longest_match (pop : N -> bool) (a b : list N) : Match :=
  let best := main_loop pop 0 a b (replicate (length b) O) (O, O, O) in
  extend_right (length a) a b (extend_left (length a) a b best).

(** The sum of the sizes of the blocks of [get_matching_blocks]: the
    longest match, then the blocks to its left and to its right. *)
Fixpoint matches (fuel : nat) (pop : N -> bool) (a b : list N) : nat :=
  match fuel with
  | S fuel' =>
      let '(i, j, k) := find_longest_match pop a b in
      match k with
      | O => O
      | _ =>
          (k + matches fuel' pop (take i a) (take j b)
           + matches fuel' pop (drop (i + k) a) (drop (j + k) b))%nat
      end
  | O => O
  end.

(** [2.0 * matches / length], [1.0] when both texts are empty. *)
Definition ratio (a b : string) : Q :=
  let xs := codepoints a in
  let ys := codepoints b in
  let m := matches (S (length xs)) (popular ys) xs ys in
  match (length xs + length ys)%nat with
  | O => 1%Q
  | S t => Qmake (2 * Z.of_nat m) (Pos.of_succ_nat t)
  end.

End Difflib.

(** ** The SICU de-duplicator ([botapp/handlers/sicu_full.py]) *)

(** [None] stands for the [None] the function returns, also from its
    [except] clause. *)
Definition _parse_time_to_minutes (hora : string) : option Z :=
  let hora := Py.strip (Py.or_ hora EmptyString) in
  if negb (Py.truthy hora) then None
  else
    let parts := Py.split ":" hora in
    match Py.int (default EmptyString (parts !! 0%nat)) with
    | Some h =>
        if (1 <? length parts)%nat then
          match Py.int (default EmptyString (parts !! 1%nat)) with
          | Some m => Some (h * 60 + m)
          | None => None
          end
        else Some (h * 60 + 0)
    | None => None
    end.

Definition _similarity (a b : string) : Q :=
  let a := Py.lower (Py.strip (Py.or_ a EmptyString)) in
  let b := Py.lower (Py.strip (Py.or_ b EmptyString)) in
  if negb (Py.truthy a) || negb (Py.truthy b) then 0%Q
  else Difflib.ratio a b.

(** [x < y] on the similarity ratios. *)
Definition Qlt_bool (x y : Q) : bool := negb (Qle_bool y x).

(** [key = (pais, cat, fecha, loc)] *)
Definition group_key (r : dict) : string * string * string * string :=
  let pais := Py.lower (Py.strip (get_or_empty r "pais")) in
  let cat := Py.lower (Py.strip (get_or_empty r "categoria_sicu")) in
  let fecha := Py.strip (get_or_empty r "fecha") in
  let loc := Py.lower (Py.strip (get_or_empty r "localizacion")) in
  (pais, cat, fecha, loc).

(** [grouped.setdefault(key, []).append(r)] on a dictionary that keeps
    its keys in the order of their insertion. *)
Fixpoint setdefault_append {K : Type} `{EqDecision K} (key : K) (r : dict)
    (grouped : list (K * list dict)) : list (K * list dict) :=
  match grouped with
  | (k, items) :: rest =>
      if decide (k = key) then (k, items ++ [r]) :: rest
      else (k, items) :: setdefault_append key r rest
  | [] => [(key, [r])]
  end.

(** The first loop: [grouped] after all rows. *)
Definition group_rows (rows : list dict)
    : list ((string * string * string * string) * list dict) :=
  foldl (fun grouped r => setdefault_append (group_key r) r grouped) [] rows.

(** The body of the loop over the clusters, for the row [row] and the
    representative [rep = cluster[0]]: [false] where the code says
    [continue], [true] where it reaches [cluster.append(row)]. *)
Definition same_incident (row rep : dict) : bool :=
  let desc := Py.strip (get_or_empty row "descripcion") in
  let t_min := _parse_time_to_minutes (get_or_empty row "hora") in
  let rep_desc := Py.strip (get_or_empty rep "descripcion") in
  let sim := _similarity desc rep_desc in
  if Qlt_bool sim (3 # 4) then false
  else
    let rep_t_min := _parse_time_to_minutes (get_or_empty rep "hora") in
    match t_min, rep_t_min with
    | Some t, Some rep_t => if 120 <? Z.abs (t - rep_t) then false else true
    | _, _ => true
    end.

(** The loop [for cluster in clusters] with its flag [placed], followed
    by [if not placed: clusters.append([row])].  No cluster is ever
    empty; on an empty one [cluster[0]] would raise. *)
Fixpoint place_row (row : dict) (clusters : list (list dict))
    : list (list dict) :=
  match clusters with
  | cluster :: rest =>
      match cluster with
      | rep :: _ =>
          if same_incident row rep then (cluster ++ [row]) :: rest
          else cluster :: place_row row rest
      | [] => cluster :: place_row row rest
      end
  | [] => [[row]]
  end.

(** [clusters] after the loop [for row in items]. *)
Definition cluster_items (items : list dict) : list (list dict) :=
  foldl (fun clusters row => place_row row clusters) [] items.

(** [(r.get("fuente_URL") or r.get("fuente") or "").strip()] *)
Definition fuente_of (r : dict) : string :=
  Py.strip
    (Py.or_ (Py.or_ (default EmptyString (r !! "fuente_URL"))
               (default EmptyString (r !! "fuente")))
       EmptyString).

(** The list [fuentes] after the loop over the cluster. *)
Definition merge_fuentes (cluster : list dict) : list string :=
  foldl (fun fuentes r =>
           let f := fuente_of r in
           if Py.truthy f && negb (bool_decide (f ∈ fuentes))
           then fuentes ++ [f] else fuentes)
    [] cluster.

(** The loops [for r in cluster: v = (r.get(key) or "").strip();
    if v: base[key] = v; break]. *)
Fixpoint first_nonempty (key : string) (cluster : list dict) : option string :=
  match cluster with
  | r :: rest =>
      let v := Py.strip (get_or_empty r key) in
      if Py.truthy v then Some v else first_nonempty key rest
  | [] => None
  end.

Definition fill_from_cluster (key : string) (cluster : list dict)
    (base : dict) : dict :=
  if negb (Py.truthy (Py.strip (get_or_empty base key))) then
    match first_nonempty key cluster with
    | Some v => <[key := v]> base
    | None => base
    end
  else base.

(** What one cluster appends to [deduped]. *)
Definition merge_cluster (cluster : list dict) : list dict :=
  match cluster with
  | [] => []
  | [r] => [r]
  | first :: _ =>
      let base := first in
      let fuentes := merge_fuentes cluster in
      let base :=
        match fuentes with
        | [] => base
        | _ => <["fuente_URL" := Py.join " | " fuentes]> base
        end in
      let base := fill_from_cluster "lat" cluster base in
      let base := fill_from_cluster "lon" cluster base in
      [base]
  end.

Definition deduplicate_sicu_incidents (rows : list dict) : list dict :=
  flat_map (fun group => flat_map merge_cluster (cluster_items group.2))
    (group_rows rows).

(** ** The location resolver, the ledger and the registrar

    [float] is the type of coordinates.  [World] is the state of
    everything outside the process that the online geocoder depends on. *)

(** The floats that are not a number: [float("nan")] is one. *)
Class Floats (float : Type) : Type := is_nan : float -> bool.

(** What a call of [_nominatim_search] does. *)
Inductive search_outcome (item : Type) : Type :=
| HTTPError (code : Z)   (* raises [urllib.error.HTTPError] *)
| OtherError             (* raises any other exception *)
| NoResult               (* returns [None]: the result list is empty *)
| Found (it : item).     (* returns [data[0]] *)

Arguments HTTPError {item} code.
Arguments OtherError {item}.
Arguments NoResult {item}.
Arguments Found {item} it.

(** What the process does that can be observed from outside. *)
Inductive event : Type :=
| Sleep (milliseconds : Z)
| Search (query : string).

Section Resolver.

Context {float : Type} {floats : Floats float} {World : Type}.

(** What a column of type [REAL] holds once a value is bound to it:
    SQLite stores [None] as [NULL], and a float that is not a number
    as [NULL] too. *)
Definition sql_real (x : option float) : option float :=
  match x with
  | Some v => if is_nan v then None else Some v
  | None => None
  end.

(** The fields of a Nominatim result that the code reads.  [item_lat]
    and [item_lon] are [float(item["lat"])] and [float(item["lon"])],
    [None] when that raises [KeyError] or [ValueError]. *)
Record nominatim_item : Type := NominatimItem {
  item_lat : option float;
  item_lon : option float;
  addr_state : option string;
  addr_region : option string;
  addr_county : option string;
  addr_city_district : option string;
  addr_municipality : option string;
  addr_city : option string;
  item_type : option string
}.

(** The online geocoder: one HTTP request. *)
Variable _nominatim_search :
  string -> World -> search_outcome nominatim_item * World.

(** A row of the table [geocache], without its key and time stamp. *)
Record cache_entry : Type := CacheEntry {
  gc_lat : option float;
  gc_lon : option float;
  gc_country : option string;
  gc_admin1 : option string;
  gc_admin2 : option string;
  gc_accuracy : option string;
  gc_source : string
}.

(** A row of the table [incidentes], without its time stamps. *)
Record incidente : Type := Incidente {
  inc_id : Z;
  inc_pais : string;
  inc_categoria : string;
  inc_descripcion : string;
  inc_fuente : string;
  inc_lat : option float;
  inc_lon : option float;
  inc_place : option string;
  inc_admin1 : option string;
  inc_admin2 : option string;
  inc_accuracy : option string;
  inc_geocode_source : option string
}.

(** The database, the world outside and the trace of what was done to
    it. *)
Record state : Type := State {
  incidentes : list incidente;
  geocache : gmap string cache_entry;
  world : World;
  trace : list event
}.

Definition log (e : event) (st : state) : state :=
  State (incidentes st) (geocache st) (world st) (trace st ++ [e]).

(** [(lat, lon, admin1, admin2, accuracy, source)]; a coordinate read
    in the cache can be [None]. *)
Definition geocode_result : Type :=
  (option float * option float * option string * option string
   * option string * string)%type.

(** *** The cache ([botapp/services/incidentes_db.py]) *)

Definition geocache_get (key : string) (st : state)
    : option (option float * option float * option string * option string
              * option string * option string) :=
  (fun e => (gc_lat e, gc_lon e, gc_country e, gc_admin1 e, gc_admin2 e,
             gc_accuracy e)) <$> geocache st !! key.

(** [INSERT ... ON CONFLICT(key) DO UPDATE] *)
Definition geocache_put (key : string) (lat lon : float)
    (country admin1 admin2 accuracy : option string) (source : string)
    (st : state) : state :=
  State (incidentes st)
    (<[key := CacheEntry (sql_real (Some lat)) (sql_real (Some lon)) country
               admin1 admin2 accuracy source]>
       (geocache st))
    (world st) (trace st).

(** *** [geocode_place] ([botapp/services/geocoder.py]) *)

(** [item = _nominatim_search(query)] *)
Definition search (query : string) (st : state)
    : search_outcome nominatim_item * state :=
  let '(out, w) := _nominatim_search query (world st) in
  (out, State (incidentes st) (geocache st) w (trace st ++ [Search query])).

(** The loop [for idx, query in enumerate(queries)]. *)
Fixpoint query_loop (key : string) (canonical_country : option string)
    (queries : list string) (st : state) : option geocode_result * state :=
  match queries with
  | query :: rest =>
      let st := log (Sleep 1050) st in
      let '(out, st) := search query st in
      match out with
      | HTTPError code =>
          if (code =? 429) || (code =? 503)
          then query_loop key canonical_country rest (log (Sleep 5000) st)
          else (None, st)
      | OtherError => query_loop key canonical_country rest st
      | NoResult => query_loop key canonical_country rest st
      | Found item =>
          match item_lat item, item_lon item with
          | Some lat, Some lon =>
              let admin1 := Py.or_opt (addr_state item) (addr_region item) in
              let admin2 :=
                Py.or_opt
                  (Py.or_opt
                     (Py.or_opt (addr_county item) (addr_city_district item))
                     (addr_municipality item))
                  (addr_city item) in
              let accuracy := item_type item in
              let st :=
                geocache_put key lat lon canonical_country admin1 admin2
                  accuracy "nominatim" st in
              (Some (Some lat, Some lon, admin1, admin2, accuracy,
                     "nominatim"), st)
          | _, _ => query_loop key canonical_country rest st
          end
      end
  | [] => (None, st)
  end.

Definition geocode_place (place : string) (country : option string)
    (st : state) : option geocode_result * state :=
  if negb (Py.truthy place) || negb (Py.truthy (Py.strip place)) then (None, st)
  else
    let canonical_country := _canonical_country country in
    let key := _cache_key place canonical_country in
    match geocache_get key st with
    | Some (lat, lon, _country, admin1, admin2, accuracy) =>
        (Some (lat, lon, admin1, admin2, accuracy, "cache"), st)
    | None =>
        if negb USE_ONLINE_GEOCODER then (None, st)
        else
          let queries := _build_queries place canonical_country in
          match queries with
          | [] => (None, st)
          | _ => query_loop key canonical_country queries st
          end
    end.

(** *** The ledger ([botapp/services/incidentes_db.py]) *)

(** SQLite's [LOWER]: it folds the ASCII letters only. *)
Fixpoint sql_lower (s : string) : string :=
  match s with
  | String c r => String (Py.lower_ascii c) (sql_lower r)
  | EmptyString => EmptyString
  end.

(** SQLite's one-argument [TRIM]: it removes spaces, U+0020, only. *)
Definition sql_trim (s : string) : string := Py.strip_chars " " s.

(** The [WHERE] clause of [incidente_exists], on one row. *)
Definition exists_where (pais categoria desc place_clean : string)
    (row : incidente) : bool :=
  String.eqb (sql_lower (inc_pais row)) (sql_lower pais)
  && String.eqb (inc_categoria row) categoria
  && String.eqb (sql_trim (inc_descripcion row)) desc
  && (if Py.truthy place_clean
      then String.eqb (sql_trim (default EmptyString (inc_place row))) place_clean
      else match inc_place row with
           | None => true
           | Some p => String.eqb (sql_trim p) EmptyString
           end).

Definition incidente_exists (pais categoria descripcion : string)
    (place : option string) (st : state) : bool :=
  let desc := Py.strip descripcion in
  let place_clean := Py.strip (default EmptyString (Py.or_opt place (Some EmptyString))) in
  existsb (exists_where pais categoria desc place_clean) (incidentes st).

(** The row id of [AUTOINCREMENT]: one more than the largest in use. *)
Definition next_id (rows : list incidente) : Z :=
  1 + foldr (fun row m => Z.max (inc_id row) m) 0 rows.

Definition add_incidente (pais categoria descripcion fuente : string)
    (lat lon : option float) (place : option string) (st : state)
    : Z * state :=
  let rowid := next_id (incidentes st) in
  (rowid,
   State
     (incidentes st
      ++ [Incidente rowid pais categoria descripcion fuente (sql_real lat)
            (sql_real lon) place None None None None])
     (geocache st) (world st) (trace st)).

Definition is_none {A : Type} (x : option A) : bool :=
  match x with
  | None => true
  | Some _ => false
  end.

(** The rows are kept in the order of their ids. *)
Definition get_incidentes_pendientes (st : state) : list incidente :=
  List.filter
    (fun row =>
       (is_none (inc_lat row) || is_none (inc_lon row))
       && match inc_place row with
          | Some p => negb (String.eqb (sql_trim p) EmptyString)
          | None => false
          end)
    (incidentes st).

Definition update_incidente_geocode (incidente_id : Z)
    (lat lon : option float) (admin1 admin2 accuracy : option string)
    (source : string) (st : state) : state :=
  State
    (List.map
       (fun row =>
          if inc_id row =? incidente_id
          then Incidente (inc_id row) (inc_pais row) (inc_categoria row)
                 (inc_descripcion row) (inc_fuente row) (sql_real lat)
                 (sql_real lon) (inc_place row) admin1 admin2 accuracy
                 (Some source)
          else row)
       (incidentes st))
    (geocache st) (world st) (trace st).

(** *** [resolve_missing_coords] ([botapp/services/incidentes_resolver.py]) *)

Fixpoint resolve_loop (default_country_hint : option string)
    (pendientes : list incidente) (count : Z) (st : state) : Z * state :=
  match pendientes with
  | inc :: rest =>
      let pais := Py.or_opt (Some (inc_pais inc)) default_country_hint in
      match inc_place inc with
      | Some place =>
          if negb (Py.truthy place)
          then resolve_loop default_country_hint rest count st
          else
            match geocode_place place pais st with
            | (Some (lat, lon, admin1, admin2, acc, src), st) =>
                let st :=
                  update_incidente_geocode (inc_id inc) lat lon admin1 admin2
                    acc src st in
                resolve_loop default_country_hint rest (count + 1) st
            | (None, st) => resolve_loop default_country_hint rest count st
            end
      | None => resolve_loop default_country_hint rest count st
      end
  | [] => (count, st)
  end.

Definition resolve_missing_coords (default_country_hint : option string)
    (st : state) : Z * state :=
  resolve_loop default_country_hint (get_incidentes_pendientes st) 0 st.

(** *** The batch registrar ([botapp/services/report_hooks.py]) *)

(** The keys of a candidate that the registrar reads. *)
Record candidate : Type := Candidate {
  c_categoria : option string;
  c_categoria_sicu : option string;
  c_descripcion : option string;
  c_place : option string;
  c_localizacion : option string;
  c_fuente : option string;
  c_Fuente_URL : option string;
  c_lat : option float;
  c_lon : option float
}.

(** The loop [for inc in incidentes], on the counter [n] and the state. *)
Fixpoint registrar_loop (pais : string) (incs : list candidate) (n : Z)
    (st : state) : Z * state :=
  match incs with
  | inc :: rest =>
      let categoria :=
        default "Otros"
          (Py.or_opt (Py.or_opt (c_categoria inc) (c_categoria_sicu inc))
             (Some "Otros")) in
      let descripcion :=
        Py.strip (default EmptyString (Py.or_opt (c_descripcion inc) (Some EmptyString))) in
      if negb (Py.truthy descripcion) then registrar_loop pais rest n st
      else
        let place_val := Py.or_opt (c_place inc) (c_localizacion inc) in
        if incidente_exists pais categoria descripcion place_val st
        then registrar_loop pais rest n st
        else
          let fuente :=
            default "Informe Diario"
              (Py.or_opt (Py.or_opt (c_fuente inc) (c_Fuente_URL inc))
                 (Some "Informe Diario")) in
          let '(_, st) :=
            add_incidente pais categoria descripcion fuente (c_lat inc)
              (c_lon inc) place_val st in
          registrar_loop pais rest (n + 1) st
  | [] => (n, st)
  end.

(** The update of the CSV file of the day that follows is not part of
    the model: it touches neither the database nor the count. *)
Definition registrar_incidentes_desde_lista (pais : string)
    (incs : list candidate) (resolver_ahora : bool)
    (country_hint : option string) (st : state) : Z * state :=
  let '(n, st) := registrar_loop pais incs 0 st in
  let st :=
    if resolver_ahora
    then (resolve_missing_coords (Py.or_opt country_hint (Some pais)) st).2
    else st in
  (n, st).

End Resolver.

(** ** The specification's descriptions, as definitions *)

(** *** The categorizer *)

(** [c] is the first category of [table] one of whose keywords occurs
    in [lowered]. *)
Definition first_matching (table : list (string * list string))
    (lowered c : string) : Prop :=
  ∃ pre kws post,
    table = pre ++ (c, kws) :: post
    ∧ Py.any_in kws lowered = true
    ∧ Forall (fun e => Py.any_in e.2 lowered = false) pre.

(** No keyword of any category of [table] occurs in [lowered]. *)
Definition no_match (table : list (string * list string)) (lowered : string)
    : Prop :=
  Forall (fun e => Py.any_in e.2 lowered = false) table.

Definition SICU_CONFLICTO_ARMADO : list string :=
  [ "combate"; "enfrentamiento"; "tiroteo"; "disparos"; "militar";
    "fuerzas armadas" ].
Definition SICU_TERRORISMO : list string :=
  [ "bomba"; "explosión"; "atentado"; "terrorista" ].
Definition SICU_CRIMINALIDAD : list string :=
  [ "atraco"; "robo"; "asesinato"; "pandilla"; "drogas" ].
Definition SICU_DISTURBIOS_CIVILES : list string :=
  [ "protesta"; "manifestación"; "disturbios"; "huelga" ].
Definition SICU_HAZARDS : list string :=
  [ "inundación"; "terremoto"; "incendio"; "deslizamiento"; "tormenta";
    "ciclón" ].

(** The tests of [_normalize_sicu], in the order in which the code makes
    them. *)
Definition SICU_TESTS : list (string * list string) :=
  [ ("Conflicto Armado", SICU_CONFLICTO_ARMADO);
    ("Terrorismo", SICU_TERRORISMO);
    ("Criminalidad", SICU_CRIMINALIDAD);
    ("Disturbios Civiles", SICU_DISTURBIOS_CIVILES);
    ("Hazards", SICU_HAZARDS) ].

(** The same tests in the order the specification gives: Terrorismo
    first. *)
Definition SICU_TESTS_AS_SPECIFIED : list (string * list string) :=
  [ ("Terrorismo", SICU_TERRORISMO);
    ("Conflicto Armado", SICU_CONFLICTO_ARMADO);
    ("Criminalidad", SICU_CRIMINALIDAD);
    ("Disturbios Civiles", SICU_DISTURBIOS_CIVILES);
    ("Hazards", SICU_HAZARDS) ].

(** The Terrorismo keywords of [CATEGORY_KEYWORDS]. *)
Definition CATEGORY_TERRORISMO : list string :=
  [ "terrorismo"; "terrorist"; "ied"; "artefacto explosivo improvisado";
    "suicide bomb"; "bomba suicida"; "car bomb"; "explosive device" ].

(** *** The feed parser *)

(** The entry a header line opens, without its body. *)
Definition header_of (line : string) : option dict :=
  (fun m => <["dt" := Py.strip (Re.group 2 m)]>
              (<["channel" := Py.strip (Re.group 1 m)]> ∅))
  <$> Re.match_ false HEADER_RE line.

Definition is_header (line : string) : bool :=
  match header_of line with
  | Some _ => true
  | None => false
  end.

(** The lines between a header and the next header, or the end. *)
Fixpoint lines_until_header (lines : list string) : list string :=
  match lines with
  | line :: rest => if is_header line then [] else line :: lines_until_header rest
  | [] => []
  end.

(** One entry per header line, [body_of] making the body from the lines
    that follow it; the lines before the first header open no entry. *)
Fixpoint entries_of_lines (body_of : list string -> string)
    (lines : list string) : list dict :=
  match lines with
  | line :: rest =>
      match header_of line with
      | Some e =>
          <["body" := body_of (lines_until_header rest)]> e
          :: entries_of_lines body_of rest
      | None => entries_of_lines body_of rest
      end
  | [] => []
  end.

(** The body as the code makes it. *)
Definition stripped_body (lines : list string) : string :=
  Py.strip (Py.join Py.NL lines).

(** The body as the specification words it: exactly the lines. *)
Definition exact_body (lines : list string) : string := Py.join Py.NL lines.

(** *** The de-duplicator *)

(** The test between a row and the representative of a cluster: the
    descriptions are similar enough, and the two times are at most 120
    minutes apart when both parse; a time that does not parse lets the
    similarity decide. *)
Definition qualifies (row rep : dict) : Prop :=
  (3 # 4 <= _similarity (Py.strip (get_or_empty row "descripcion"))
              (Py.strip (get_or_empty rep "descripcion")))%Q
  ∧ match _parse_time_to_minutes (get_or_empty row "hora"),
          _parse_time_to_minutes (get_or_empty rep "hora") with
    | Some t, Some rep_t => Z.abs (t - rep_t) <= 120
    | _, _ => True
    end.

#[global] Instance qualifies_dec (row rep : dict) : Decision (qualifies row rep).
Proof.
  unfold qualifies. apply and_dec.
  - destruct (Qlt_le_dec
                (_similarity (Py.strip (get_or_empty row "descripcion"))
                   (Py.strip (get_or_empty rep "descripcion"))) (3 # 4))
      as [Hlt | Hle].
    + right. intros H. exact (Qlt_not_le _ _ Hlt H).
    + left. exact Hle.
  - destruct (_parse_time_to_minutes (get_or_empty row "hora"));
      destruct (_parse_time_to_minutes (get_or_empty rep "hora"));
      apply _.
Defined.

(** The representative of [cluster], the first row that was added to
    it, qualifies for [row]. *)
Definition qualifying_cluster (row : dict) (cluster : list dict) : Prop :=
  match head cluster with
  | Some rep => qualifies row rep
  | None => False
  end.

#[global] Instance qualifying_cluster_dec (row : dict) (cluster : list dict)
  : Decision (qualifying_cluster row cluster).
Proof. unfold qualifying_cluster. destruct (head cluster); apply _. Defined.

(** The row joins the first cluster, in the order of creation, that
    qualifies; it starts a new cluster when none does. *)
Definition assign (clusters : list (list dict)) (row : dict)
    : list (list dict) :=
  match list_find (qualifying_cluster row) clusters with
  | Some (i, cluster) => <[i := cluster ++ [row]]> clusters
  | None => clusters ++ [[row]]
  end.

(** The elements of a list without repetition, in the order in which
    they first appear. *)
Fixpoint first_appearances {A : Type} `{EqDecision A} (l : list A) : list A :=
  match l with
  | x :: rest => x :: filter (fun y => y ≠ x) (first_appearances rest)
  | [] => []
  end.

(** The groups of the rows under the key [key_of]: for each key, in the
    order of first appearance, the rows that have it, in their original
    order. *)
Definition groups_by {K : Type} `{EqDecision K} (key_of : dict -> K)
    (rows : list dict) : list (K * list dict) :=
  (fun k => (k, filter (fun r => key_of r = k) rows))
  <$> first_appearances (key_of <$> rows).

(** The key the specification words: all four fields trimmed and
    lower-cased. *)
Definition lowercased_group_key (r : dict) : string * string * string * string :=
  (Py.lower (Py.strip (get_or_empty r "pais")),
   Py.lower (Py.strip (get_or_empty r "categoria_sicu")),
   Py.lower (Py.strip (get_or_empty r "fecha")),
   Py.lower (Py.strip (get_or_empty r "localizacion"))).

(** A row of the SICU table. *)
Definition sicu_row (fecha hora pais categoria_sicu descripcion localizacion
    fuente : string) : dict :=
  list_to_map
    [ ("fecha", fecha); ("hora", hora); ("pais", pais);
      ("categoria_sicu", categoria_sicu); ("descripcion", descripcion);
      ("localizacion", localizacion); ("lat", EmptyString);
      ("lon", EmptyString); ("fuente", fuente) ].

(** The fields of a row that the grouping and the clustering read are
    the same in [a] and [b]. *)
Definition same_identity (a b : dict) : Prop :=
  a !! "pais" = b !! "pais"
  ∧ a !! "categoria_sicu" = b !! "categoria_sicu"
  ∧ a !! "fecha" = b !! "fecha"
  ∧ a !! "localizacion" = b !! "localizacion"
  ∧ a !! "descripcion" = b !! "descripcion"
  ∧ a !! "hora" = b !! "hora".

(** No row of the list could have joined the cluster of a row before
    it. *)
Fixpoint apart (reps : list dict) : Prop :=
  match reps with
  | r :: rest => Forall (fun r' => same_incident r' r = false) rest ∧ apart rest
  | [] => True
  end.

(** [rep] is the representative of [cluster]. *)
Definition rep_of (cluster : list dict) (rep : dict) : Prop :=
  head cluster = Some rep.

(** The rows a group leaves in the result. *)
Definition merged_rows (items : list dict) : list dict :=
  flat_map merge_cluster (cluster_items items).

(** The de-duplication in the words of the specification, for a
    grouping key [key_of]. *)
Definition deduplicate_by {K : Type} `{EqDecision K} (key_of : dict -> K)
    (rows : list dict) : list dict :=
  flat_map (fun g => flat_map merge_cluster (foldl assign [] g.2))
    (groups_by key_of rows).

(** *** The time test in the words of the specification

    A time parses as HH:MM when it is two digits, a colon and two
    digits, the hour below 24 and the minute below 60; it then stands
    for that many minutes after midnight.  Any other time fails to
    parse. *)
Definition digit_value (c : ascii) : option Z :=
  let n := Py.ord c in
  if ((48 <=? n) && (n <=? 57))%N then Some (Z.of_N n - 48) else None.

Definition hhmm_minutes (hora : string) : option Z :=
  match hora with
  | String h1 (String h2 (String c (String m1 (String m2 EmptyString)))) =>
      if Ascii.eqb c ":" then
        match digit_value h1, digit_value h2, digit_value m1, digit_value m2 with
        | Some a, Some b, Some x, Some y =>
            let h := 10 * a + b in
            let m := 10 * x + y in
            if (h <? 24) && (m <? 60) then Some (h * 60 + m) else None
        | _, _, _, _ => None
        end
      else None
  | _ => None
  end.

(** The test between a row and the representative of a cluster, with
    the times read as HH:MM. *)
Definition qualifies_hhmm (row rep : dict) : Prop :=
  (3 # 4 <= _similarity (Py.strip (get_or_empty row "descripcion"))
              (Py.strip (get_or_empty rep "descripcion")))%Q
  ∧ match hhmm_minutes (get_or_empty row "hora"),
          hhmm_minutes (get_or_empty rep "hora") with
    | Some t, Some rep_t => Z.abs (t - rep_t) <= 120
    | _, _ => True
    end.

#[global] Instance qualifies_hhmm_dec (row rep : dict)
  : Decision (qualifies_hhmm row rep).
Proof.
  unfold qualifies_hhmm. apply and_dec.
  - destruct (Qlt_le_dec
                (_similarity (Py.strip (get_or_empty row "descripcion"))
                   (Py.strip (get_or_empty rep "descripcion"))) (3 # 4))
      as [Hlt | Hle].
    + right. intros H. exact (Qlt_not_le _ _ Hlt H).
    + left. exact Hle.
  - destruct (hhmm_minutes (get_or_empty row "hora"));
      destruct (hhmm_minutes (get_or_empty rep "hora"));
      apply _.
Defined.

Definition qualifying_cluster_hhmm (row : dict) (cluster : list dict) : Prop :=
  match head cluster with
  | Some rep => qualifies_hhmm row rep
  | None => False
  end.

#[global] Instance qualifying_cluster_hhmm_dec (row : dict)
    (cluster : list dict) : Decision (qualifying_cluster_hhmm row cluster).
Proof. unfold qualifying_cluster_hhmm. destruct (head cluster); apply _. Defined.

(** The row joins the first cluster, in the order of creation, that
    qualifies; it starts a new cluster when none does. *)
Definition assign_hhmm (clusters : list (list dict)) (row : dict)
    : list (list dict) :=
  match list_find (qualifying_cluster_hhmm row) clusters with
  | Some (i, cluster) => <[i := cluster ++ [row]]> clusters
  | None => clusters ++ [[row]]
  end.

(** The de-duplication in the words of the specification, the times
    read as HH:MM, for a grouping key [key_of]. *)
Definition deduplicate_hhmm {K : Type} `{EqDecision K} (key_of : dict -> K)
    (rows : list dict) : list dict :=
  flat_map (fun g => flat_map merge_cluster (foldl assign_hhmm [] g.2))
    (groups_by key_of rows).

(** The key as amended: the four fields trimmed, and lower-cased but
    for fecha. *)
Definition amended_group_key (r : dict) : string * string * string * string :=
  (Py.lower (Py.strip (get_or_empty r "pais")),
   Py.lower (Py.strip (get_or_empty r "categoria_sicu")),
   Py.strip (get_or_empty r "fecha"),
   Py.lower (Py.strip (get_or_empty r "localizacion"))).

(** The times that the code reads as its documentation says: a time
    that parses as HH:MM, or one in which [_parse_time_to_minutes]
    reads nothing.  The others, "25:99" or "10" for two, the code reads
    where "None si no es válida" is documented. *)
Definition documented_hora (r : dict) : Prop :=
  is_Some (hhmm_minutes (get_or_empty r "hora"))
  ∨ _parse_time_to_minutes (get_or_empty r "hora") = None.

(** The ten digits, and the check that [_parse_time_to_minutes] reads a
    time HH:MM as it stands. *)
Definition digits : list ascii :=
  ["0"; "1"; "2"; "3"; "4"; "5"; "6"; "7"; "8"; "9"]%char.

Definition hhmm_agree (hora : string) : bool :=
  match hhmm_minutes hora with
  | Some t =>
      match _parse_time_to_minutes hora with
      | Some t' => t =? t'
      | None => false
      end
  | None => true
  end.

(** Two reports of one incident, an hour and a half apart. *)
Definition row_1400 : dict :=
  sicu_row "2025-01-05" "14:00" "Libia" "Conflicto Armado"
    "Enfrentamiento armado cerca del aeropuerto" "Trípoli" "@canal1".
Definition row_1530 : dict :=
  sicu_row "2025-01-05" "15:30" "Libia" "Conflicto Armado"
    "Enfrentamiento armado cerca del aeropuerto de Trípoli" "Trípoli"
    "@canal2".

(** Two reports of one incident whose dates differ in case only. *)
Definition row_ENE : dict :=
  sicu_row "05-ENE-2025" "14:00" "Libia" "Conflicto Armado"
    "Enfrentamiento armado cerca del aeropuerto" "Trípoli" "@canal1".
Definition row_ene : dict :=
  sicu_row "05-ene-2025" "14:30" "Libia" "Conflicto Armado"
    "Enfrentamiento armado cerca del aeropuerto" "Trípoli" "@canal2".

(** *** The location resolver *)

(** [x], then [x] with the country when there is one. *)
Definition with_country (country : option string) (x : string) : list string :=
  match country with
  | Some c => if Py.truthy c then [x; x +:+ ", " +:+ c] else [x]
  | None => [x]
  end.

(** The candidate queries in order: the sanitized place, alone and with
    the country, then each sub-token, alone and with the country. *)
Definition query_candidates (place : string) (country : option string)
    : list string :=
  let base := _sanitize_place place in
  (if Py.truthy base then with_country country base else [])
  ++ flat_map (with_country country) (_iter_alt_tokens place).

(** Keep the first of the texts that are equal when lower-cased; [seen]
    holds the lower-cased texts met before. *)
Fixpoint dedup_lower (seen : list string) (l : list string) : list string :=
  match l with
  | x :: rest =>
      if decide (Py.lower x ∈ seen) then dedup_lower seen rest
      else x :: dedup_lower (seen ++ [Py.lower x]) rest
  | [] => []
  end.

(** The candidates without the commas and spaces at their ends, the
    empty ones dropped, de-duplicated by lower case. *)
Definition kept_queries (seen : list string) (candidates : list string)
    : list string :=
  dedup_lower seen
    (List.filter Py.truthy (Py.strip_chars ", " <$> candidates)).

(** The list of queries: the kept candidates, or the country alone when
    there are none. *)
Definition queries_in_order (place : string) (country : option string)
    : list string :=
  match kept_queries [] (query_candidates place country), country with
  | [], Some c => if Py.truthy c then kept_queries [] [c] else []
  | qs, _ => qs
  end.

(** *** Floats and worlds for the examples *)

(** The rationals as floats: each of them is a number. *)
#[global] Instance rational_floats : Floats Q := fun _ => false.

(** The rationals and, with them, the float that is not a number. *)
Inductive double : Type :=
| Number (q : Q)
| NaN.

#[global] Instance double_floats : Floats double :=
  fun x => match x with NaN => true | Number _ => false end.

(** A world that answers the requests from a script, one outcome for
    each request in turn, and finds nothing once the script is used
    up. *)
Definition scripted {float : Type} (query : string)
    (script : list (search_outcome (@nominatim_item float)))
    : search_outcome (@nominatim_item float)
      * list (search_outcome (@nominatim_item float)) :=
  match script with
  | out :: rest => (out, rest)
  | [] => (NoResult, [])
  end.

(** An empty database in front of a scripted world. *)
Definition fresh {float : Type}
    (script : list (search_outcome (@nominatim_item float)))
    : @state float (list (search_outcome (@nominatim_item float))) :=
  State [] ∅ script [].

(** Tripoli, as Nominatim describes it. *)
Definition tripoli_item : @nominatim_item Q :=
  NominatimItem (Some (328872 # 10000)%Q) (Some (131913 # 10000)%Q)
    (Some "Tripoli") None None None None (Some "Tripoli") (Some "city").

(** Tripoli with a latitude that is not a number: the reply
    [{"lat": "nan", "lon": "13.1913", "type": "city"}]. *)
Definition nan_item : @nominatim_item double :=
  NominatimItem (Some NaN) (Some (Number (131913 # 10000))) None None None
    None None None (Some "city").

(** The resolution of Tripoli on an empty cache, with this reply. *)
Definition nan_resolution
    : option (@geocode_result double)
      * @state double (list (search_outcome (@nominatim_item double))) :=
  geocode_place scripted "Tripoli" (Some "Libia") (fresh [Found nan_item]).

(** A first resolution: nothing found for the first query, the rate
    limit on the second, Tripoli for the third. *)
Definition first_resolution
    : option (@geocode_result Q)
      * @state Q (list (search_outcome (@nominatim_item Q))) :=
  geocode_place scripted "Ain Zara, Tripoli, Libya" (Some "Libia")
    (fresh [NoResult; HTTPError 429; Found tripoli_item]).

(** The table [incidentes] projected on the fields that identify an
    incident. *)
Definition identities {float World : Type} (st : @state float World)
    : list (string * string * string * option string) :=
  (fun row => (inc_pais row, inc_categoria row, inc_descripcion row,
               inc_place row))
  <$> incidentes st.

(** The description the registrar reads from a candidate. *)
Definition candidate_descripcion {float : Type} (inc : @candidate float)
    : string :=
  Py.strip (default EmptyString (Py.or_opt (c_descripcion inc) (Some EmptyString))).

(** A candidate whose place ends in a tab. *)
Definition tab_candidate : @candidate Q :=
  Candidate (Some "Terrorismo") None (Some "Ataque con bomba en Tripoli")
    (Some (String.append "Tripoli" (String "009" EmptyString))) None
    (Some "Collect") None None None.

(** *** The registrar *)

(** The fields of a row as the existence check compares them. *)
Definition normalized (i : string * string * string * option string)
    : string * string * string * string :=
  (sql_lower i.1.1.1, i.1.1.2, sql_trim i.1.2,
   sql_trim (default EmptyString i.2)).

(** The uniqueness invariant of the ledger: no two rows are the same for
    the existence check. *)
Definition unique_ledger {float World : Type} (st : @state float World)
    : Prop :=
  NoDup (normalized <$> identities st).

(** The place the registrar reads from a candidate. *)
Definition candidate_place {float : Type} (inc : @candidate float)
    : option string :=
  Py.or_opt (c_place inc) (c_localizacion inc).

(** The place of the candidate has no white space at its ends but
    spaces: Python's [strip] and SQLite's [TRIM] agree on it. *)
Definition plain_place {float : Type} (inc : @candidate float) : Prop :=
  sql_trim (default EmptyString (candidate_place inc))
  = Py.strip (default EmptyString (candidate_place inc)).

(** *** Strings *)

(** An ASCII character that lower-casing leaves as it is. *)
Definition stable_char (c : ascii) : bool :=
  ((Py.ord c <? 128) && negb ((65 <=? Py.ord c) && (Py.ord c <=? 90)))%N.

Fixpoint stable (k : string) : bool :=
  match k with
  | String c r => stable_char c && stable r
  | EmptyString => true
  end.

(** None of the recognizers of white space fires at the head of [s]. *)
Definition head_kept (w1 : ascii -> bool) (w2 : ascii -> ascii -> bool)
    (w3 : ascii -> ascii -> ascii -> bool) (s : string) : bool :=
  match s with
  | String a r1 =>
      negb (w1 a)
      && match r1 with
         | String b r2 =>
             negb (w2 a b)
             && match r2 with
                | String c _ => negb (w3 a b c)
                | EmptyString => true
                end
         | EmptyString => true
         end
  | EmptyString => true
  end.

(** ** More of the code: the definitions of Part III *)

(** *** The location resolver: its requests *)

(** What the resolver does for one query it tries: the pause of 1.05 s,
    the request, and the wait of 5 s when the answer was the status 429
    or 503. *)
Definition pause_and_request (tried : string * bool) : list event :=
  [Sleep 1050; Search tried.1] ++ (if tried.2 then [Sleep 5000] else []).

(** The answers after which the resolver waits: the status 429 or
    503. *)
Definition rate_limited {item : Type} (out : search_outcome item) : bool :=
  match out with
  | HTTPError code => (code =? 429) || (code =? 503)
  | OtherError | NoResult | Found _ => false
  end.

(** What the online geocoder answers to the queries of a list, asked
    one after the other from the world [w]. *)
Fixpoint answers {item World : Type}
    (search : string -> World -> search_outcome item * World)
    (queries : list string) (w : World)
    : list (string * search_outcome item) :=
  match queries with
  | query :: rest =>
      let '(out, w) := search query w in (query, out) :: answers search rest w
  | [] => []
  end.

(** What the resolver does for a query and the answer to it. *)
Definition request_events {item : Type}
    (asked : string * search_outcome item) : list event :=
  pause_and_request (asked.1, rate_limited asked.2).

(** The text starts with none of the characters [chars]. *)
Definition head_outside (chars s : string) : bool :=
  match s with
  | String a _ => negb (Py.mem_char a chars)
  | EmptyString => true
  end.

(** What [_add] keeps true of its two variables: no two queries are
    equal in lower case, [seen] holds the queries in lower case, and
    every query is non-empty and has no comma or space at its ends. *)
Definition queries_invariant (qs : list string * gset string) : Prop :=
  NoDup (Py.lower <$> qs.1)
  ∧ (∀ x, x ∈ qs.2 ↔ x ∈ Py.lower <$> qs.1)
  ∧ Forall (fun q => q ≠ EmptyString ∧ Py.strip_chars ", " q = q) qs.1.


(** *** The single registrar ([botapp/services/report_hooks.py], and the
    function of the same name in [botapp/services/incidentes_db.py])

    The row is written without any check; the pending rows are resolved
    when [resolver_ahora] is set. *)

Section SingleRegistrar.

Context {float : Type} {floats : Floats float} {World : Type}.

Variable _nominatim_search :
  string -> World -> search_outcome (@nominatim_item float) * World.

Definition registrar_incidente_desde_informe (pais categoria descripcion
    fuente : string) (lat lon : option float) (place : option string)
    (resolver_ahora : bool) (country_hint : option string)
    (st : @state float World) : Z * @state float World :=
  let '(rowid, st) :=
    add_incidente pais categoria descripcion fuente lat lon place st in
  let st :=
    if resolver_ahora
    then (resolve_missing_coords _nominatim_search
            (Py.or_opt country_hint (Some pais)) st).2
    else st in
  (rowid, st).

End SingleRegistrar.

(** The row ids of the ledger. *)
Definition ids {float World : Type} (st : @state float World) : list Z :=
  inc_id <$> incidentes st.

(** A candidate whose place is plain. *)
Definition plain_candidate : @candidate Q :=
  Candidate (Some "Terrorismo") None (Some "Ataque con bomba en Tripoli")
    (Some "Tripoli") None (Some "Collect") None None None.

(** The [WHERE] clause of [get_incidentes_pendientes], on one row. *)
Definition pendiente {float : Type} (row : @incidente float) : bool :=
  (is_none (inc_lat row) || is_none (inc_lon row))
  && match inc_place row with
     | Some p => negb (String.eqb (sql_trim p) EmptyString)
     | None => false
     end.

(** A coordinate that SQLite stores as it is: a float that is a
    number. *)
Definition is_number {float : Type} {floats : Floats float}
    (x : option float) : bool :=
  match x with
  | Some v => negb (is_nan v)
  | None => false
  end.

(** The online geocoder answers with numbers only: no latitude or
    longitude that [float] reads in an answer is not a number. *)
Definition answers_numbers {float : Type} {floats : Floats float}
    {World : Type}
    (search : string -> World -> search_outcome (@nominatim_item float) * World)
    : Prop :=
  ∀ query w item w',
    search query w = (Found item, w') ->
    (∀ lat, item_lat item = Some lat -> is_nan lat = false)
    ∧ (∀ lon, item_lon item = Some lon -> is_nan lon = false).

(** The cache holds numbers only: no coordinate of an entry is
    [NULL]. *)
Definition cache_numbers {float : Type} {floats : Floats float}
    {World : Type} (st : @state float World) : Prop :=
  map_Forall
    (fun _ e => is_number (gc_lat e) = true ∧ is_number (gc_lon e) = true)
    (geocache st).

(** ** Retrying on a locked database ([botapp/services/incidentes_db.py]) *)

(** What one call of [fn] does: it returns, it raises
    [sqlite3.OperationalError] ([msg] is [str(e)]), or it raises any
    other exception. *)
Inductive attempt (A : Type) : Type :=
| Returns (a : A)
| RaisesOperationalError (msg : string)
| RaisesOther.

Arguments Returns {A} a.
Arguments RaisesOperationalError {A} msg.
Arguments RaisesOther {A}.

(** How [_retry_locked] ends: it returns the value of [fn], it returns
    [None] because the loop ran to its end, an exception of [fn] leaves
    it, or the [ValueError] of [time.sleep] on a negative time. *)
Inductive retry_outcome (A : Type) : Type :=
| Returned (a : A)
| ReturnedNone
| RaisedOperationalError (msg : string)
| RaisedOther
| RaisedValueError.

Arguments Returned {A} a.
Arguments ReturnedNone {A}.
Arguments RaisedOperationalError {A} msg.
Arguments RaisedOther {A}.
Arguments RaisedValueError {A}.

(** What [_retry_locked] does, as seen from outside: the calls of [fn]
    and the waits, in seconds. *)
Inductive retry_event : Type :=
| Called
| Slept (seconds : Q).

(** [msg = str(e).lower(); "locked" in msg or "busy" in msg] *)
Definition is_locked (e : string) : bool :=
  let msg := Py.lower e in
  Py.contains "locked" msg || Py.contains "busy" msg.

Section Retry.

Context {A World : Type}.

(** The call of [fn] on its arguments, on the state of everything it
    depends on. *)
Variable fn : World -> attempt A * World.

(** The loop [for attempt in range(max_tries)]. *)
Fixpoint retry_loop (max_tries : Z) (base_sleep : Q) (attempts : list Z)
    (w : World) (events : list retry_event)
    : retry_outcome A * World * list retry_event :=
  match attempts with
  | attempt :: rest =>
      let '(out, w) := fn w in
      let events := events ++ [Called] in
      match out with
      | Returns a => (Returned a, w, events)
      | RaisesOperationalError msg =>
          if is_locked msg then
            if attempt =? max_tries - 1
            then (RaisedOperationalError msg, w, events)
            else
              let seconds := (base_sleep * inject_Z (2 ^ attempt))%Q in
              if Qlt_bool seconds 0 then (RaisedValueError, w, events)
              else retry_loop max_tries base_sleep rest w
                     (events ++ [Slept seconds])
          else (RaisedOperationalError msg, w, events)
      | RaisesOther => (RaisedOther, w, events)
      end
  | [] => (ReturnedNone, w, events)
  end.

(** [_max_tries] and [_base_sleep] are 6 and 0.05 when not given. *)
Definition _retry_locked (max_tries : Z) (base_sleep : Q) (w : World)
    : retry_outcome A * World * list retry_event :=
  retry_loop max_tries base_sleep (seqZ 0 max_tries) w [].

(** What the first [n] calls of [fn] do, and the state they leave. *)
Fixpoint calls (n : nat) (w : World) : list (attempt A) * World :=
  match n with
  | S k => let '(out, w) := fn w in
           let '(outs, w) := calls k w in (out :: outs, w)
  | O => ([], w)
  end.

End Retry.

(** The call failed on a locked or busy database. *)
Definition transient {A : Type} (out : attempt A) : bool :=
  match out with
  | RaisesOperationalError msg => is_locked msg
  | _ => false
  end.

(** How [_retry_locked] ends when the call [out] is its last. *)
Definition ends_with {A : Type} (out : attempt A) : retry_outcome A :=
  match out with
  | Returns a => Returned a
  | RaisesOperationalError msg => RaisedOperationalError msg
  | RaisesOther => RaisedOther
  end.

(** A call, then the wait that follows the failed attempt [attempt]. *)
Definition call_and_wait (base_sleep : Q) (attempt : Z) : list retry_event :=
  [Called; Slept (base_sleep * inject_Z (2 ^ attempt))%Q].

(** The seconds slept. *)
Definition seconds_slept (events : list retry_event) : Q :=
  foldr (fun e total => match e with
                        | Slept s => (s + total)%Q
                        | Called => total
                        end) 0%Q events.

(** The number of calls. *)
Definition calls_made (events : list retry_event) : nat :=
  length (List.filter (fun e => match e with Called => true | _ => false end)
            events).

(** ** Grouping by category ([botapp/handlers/sicu_full.py]) *)

(** [grouped.setdefault(it["categoria_sicu"], []).append(it)] for each
    item; [None] stands for the [KeyError] of an item without the key
    [categoria_sicu]. *)
Definition _group_by_category (items : list dict)
    : option (list (string * list dict)) :=
  foldl (fun grouped it =>
           match grouped, it !! "categoria_sicu" with
           | Some g, Some categoria => Some (setdefault_append categoria it g)
           | _, _ => None
           end)
    (Some []) items.

(** The category of an item that has one. *)
Definition categoria_sicu_of (it : dict) : string :=
  default EmptyString (it !! "categoria_sicu").

(** ** Rows of the incidents file ([botapp/utils/incidentes_csv.py]) *)

(** [sig] in [_dedup_rows]. *)
Definition row_signature (r : dict)
    : string * string * string * string * string :=
  (Py.strip (get_or_empty r "fecha"),
   Py.strip (get_or_empty r "hora"),
   Py.lower (Py.strip (get_or_empty r "pais")),
   Py.lower (Py.strip (get_or_empty r "descripcion")),
   Py.lower (Py.strip (get_or_empty r "fuente"))).

(** One turn of the loop of [_dedup_rows], on [seen] and [out]. *)
Definition dedup_step
    (acc : gset (string * string * string * string * string) * list dict)
    (r : dict)
    : gset (string * string * string * string * string) * list dict :=
  let sig := row_signature r in
  if decide (sig ∈ acc.1) then acc else ({[sig]} ∪ acc.1, acc.2 ++ [r]).

Definition _dedup_rows (rows : list dict) : list dict :=
  (foldl dedup_step (∅, []) rows).2.

(** ** The parser of the collected messages
    ([botapp/handlers/incidentes.py]) *)

(** [^---\s*(?P<channel>.+?)\s*@\s*(?P<dt>\d{4}-\d{2}-\d{2} \d{2}:\d{2}:\d{2})\s*---\s*$],
    the group [channel] numbered 1 and [dt] numbered 2. *)
Definition ENTRY_RE : Re.re :=
  Re.seq_of
    [ Re.Bol; Re.Lit "---"; Re.Star Re.Space;
      Re.Group 1 (Re.PlusLazy Re.Any);
      Re.Star Re.Space; Re.Lit "@"; Re.Star Re.Space;
      Re.Group 2
        (Re.seq_of
           [ Re.rep 4 Re.Digit; Re.Lit "-"; Re.rep 2 Re.Digit; Re.Lit "-";
             Re.rep 2 Re.Digit; Re.Lit " ";
             Re.rep 2 Re.Digit; Re.Lit ":"; Re.rep 2 Re.Digit; Re.Lit ":";
             Re.rep 2 Re.Digit ]);
      Re.Star Re.Space; Re.Lit "---"; Re.Star Re.Space; Re.Eol ].

(** [bool(d)] for a dictionary, or [None]. *)
Definition truthy_dict (d : option dict) : bool :=
  match d with
  | Some d => negb (bool_decide (d = ∅))
  | None => false
  end.

(** The local variables of [_parse_message_entries]. *)
Record entries_state : Type := EntriesState {
  m_entries : list dict;
  m_current : option dict;
  m_buffer : list string
}.

(** [if current: current["text"] = "\n".join(buffer).strip();
    entries.append(current)] *)
Definition close_message (st : entries_state) : list dict :=
  match m_current st with
  | Some cur =>
      if truthy_dict (m_current st)
      then m_entries st ++ [<["text" := Py.strip (Py.join Py.NL (m_buffer st))]> cur]
      else m_entries st
  | None => m_entries st
  end.

(** One turn of the loop over the lines. *)
Definition message_line (st : entries_state) (raw_line : string)
    : entries_state :=
  match Re.match_ false ENTRY_RE raw_line with
  | Some m =>
      EntriesState (close_message st)
        (Some (<["dt" := Re.group 2 m]>
                 (<["channel" := Py.strip (Re.group 1 m)]> ∅)))
        (if truthy_dict (m_current st) then [] else m_buffer st)
  | None =>
      match m_current st with
      | None => st
      | Some _ =>
          EntriesState (m_entries st) (m_current st) (m_buffer st ++ [raw_line])
      end
  end.

Definition _parse_message_entries (text : string) : list dict :=
  close_message
    (foldl message_line (EntriesState [] None []) (Py.splitlines text)).

(** The entry a header line opens, without its text. *)
Definition message_header_of (line : string) : option dict :=
  (fun m => <["dt" := Re.group 2 m]>
              (<["channel" := Py.strip (Re.group 1 m)]> ∅))
  <$> Re.match_ false ENTRY_RE line.

Definition is_message_header (line : string) : bool :=
  match message_header_of line with
  | Some _ => true
  | None => false
  end.

(** The lines between a header and the next header, or the end. *)
Fixpoint lines_until_message (lines : list string) : list string :=
  match lines with
  | line :: rest =>
      if is_message_header line then [] else line :: lines_until_message rest
  | [] => []
  end.

(** One entry per header line, its text the lines that follow it up to
    the next header, joined and stripped. *)
Fixpoint messages_of_lines (lines : list string) : list dict :=
  match lines with
  | line :: rest =>
      match message_header_of line with
      | Some e =>
          <["text" := Py.strip (Py.join Py.NL (lines_until_message rest))]> e
          :: messages_of_lines rest
      | None => messages_of_lines rest
      end
  | [] => []
  end.

(** *** The de-duplicator: what it keeps *)

(** The description of the row is blank. *)
Definition blank_description (r : dict) : Prop :=
  Py.strip (get_or_empty r "descripcion") = EmptyString.

#[global] Instance blank_description_dec (r : dict)
  : Decision (blank_description r).
Proof. unfold blank_description. apply _. Defined.

(** A cluster as the loop builds it: a representative, then rows that
    passed the test against it. *)
Definition well_clustered (cluster : list dict) : Prop :=
  match cluster with
  | rep :: members => Forall (fun r => same_incident r rep = true) members
  | [] => False
  end.

(** The first of the values of [field], trimmed, that is not blank among
    the rows of the cluster; blank when there is none. *)
Definition first_value (field : string) (cluster : list dict) : string :=
  default EmptyString
    (head (filter (fun v => v ≠ EmptyString)
             ((fun r => Py.strip (get_or_empty r field)) <$> cluster))).

(** Two rows without a description. *)
Definition row_blank_1 : dict :=
  sicu_row "2025-01-05" "14:00" "Libia" "Conflicto Armado" "" "Trípoli"
    "@canal1".
Definition row_blank_2 : dict :=
  sicu_row "2025-01-05" "14:10" "Libia" "Conflicto Armado" "  " "Trípoli"
    "@canal2".

(** *** The matching blocks of [difflib] *)

(** A match of [k] elements that starts at [i] in a text of [n]
    elements and at [j] in a text of [m] elements fits in both. *)
Definition match_fits (n m : nat) (best : Difflib.Match) : Prop :=
  let '(i, j, k) := best in (i + k <= n)%nat ∧ (j + k <= m)%nat.

(** The lengths [j2len] holds while the element [n] of the first text is
    awaited: no match that ends at the index [j] of the second text is
    longer than [n] or than [j + 1]. *)
Definition lengths_fit (n : nat) (j2len : list nat) : Prop :=
  ∀ j k, j2len !! j = Some k -> (k <= n)%nat ∧ (k <= S j)%nat.

(** *** Times of day *)

Definition is_digit (c : ascii) : bool :=
  match Py.digit c with
  | Some _ => true
  | None => false
  end.

(** A numeral: one ASCII digit or more. *)
Fixpoint all_digits (s : string) : bool :=
  match s with
  | String c r => is_digit c && all_digits r
  | EmptyString => true
  end.

Definition numeral (s : string) : bool := Py.truthy s && all_digits s.

(** The number a numeral writes, after [acc]. *)
Fixpoint numeral_value_go (acc : Z) (s : string) : Z :=
  match s with
  | String c r => numeral_value_go (10 * acc + default 0 (Py.digit c)) r
  | EmptyString => acc
  end.

Definition numeral_value (s : string) : Z := numeral_value_go 0 s.

(** *** Worlds and ledgers for the examples *)

(** A function that does what a script says, one attempt for each call
    in turn. *)
Definition scripted_calls {A : Type} (script : list (attempt A))
    : attempt A * list (attempt A) :=
  match script with
  | out :: rest => (out, rest)
  | [] => (RaisesOther, [])
  end.

(** A ledger with one row that awaits its coordinates, in front of a
    world where Nominatim knows Tripoli. *)
Definition pending_ledger
    : @state Q (list (search_outcome (@nominatim_item Q))) :=
  (add_incidente "Libia" "Terrorismo" "Ataque con bomba en Tripoli" "Collect"
     None None (Some "Tripoli") (fresh [Found tripoli_item])).2.

(** The same ledger in front of a world where Nominatim answers with
    a latitude that is not a number. *)
Definition nan_ledger
    : @state double (list (search_outcome (@nominatim_item double))) :=
  (add_incidente "Libia" "Terrorismo" "Ataque con bomba en Tripoli" "Collect"
     None None (Some "Tripoli") (fresh [Found nan_item])).2.

(** ** The parser of the reports ([botapp/services/incident_parser.py]) *)

(** *** What a match is

    The matches of an expression, told without the matcher: [spans
    icase r c c'] when [r] matches the text between the cursors [c] and
    [c'].  [Re.run] finds no other matches (lemma [run_sound]). *)

(** [n] steps of [R] in a row. *)
Fixpoint power (R : Re.cursor -> Re.cursor -> Prop) (n : nat)
    (c c' : Re.cursor) : Prop :=
  match n with
  | S k => ∃ cm, R c cm ∧ power R k cm c'
  | O => c' = c
  end.

Fixpoint spans (icase : bool) (r : Re.re) (c c' : Re.cursor) : Prop :=
  match r with
  | Re.Lit s =>
      Re.lit_matches icase s (Re.rest c) = true
      ∧ c' = Re.consume (String.length s) c
  | Re.Any =>
      (∃ a t, Re.rest c = String a t ∧ a ≠ "010"%char)
      ∧ c' = Re.consume 1 c
  | Re.Space =>
      Py.space_len (Re.rest c) ≠ O
      ∧ c' = Re.consume (Py.space_len (Re.rest c)) c
  | Re.Digit =>
      ∃ cp len,
        Py.decode_first (Re.rest c) = Some (cp, len)
        ∧ is_Some (Py.decimal cp)
        ∧ c' = Re.consume len c
  | Re.NoneOf chars =>
      (∃ a t, Re.rest c = String a t ∧ Py.mem_char a chars = false)
      ∧ c' = Re.consume 1 c
  | Re.Bol => Re.before c = EmptyString ∧ c' = c
  | Re.Eol =>
      (Re.rest c = EmptyString ∨ Re.rest c = String "010" EmptyString)
      ∧ c' = c
  | Re.WordB => xorb (Re.word_before c) (Re.word_after c) = true ∧ c' = c
  | Re.Seq r1 r2 => ∃ cm, spans icase r1 c cm ∧ spans icase r2 cm c'
  | Re.Alt r1 r2 => spans icase r1 c c' ∨ spans icase r2 c c'
  | Re.Opt r1 => spans icase r1 c c' ∨ c' = c
  | Re.Star r1 => ∃ n, power (spans icase r1) n c c'
  | Re.Plus r1 => ∃ n, power (spans icase r1) (S n) c c'
  | Re.PlusLazy r1 => ∃ n, power (spans icase r1) (S n) c c'
  | Re.Group i r1 =>
      ∃ c1,
        spans icase r1 c c1
        ∧ c' = Re.Cursor (Re.before c1) (Re.rest c1)
                 ((i, Re.take_str
                        (String.length (Re.rest c) - String.length (Re.rest c1))
                        (Re.rest c))
                  :: Re.groups c1)
  end.

(** The text between two cursors. *)
Definition between (c c' : Re.cursor) (mid : string) : Prop :=
  Re.rest c = mid +:+ Re.rest c'.

Module IncidentParser.

Definition SICU_SECCIONES : dict :=
  list_to_map
    [ ("conflicto armado", "Conflicto Armado"); ("terrorismo", "Terrorismo");
      ("delincuencia", "Criminalidad"); ("criminalidad", "Criminalidad");
      ("disturbios civiles", "Disturbios Civiles"); ("hazards", "Hazards") ].

(** The characters that [re.IGNORECASE] lets stand for an ASCII letter
    of a pattern: the letter, its capital and, for [i], [s] and [k], the
    letters U+0130 and U+0131, U+017F and U+212A; a character that is no
    letter stands for itself. *)
Definition any_case (c : ascii) : Re.re :=
  let n := Py.ord c in
  if ((97 <=? n) && (n <=? 122))%N then
    Re.one_of
      ([String c EmptyString; String (Py.chr (n - 32)) EmptyString]
       ++ (if Ascii.eqb c "i" then ["İ"; "ı"]
           else if Ascii.eqb c "s" then ["ſ"]
           else if Ascii.eqb c "k" then ["K"]
           else []))
  else Re.Lit (String c EmptyString).

(** A lower-case ASCII text of a pattern compiled with
    [re.IGNORECASE]. *)
Definition any_case_text (s : string) : Re.re :=
  Re.seq_of (any_case <$> list_ascii_of_string s).

(** [^\s*[-•*]\s+(?P<texto>.+)$], the group [texto] numbered 1. *)
Definition BULLET_RE : Re.re :=
  Re.seq_of
    [ Re.Bol; Re.Star Re.Space; Re.one_of ["-"; "•"; "*"]; Re.Plus Re.Space;
      Re.Group 1 (Re.Plus Re.Any); Re.Eol ].

(** [^\s*(conflicto armado|terrorismo|delincuencia|criminalidad|disturbios civiles|hazards)\s*:?\s*$]
    compiled with [re.IGNORECASE]. *)
Definition HEADER_RE : Re.re :=
  Re.seq_of
    [ Re.Bol; Re.Star Re.Space;
      Re.Group 1
        (Re.alt_of
           (any_case_text
            <$> [ "conflicto armado"; "terrorismo"; "delincuencia";
                  "criminalidad"; "disturbios civiles"; "hazards" ]));
      Re.Star Re.Space; Re.Opt (Re.Lit ":"); Re.Star Re.Space; Re.Eol ].

Definition _normaliza_sicu (seccion : string) : string :=
  default "Otros" (SICU_SECCIONES !! Py.lower (Py.strip seccion)).

Section Parser.

Context {float : Type}.

(** [_extrae_place]: the place it reads in the text of an incident, or
    [None].  Its patterns need the class [\w] on all of Unicode; the
    parser is modelled for whatever this function returns. *)
Variable _extrae_place : string -> option string.

(** One turn of the loop over the lines, on [incidentes] and
    [seccion_actual]. *)
Definition parse_line (default_fuente : string)
    (acc : list (@candidate float) * option string) (raw_line : string)
    : list (@candidate float) * option string :=
  let line := Py.strip raw_line in
  if negb (Py.truthy line) then acc
  else
    match Re.match_ false HEADER_RE line with
    | Some h => (acc.1, Some (_normaliza_sicu (Re.group 1 h)))
    | None =>
        match Re.match_ false BULLET_RE line, acc.2 with
        | Some m, Some seccion_actual =>
            if Py.truthy seccion_actual then
              let texto_inc := Py.strip (Re.group 1 m) in
              let place := _extrae_place texto_inc in
              (acc.1
               ++ [Candidate (Some seccion_actual) None (Some texto_inc) place
                     None (Some default_fuente) None None None],
               acc.2)
            else acc
        | _, _ => acc
        end
    end.

(** The dictionaries of the result, as the candidates that the
    registrar reads in them. *)
Definition parse_incidents_from_text (texto default_fuente : string)
    : list (@candidate float) :=
  (foldl (parse_line default_fuente) ([], None) (Py.splitlines texto)).1.

End Parser.

End IncidentParser.

(** [registrar_incidentes_desde_texto] ([botapp/services/report_hooks.py]);
    [fuente] is "Informe Diario" when not given. *)
Definition registrar_incidentes_desde_texto {float : Type}
    {floats : Floats float} {World : Type}
    (_nominatim_search :
       string -> World -> search_outcome (@nominatim_item float) * World)
    (_extrae_place : string -> option string)
    (pais texto_informe fuente : string) (resolver_ahora : bool)
    (country_hint : option string) (st : @state float World)
    : Z * @state float World :=
  let incidentes :=
    IncidentParser.parse_incidents_from_text _extrae_place texto_informe
      fuente in
  registrar_incidentes_desde_lista _nominatim_search pais incidentes
    resolver_ahora (Py.or_opt country_hint (Some pais)) st.

(** The categories a header can set. *)
Definition categorias : list string :=
  ["Conflicto Armado"; "Terrorismo"; "Criminalidad"; "Disturbios Civiles";
   "Hazards"; "Otros"].

(** A report with one section and one bullet, and one whose bullets
    come under no header. *)
Definition informe_tripoli : string :=
  "Terrorismo:" +:+ String "010" "- Ataque con bomba en Tripoli".

Definition informe_sin_cabecera : string :=
  "- Ataque con bomba en Tripoli" +:+ String "010" "* Robo en Bengasi".

Definition incidente_tripoli : @candidate Q :=
  Candidate (Some "Terrorismo") None (Some "Ataque con bomba en Tripoli")
    None None (Some "Informe") None None None.

(* ================================================================== *)
(** * Part II: properties                                              *)
(* ================================================================== *)

(** ** Python's operators *)

Lemma or_empty (s : string) : Py.or_ s EmptyString = s.
Proof. unfold Py.or_, Py.truthy. by destruct s. Qed.

Lemma truthy_false (s : string) : Py.truthy s = false -> s = EmptyString.
Proof. unfold Py.truthy. by destruct s. Qed.

Lemma truthy_true (s : string) : Py.truthy s = true -> s ≠ EmptyString.
Proof. unfold Py.truthy. by destruct s. Qed.

(** ** Strings *)

Lemma append_cons (a : ascii) (s t : string) :
  String a s +:+ t = String a (s +:+ t).
Proof. reflexivity. Qed.

Lemma append_nil_r (s : string) : s +:+ "" = s.
Proof.
  induction s as [|a s IH]; [done|]. by rewrite append_cons, IH.
Qed.

Lemma append_assoc (s1 s2 s3 : string) :
  (s1 +:+ s2) +:+ s3 = s1 +:+ (s2 +:+ s3).
Proof.
  induction s1 as [|a s1 IH]; [done|]. by rewrite !append_cons, IH.
Qed.

Lemma rev_app_append (s1 s2 s3 : string) :
  String.rev_app s1 s2 +:+ s3 = String.rev_app s1 (s2 +:+ s3).
Proof.
  revert s2. induction s1 as [|a s1 IH]; intros s2; [done|].
  cbn [String.rev_app]. by rewrite IH.
Qed.

Lemma rev_cons (a : ascii) (s : string) :
  String.rev (String a s) = String.rev s +:+ String a "".
Proof. unfold String.rev. cbn [String.rev_app]. by rewrite rev_app_append. Qed.

Lemma rev_append (s1 s2 : string) :
  String.rev (s1 +:+ s2) = String.rev s2 +:+ String.rev s1.
Proof.
  induction s1 as [|a s1 IH].
  - change (String.rev "") with "". by rewrite append_nil_r.
  - by rewrite append_cons, !rev_cons, IH, append_assoc.
Qed.

Lemma rev_involutive (s : string) : String.rev (String.rev s) = s.
Proof.
  induction s as [|a s IH]; [done|].
  by rewrite rev_cons, rev_append, IH.
Qed.

(** *** Lower-casing keeps the occurrences of a lower-case ASCII text *)

Lemma lower_go_stable (flag : bool) (c : ascii) (r : string) :
  stable_char c = true ->
  Py.lower_go flag (String c r) = String c (Py.lower_go false r).
Proof.
  unfold stable_char. intros [Hlt Hup]%andb_true_iff.
  apply N.ltb_lt in Hlt. apply negb_true_iff in Hup.
  cbn [Py.lower_go]. cbv zeta.
  assert ((128 <=? Py.ord c)%N = false) as -> by (apply N.leb_gt; lia).
  rewrite andb_false_r. cbn [andb].
  unfold Py.lower_ascii. rewrite Hup.
  assert ((Py.ord c =? 195)%N = false) as -> by (apply N.eqb_neq; lia).
  done.
Qed.

Lemma lower_go_cons (flag : bool) (c : ascii) (r : string) :
  ∃ c' flag', Py.lower_go flag (String c r) = String c' (Py.lower_go flag' r).
Proof.
  cbn [Py.lower_go]. cbv zeta.
  destruct (flag && (128 <=? Py.ord c)%N && (Py.ord c <=? 158)%N
            && negb (Py.ord c =? 151)%N); eauto.
Qed.

Lemma prefix_lower (k t : string) (flag : bool) :
  stable k = true -> String.prefix k t = true ->
  String.prefix k (Py.lower_go flag t) = true.
Proof.
  revert t flag. induction k as [|c k IH]; intros t flag Hk Hp.
  - by destruct (Py.lower_go flag t).
  - cbn [stable] in Hk. apply andb_true_iff in Hk as [Hc Hk].
    destruct t as [|d t]; [done|]. cbn [String.prefix] in Hp.
    destruct (ascii_dec c d) as [<- | Hne]; [|done].
    rewrite lower_go_stable by done. cbn [String.prefix].
    destruct (ascii_dec c c); [by apply IH | done].
Qed.

Lemma contains_lower_go (k t : string) (flag : bool) :
  stable k = true -> Py.contains k t = true ->
  Py.contains k (Py.lower_go flag t) = true.
Proof.
  intros Hk. revert flag. induction t as [|d t IH]; intros flag Hc.
  - cbn [Py.contains Py.lower_go] in *. by rewrite orb_false_r in *.
  - cbn [Py.contains] in Hc. apply orb_true_iff in Hc as [Hp | Hc].
    + destruct (Py.lower_go flag (String d t)) eqn:Hl;
        cbn [Py.contains]; rewrite <- Hl; by rewrite prefix_lower.
    + destruct (lower_go_cons flag d t) as (c' & flag' & ->).
      cbn [Py.contains]. rewrite (IH flag' Hc). apply orb_true_r.
Qed.

(** A text that contains a lower-case ASCII keyword contains it once
    lower-cased. *)
Lemma contains_lower (k t : string) :
  stable k = true -> Py.contains k t = true ->
  Py.contains k (Py.lower t) = true.
Proof. apply contains_lower_go. Qed.

(** *** What [strip] leaves *)

Section Strip.

Variables (w1 : ascii -> bool) (w2 : ascii -> ascii -> bool)
  (w3 : ascii -> ascii -> ascii -> bool).

Lemma lstrip_gen_kept (s : string) :
  head_kept w1 w2 w3 s = true -> Py.lstrip_gen w1 w2 w3 s = s.
Proof.
  destruct s as [|a [|b [|c r]]]; [done|..]; cbn [head_kept Py.lstrip_gen].
  - rewrite andb_true_r. intros ->%negb_true_iff. done.
  - rewrite andb_true_r. intros [->%negb_true_iff ->%negb_true_iff]%andb_true_iff.
    done.
  - intros [->%negb_true_iff [->%negb_true_iff ->%negb_true_iff]%andb_true_iff]%andb_true_iff.
    done.
Qed.

(** The result of the loop is a suffix of the text at whose head no
    recognizer fires. *)
Lemma lstrip_gen_spec (n : nat) (s : string) :
  (String.length s <= n)%nat ->
  head_kept w1 w2 w3 (Py.lstrip_gen w1 w2 w3 s) = true
  ∧ ∃ pre, s = pre +:+ Py.lstrip_gen w1 w2 w3 s.
Proof.
  revert s. induction n as [|n IH]; intros s Hn.
  { destruct s; [|simpl in Hn; lia]. split; [done | by exists ""]. }
  destruct s as [|a r1]; [split; [done | by exists ""]|].
  cbn [String.length] in Hn. cbn [Py.lstrip_gen].
  destruct (w1 a) eqn:H1.
  { destruct (IH r1 ltac:(lia)) as [Hk [pre Hpre]]. split; [done|].
    exists (String a pre). by rewrite append_cons, <- Hpre. }
  destruct r1 as [|b r2].
  { split; [cbn [head_kept]; by rewrite H1 | by exists ""]. }
  cbn [String.length] in Hn. destruct (w2 a b) eqn:H2.
  { destruct (IH r2 ltac:(lia)) as [Hk [pre Hpre]]. split; [done|].
    exists (String a (String b pre)). by rewrite !append_cons, <- Hpre. }
  destruct r2 as [|c r3].
  { split; [cbn [head_kept]; by rewrite H1, H2 | by exists ""]. }
  cbn [String.length] in Hn. destruct (w3 a b c) eqn:H3.
  { destruct (IH r3 ltac:(lia)) as [Hk [pre Hpre]]. split; [done|].
    exists (String a (String b (String c pre))).
    by rewrite !append_cons, <- Hpre. }
  split; [cbn [head_kept]; by rewrite H1, H2, H3 | by exists ""].
Qed.

Lemma lstrip_gen_head_kept (s : string) :
  head_kept w1 w2 w3 (Py.lstrip_gen w1 w2 w3 s) = true.
Proof. by apply (lstrip_gen_spec (String.length s)). Qed.

Lemma lstrip_gen_suffix (s : string) :
  ∃ pre, s = pre +:+ Py.lstrip_gen w1 w2 w3 s.
Proof. by apply (lstrip_gen_spec (String.length s)). Qed.

Lemma head_kept_prefix (t suffix : string) :
  head_kept w1 w2 w3 (t +:+ suffix) = true -> head_kept w1 w2 w3 t = true.
Proof.
  destruct t as [|a [|b [|c r]]]; [done|..]; rewrite ?append_cons;
    cbn [head_kept].
  - intros [-> _]%andb_true_iff. done.
  - destruct suffix; cbn [String.append];
      intros [-> H]%andb_true_iff; [done|].
    apply andb_true_iff in H as [-> _]. done.
  - done.
Qed.

End Strip.

Lemma space1_space : Py.space1 " " = true.
Proof. done. Qed.

Lemma head_kept_no_space w2 w3 (s : string) :
  head_kept Py.space1 w2 w3 s = true -> Py.lstrip_chars " " s = s.
Proof.
  destruct s as [|a r]; [done|]. cbn [head_kept Py.lstrip_chars Py.mem_char].
  intros [Ha _]%andb_true_iff. apply negb_true_iff in Ha.
  destruct (Ascii.eqb a " ") eqn:Heq; [|done].
  apply Ascii.eqb_eq in Heq as ->. by rewrite space1_space in Ha.
Qed.

(** The two ends of a stripped text. *)
Lemma strip_ends (s : string) :
  head_kept Py.space1 Py.space2 Py.space3 (Py.strip s) = true
  ∧ head_kept Py.space1 (fun a b => Py.space2 b a)
      (fun a b c => Py.space3 c b a) (String.rev (Py.strip s)) = true.
Proof.
  unfold Py.strip, Py.rstrip. rewrite rev_involutive. split.
  - destruct (lstrip_gen_suffix Py.space1 (fun a b => Py.space2 b a)
                (fun a b c => Py.space3 c b a) (String.rev (Py.lstrip s)))
      as [pre Hpre].
    apply (head_kept_prefix _ _ _ _ (String.rev pre)).
    rewrite <- rev_append, <- Hpre, rev_involutive.
    apply lstrip_gen_head_kept.
  - apply lstrip_gen_head_kept.
Qed.

Lemma strip_idempotent (s : string) : Py.strip (Py.strip s) = Py.strip s.
Proof.
  destruct (strip_ends s) as [Hl Hr].
  unfold Py.strip at 1. unfold Py.lstrip. rewrite lstrip_gen_kept by done.
  unfold Py.rstrip. rewrite lstrip_gen_kept by done. apply rev_involutive.
Qed.

(** SQLite's [TRIM] finds nothing to remove from what Python's [strip]
    returns. *)
Lemma sql_trim_strip (s : string) : sql_trim (Py.strip s) = Py.strip s.
Proof.
  destruct (strip_ends s) as [Hl Hr].
  unfold sql_trim, Py.strip_chars, Py.rstrip_chars.
  rewrite (head_kept_no_space _ _ _ Hl), (head_kept_no_space _ _ _ Hr).
  apply rev_involutive.
Qed.

(** ** The categorizers *)

Section Categorizer.

Variable lowered : string.

Lemma first_category_matching table c :
  first_category table lowered = Some c -> first_matching table lowered c.
Proof.
  induction table as [|[cat kws] table IH]; simpl; [done|].
  destruct (Py.any_in kws lowered) eqn:Hany.
  - intros [= <-]. exists [], kws, table. by repeat split.
  - intros H. destruct (IH H) as (pre & kws' & post & -> & Hk & Hpre).
    exists ((cat, kws) :: pre), kws', post. repeat split; [done|].
    by constructor.
Qed.

Lemma first_category_none table :
  first_category table lowered = None <-> no_match table lowered.
Proof.
  unfold no_match. induction table as [|[cat kws] table IH]; simpl.
  - split; [constructor | done].
  - destruct (Py.any_in kws lowered) eqn:Hany.
    + split; [done|]. intros H. inversion H; simplify_eq/=. congruence.
    + rewrite IH. split; [by constructor | by inversion 1].
Qed.

Lemma first_matching_category table c :
  first_matching table lowered c -> first_category table lowered = Some c.
Proof.
  intros (pre & kws & post & -> & Hk & Hpre).
  induction Hpre as [|[cat kws'] pre Hno _ IH]; simpl in *.
  - by rewrite Hk.
  - by rewrite Hno.
Qed.

(** The loop followed by its default, in the words of the
    specification. *)
Lemma first_category_default table dflt c :
  default dflt (first_category table lowered) = c
  <-> first_matching table lowered c ∨ (no_match table lowered ∧ c = dflt).
Proof.
  split.
  - destruct (first_category table lowered) as [c'|] eqn:H; simpl; intros <-.
    + left. by apply first_category_matching.
    + right. split; [by apply first_category_none | done].
  - intros [H | [H ->]].
    + by rewrite (first_matching_category _ _ H).
    + apply first_category_none in H. by rewrite H.
Qed.

End Categorizer.

Lemma classify_categoria_table (text : string) :
  _classify_categoria text
  = default "Sin clasificar" (first_category CATEGORY_KEYWORDS (Py.lower text)).
Proof.
  unfold _classify_categoria.
  destruct (Py.truthy text) eqn:Ht; simpl.
  - by destruct (first_category CATEGORY_KEYWORDS (Py.lower text)).
  - apply truthy_false in Ht as ->. reflexivity.
Qed.

Lemma normalize_sicu_table (text : string) :
  _normalize_sicu text
  = default "Otros" (first_category SICU_TESTS (Py.lower text)).
Proof.
  unfold _normalize_sicu. rewrite or_empty. simpl.
  unfold SICU_CONFLICTO_ARMADO, SICU_TERRORISMO, SICU_CRIMINALIDAD,
    SICU_DISTURBIOS_CIVILES, SICU_HAZARDS.
  repeat (match goal with |- context [if ?b then _ else _] => destruct b end;
          simpl; try reflexivity).
Qed.

(** C7, as amended.  Both categorizers lower-case the text and return
    the first category, in the order of their own table, one of whose
    keywords occurs in it, and their default when none does:
    [_classify_categoria] tests Terrorismo, Conflicto Armado,
    Criminalidad, Disturbios Civiles, Hazards and defaults to
    "Sin clasificar"; [_normalize_sicu] tests Conflicto Armado before
    Terrorismo, then Criminalidad, Disturbios Civiles, Hazards, and
    defaults to "Otros". *)
Theorem categorizers_first_match (text c : string) :
  (_classify_categoria text = c
   <-> first_matching CATEGORY_KEYWORDS (Py.lower text) c
       ∨ (no_match CATEGORY_KEYWORDS (Py.lower text) ∧ c = "Sin clasificar"))
  ∧ CATEGORY_KEYWORDS.*1
    = [ "Terrorismo"; "Conflicto Armado"; "Criminalidad";
        "Disturbios Civiles"; "Hazards" ]
  ∧ (_normalize_sicu text = c
     <-> first_matching SICU_TESTS (Py.lower text) c
         ∨ (no_match SICU_TESTS (Py.lower text) ∧ c = "Otros"))
  ∧ SICU_TESTS.*1
    = [ "Conflicto Armado"; "Terrorismo"; "Criminalidad";
        "Disturbios Civiles"; "Hazards" ].
Proof.
  split; [|split; [reflexivity|split; [|reflexivity]]].
  - rewrite classify_categoria_table. apply first_category_default.
  - rewrite normalize_sicu_table. apply first_category_default.
Qed.

(** C7, the counterexample.  On "combate con bomba" the first category
    in the order of the specification is Terrorismo, and
    [_normalize_sicu] answers Conflicto Armado. *)
Lemma normalize_sicu_not_terrorismo_first :
  first_matching SICU_TESTS_AS_SPECIFIED (Py.lower "combate con bomba") "Terrorismo"
  ∧ _normalize_sicu "combate con bomba" = "Conflicto Armado".
Proof.
  split; [|reflexivity].
  exists [], SICU_TERRORISMO,
    [ ("Conflicto Armado", SICU_CONFLICTO_ARMADO);
      ("Criminalidad", SICU_CRIMINALIDAD);
      ("Disturbios Civiles", SICU_DISTURBIOS_CIVILES);
      ("Hazards", SICU_HAZARDS) ].
  split; [reflexivity | split; [reflexivity | constructor]].
Qed.

(** C8, as amended.  Terrorismo goes before Disturbios Civiles in both
    categorizers, so a keyword of Disturbios Civiles such as "protesta"
    never changes the answers below.  Under [_normalize_sicu] a text
    with "bomba", in any letter case, and without any keyword of
    Conflicto Armado is Terrorismo; under [_classify_categoria], where
    "bomba" alone is no keyword, a text with one of its Terrorismo
    keywords is Terrorismo.  Both are functions of the text alone.  (By
    [contains_lower] a text that contains "bomba" as it is written
    contains it once lower-cased.) *)
Theorem terrorismo_precedence (t1 t2 : string) :
  Py.contains "bomba" (Py.lower t1) = true ->
  Py.any_in SICU_CONFLICTO_ARMADO (Py.lower t1) = false ->
  Py.any_in CATEGORY_TERRORISMO (Py.lower t2) = true ->
  _normalize_sicu t1 = "Terrorismo" ∧ _classify_categoria t2 = "Terrorismo".
Proof.
  intros Hbomba Hno Hkw. split.
  - rewrite normalize_sicu_table. unfold SICU_TESTS. cbn [first_category].
    rewrite Hno.
    assert (Py.any_in SICU_TERRORISMO (Py.lower t1) = true) as ->; [|done].
    unfold Py.any_in, SICU_TERRORISMO. cbn [existsb]. by rewrite Hbomba.
  - rewrite classify_categoria_table. unfold CATEGORY_KEYWORDS.
    cbn [first_category]. unfold CATEGORY_TERRORISMO in Hkw. by rewrite Hkw.
Qed.

(** The theorem on two reports of a bomb at a protest. *)
Lemma terrorismo_precedence_witness :
  _normalize_sicu "Ataque con bomba durante la protesta" = "Terrorismo"
  ∧ _classify_categoria "Bomba suicida en la protesta" = "Terrorismo".
Proof.
  apply (terrorismo_precedence "Ataque con bomba durante la protesta"
           "Bomba suicida en la protesta"); reflexivity.
Defined.

(** C8, the counterexample.  A text with "bomba" and "protesta" that
    neither categorizer files under Terrorismo. *)
Lemma bomba_protesta_not_terrorismo :
  let text := "Enfrentamiento tras una bomba en la protesta" in
  Py.contains "bomba" text = true
  ∧ Py.contains "protesta" text = true
  ∧ _normalize_sicu text = "Conflicto Armado"
  ∧ _classify_categoria text = "Conflicto Armado"
  ∧ _classify_categoria "bomba en la protesta" = "Disturbios Civiles".
Proof. repeat split. Qed.

(** ** The feed parser *)

Lemma parse_line_header (st : parser_state) (line : string) (e : dict) :
  header_of line = Some e ->
  parse_line st line = ParserState (close_entry st) (Some e) [].
Proof.
  unfold header_of, parse_line.
  destruct (Re.match_ false HEADER_RE line); simpl; [|done].
  by intros [= <-].
Qed.

Lemma parse_line_body (st : parser_state) (line : string) :
  header_of line = None ->
  parse_line st line
  = match current st with
    | Some _ => ParserState (entries st) (current st) (body_lines st ++ [line])
    | None => st
    end.
Proof.
  unfold header_of, parse_line.
  by destruct (Re.match_ false HEADER_RE line).
Qed.

(** The invariant of the loop: what the entries will be once the lines
    left to read, [lines], have been read. *)
Lemma parse_loop_invariant (lines : list string) (st : parser_state) :
  close_entry (foldl parse_line st lines)
  = match current st with
    | Some cur =>
        entries st
        ++ <["body" := stripped_body (body_lines st ++ lines_until_header lines)]> cur
           :: entries_of_lines stripped_body lines
    | None => entries st ++ entries_of_lines stripped_body lines
    end.
Proof.
  revert st. induction lines as [|line rest IH]; intros st.
  - simpl. unfold close_entry, stripped_body.
    destruct (current st); by rewrite app_nil_r.
  - cbn [foldl lines_until_header entries_of_lines]. unfold is_header.
    destruct (header_of line) as [e|] eqn:Hh.
    + rewrite (parse_line_header st line e Hh), IH. simpl.
      unfold close_entry, stripped_body.
      destruct (current st); by rewrite ?app_nil_r, <- ?app_assoc.
    + rewrite (parse_line_body st line Hh).
      destruct (current st) as [cur|] eqn:Hcur.
      * rewrite IH. simpl. by rewrite <- app_assoc.
      * rewrite IH. by rewrite Hcur.
Qed.

Lemma entries_of_lines_length body_of (lines : list string) :
  length (entries_of_lines body_of lines) = length (List.filter is_header lines).
Proof.
  induction lines as [|line rest IH]; simpl; [done|].
  unfold is_header at 1. destruct (header_of line); simpl; by rewrite IH.
Qed.

(** C6, as amended.  The parser makes one entry for each line of the
    text that matches the header grammar, in order; the body of an entry
    is the lines between its header and the next header, or the end of
    the text, joined by newlines and then stripped of the white space at
    both ends; the lines before the first header go to no entry. *)
Theorem parse_txt_news_entries (text : string) :
  _parse_txt_news text = entries_of_lines stripped_body (Py.splitlines text)
  ∧ length (_parse_txt_news text)
    = length (List.filter is_header (Py.splitlines text)).
Proof.
  assert (_parse_txt_news text
          = entries_of_lines stripped_body (Py.splitlines text)) as H.
  { unfold _parse_txt_news. by rewrite parse_loop_invariant. }
  split; [done|]. rewrite H. apply entries_of_lines_length.
Qed.

(** C6, the counterexample.  An indented line and a blank one after a
    header: the lines between the header and the end are not the body. *)
Lemma parse_txt_news_strips_body :
  let text :=
    "--- @canal1 @ 2025-01-05 10:00:00 ---" +:+ Py.NL
    +:+ "   Ataque con bomba en Trípoli" +:+ Py.NL +:+ Py.NL in
  (fun e : dict => e !! "body") <$> _parse_txt_news text
  = [Some "Ataque con bomba en Trípoli"]
  ∧ (fun e : dict => e !! "body")
    <$> entries_of_lines exact_body (Py.splitlines text)
    = [Some ("   Ataque con bomba en Trípoli" +:+ Py.NL)].
Proof. split; reflexivity. Qed.

(** ** The SICU de-duplicator *)

(** *** The test of the loop is the test of the specification *)

Lemma same_incident_qualifies (row rep : dict) :
  same_incident row rep = true <-> qualifies row rep.
Proof.
  unfold same_incident, qualifies, Qlt_bool.
  destruct (Qle_bool (3 # 4)
              (_similarity (Py.strip (get_or_empty row "descripcion"))
                 (Py.strip (get_or_empty rep "descripcion")))) eqn:Hsim; simpl.
  - apply Qle_bool_iff in Hsim.
    destruct (_parse_time_to_minutes (get_or_empty row "hora")) as [t|];
      destruct (_parse_time_to_minutes (get_or_empty rep "hora")) as [rt|];
      try tauto.
    destruct (120 <? Z.abs (t - rt)) eqn:Hd.
    + apply Z.ltb_lt in Hd. split; [done | lia].
    + apply Z.ltb_ge in Hd. tauto.
  - split; [done|]. intros [H _]. apply Qle_bool_iff in H. congruence.
Qed.

Lemma same_incident_false (row rep : dict) :
  same_incident row rep = false <-> ¬ qualifies row rep.
Proof.
  rewrite <- same_incident_qualifies. by destruct (same_incident row rep).
Qed.

(** *** One turn of the loop over the rows *)

Lemma place_row_assign (row : dict) (clusters : list (list dict)) :
  place_row row clusters = assign clusters row.
Proof.
  unfold assign. induction clusters as [|cluster rest IH]; [done|].
  cbn [place_row list_find].
  destruct (decide (qualifying_cluster row cluster)) as [Hq | Hq].
  - unfold qualifying_cluster in Hq. destruct cluster as [|rep tl]; [done|].
    simpl in Hq. apply same_incident_qualifies in Hq. by rewrite Hq.
  - assert (match cluster with
            | rep :: _ =>
                if same_incident row rep then (cluster ++ [row]) :: rest
                else cluster :: place_row row rest
            | [] => cluster :: place_row row rest
            end = cluster :: place_row row rest) as ->.
    { destruct cluster as [|rep tl]; [done|].
      unfold qualifying_cluster in Hq. simpl in Hq.
      apply same_incident_false in Hq. by rewrite Hq. }
    rewrite IH.
    destruct (list_find (qualifying_cluster row) rest) as [[i c]|]; done.
Qed.

Lemma cluster_items_assign (items : list dict) :
  cluster_items items = foldl assign [] items.
Proof.
  unfold cluster_items. generalize (@nil (list dict)) as acc.
  induction items as [|row items IH]; intros acc; [done|].
  simpl. by rewrite place_row_assign, IH.
Qed.

(** *** The groups *)

Lemma filter_none {A : Type} (P : A -> Prop) `{!∀ x, Decision (P x)}
    (l : list A) :
  Forall (fun x => ¬ P x) l -> filter P l = [].
Proof.
  induction 1 as [|x l Hx _ IH]; [done|].
  by rewrite filter_cons_False.
Qed.

Lemma filter_all {A : Type} (P : A -> Prop) `{!∀ x, Decision (P x)}
    (l : list A) :
  Forall P l -> filter P l = l.
Proof.
  induction 1 as [|x l Hx _ IH]; [done|].
  by rewrite filter_cons_True, IH.
Qed.

Section Groups.

Context {K : Type} `{EqDecision K}.

Lemma elem_of_first_appearances (l : list K) (x : K) :
  x ∈ first_appearances l <-> x ∈ l.
Proof.
  revert x. induction l as [|y l IH]; intros x; simpl; [done|].
  rewrite !elem_of_cons, list_elem_of_filter, IH.
  destruct (decide (x = y)); tauto.
Qed.

Lemma NoDup_first_appearances (l : list K) : NoDup (first_appearances l).
Proof.
  induction l as [|y l IH]; simpl; constructor.
  - rewrite list_elem_of_filter. tauto.
  - by apply NoDup_filter.
Qed.

Lemma first_appearances_snoc (l : list K) (x : K) :
  first_appearances (l ++ [x])
  = if decide (x ∈ l) then first_appearances l else first_appearances l ++ [x].
Proof.
  induction l as [|y l IH]; [done|].
  cbn [app first_appearances]. rewrite IH.
  destruct (decide (x ∈ l)) as [Hin | Hin].
  - rewrite decide_True; [done | by right].
  - rewrite filter_app. destruct (decide (x = y)) as [-> | Hne].
    + rewrite decide_True by left.
      rewrite filter_cons_False by (intros ?; done).
      by rewrite filter_nil, app_nil_r.
    + rewrite decide_False by (rewrite elem_of_cons; tauto).
      by rewrite filter_cons_True, filter_nil.
Qed.

Lemma first_appearances_filter (l : list K) (x : K) :
  filter (fun y => y ≠ x) (first_appearances l)
  = first_appearances (filter (fun y => y ≠ x) l).
Proof.
  induction l as [|y l IH]; simpl; [done|].
  destruct (decide (y = x)) as [-> | Hne].
  - rewrite filter_cons_False by (intros ?; tauto).
    rewrite (filter_cons_False _ x l) by (intros ?; tauto).
    rewrite <- IH. rewrite list_filter_filter.
    apply list_filter_iff. (intros ?; tauto).
  - rewrite filter_cons_True by done.
    rewrite (filter_cons_True _ y l) by done. simpl. f_equal.
    rewrite <- IH. rewrite !list_filter_filter.
    apply list_filter_iff. (intros ?; tauto).
Qed.

Variable key_of : dict -> K.

(** [setdefault(key, []).append(r)] on the groups of the rows before. *)
Lemma setdefault_append_groups (rows : list dict) (r : dict) :
  setdefault_append (key_of r) r (groups_by key_of rows)
  = groups_by key_of (rows ++ [r]).
Proof.
  unfold groups_by. rewrite fmap_app. simpl.
  rewrite first_appearances_snoc.
  assert (∀ ks : list K,
    NoDup ks ->
    setdefault_append (key_of r) r
      ((fun k => (k, filter (fun r' => key_of r' = k) rows)) <$> ks)
    = if decide (key_of r ∈ ks)
      then (fun k => (k, filter (fun r' => key_of r' = k) (rows ++ [r]))) <$> ks
      else ((fun k => (k, filter (fun r' => key_of r' = k) (rows ++ [r]))) <$> ks)
           ++ [(key_of r, [r])]) as Hks.
  { induction ks as [|k ks IH]; intros Hnd.
    - done.
    - apply NoDup_cons in Hnd as [Hk Hnd]. cbn [fmap list_fmap setdefault_append].
      destruct (decide (k = key_of r)) as [-> | Hne].
      + rewrite decide_True by left. f_equal.
        * rewrite filter_app, filter_cons_True by done. by rewrite filter_nil.
        * apply list_fmap_ext. intros i k' Hk'. f_equal.
          rewrite filter_app, filter_cons_False, filter_nil, app_nil_r; [done|].
          intros Heq. apply Hk. rewrite Heq. by eapply list_elem_of_lookup_2.
      + rewrite IH by done.
        assert (filter (fun r' => key_of r' = k) (rows ++ [r])
                = filter (fun r' => key_of r' = k) rows) as Hf.
        { rewrite filter_app, filter_cons_False, filter_nil, app_nil_r; done. }
        destruct (decide (key_of r ∈ ks)) as [Hin | Hin].
        * rewrite decide_True by (by right). simpl. by rewrite Hf.
        * rewrite decide_False
            by (rewrite elem_of_cons; intros [?|?]; [congruence|done]).
          simpl. by rewrite Hf. }
  rewrite Hks by apply NoDup_first_appearances.
  destruct (decide (key_of r ∈ key_of <$> rows)) as [Hin | Hin].
  - rewrite decide_True; [done | by apply elem_of_first_appearances].
  - rewrite decide_False by (by rewrite elem_of_first_appearances).
    rewrite fmap_app. simpl. do 2 f_equal.
    rewrite filter_app, filter_cons_True, filter_nil by done.
    rewrite filter_none; [done|].
    apply Forall_forall. intros r' Hr' Heq. apply Hin. rewrite <- Heq.
    by apply list_elem_of_fmap_2.
Qed.

End Groups.

Lemma group_rows_groups (rows : list dict) :
  group_rows rows = groups_by group_key rows.
Proof.
  unfold group_rows. induction rows as [|r rows IH] using rev_ind; [done|].
  by rewrite foldl_app, IH, <- setdefault_append_groups.
Qed.

(** *** Merging keeps the identity of the representative *)

Lemma same_identity_refl (a : dict) : same_identity a a.
Proof. by repeat split. Qed.

Lemma same_identity_key (a b : dict) :
  same_identity a b -> group_key a = group_key b.
Proof.
  intros (Hp & Hc & Hf & Hl & _ & _). unfold group_key, get_or_empty.
  by rewrite Hp, Hc, Hf, Hl.
Qed.

Lemma same_identity_incident (a b a' b' : dict) :
  same_identity a a' -> same_identity b b' ->
  same_incident a b = same_incident a' b'.
Proof.
  intros (_ & _ & _ & _ & Hd & Hh) (_ & _ & _ & _ & Hd' & Hh').
  unfold same_incident, get_or_empty. by rewrite Hd, Hh, Hd', Hh'.
Qed.

Ltac not_among :=
  let H := fresh in
  intros H; repeat (apply elem_of_cons in H as [H | H]; [discriminate|]);
  by apply elem_of_nil in H.

Lemma same_identity_insert (a b : dict) (key v : string) :
  key ∉ ["pais"; "categoria_sicu"; "fecha"; "localizacion"; "descripcion";
         "hora"] ->
  same_identity a b -> same_identity (<[key := v]> a) b.
Proof.
  intros Hkey (Hp & Hc & Hf & Hl & Hd & Hh).
  repeat split; (rewrite lookup_insert_ne; [done|]); intros ->; apply Hkey;
    repeat constructor.
Qed.

Lemma same_identity_fill (a b : dict) (key : string) (cluster : list dict) :
  key ∉ ["pais"; "categoria_sicu"; "fecha"; "localizacion"; "descripcion";
         "hora"] ->
  same_identity a b -> same_identity (fill_from_cluster key cluster a) b.
Proof.
  intros Hkey H. unfold fill_from_cluster.
  destruct (negb _); [|done].
  destruct (first_nonempty key cluster); [|done].
  by apply same_identity_insert.
Qed.

Lemma merge_cluster_identity (first : dict) (rest : list dict) :
  ∃ m, merge_cluster (first :: rest) = [m] ∧ same_identity m first.
Proof.
  destruct rest as [|second rest].
  - exists first. split; [done | apply same_identity_refl].
  - eexists. split; [reflexivity|].
    do 2 (apply same_identity_fill; [not_among|]).
    destruct (merge_fuentes _); [apply same_identity_refl|].
    apply same_identity_insert; [not_among | apply same_identity_refl].
Qed.

Lemma merge_cluster_singleton (m : dict) : merge_cluster [m] = [m].
Proof. done. Qed.

(** *** The representatives of the clusters stay apart *)

Lemma apart_snoc (reps : list dict) (row : dict) :
  apart reps -> Forall (fun r => same_incident row r = false) reps ->
  apart (reps ++ [row]).
Proof.
  induction reps as [|r reps IH]; simpl; [done|].
  intros [Hr Hreps] Hrow. apply Forall_cons in Hrow as [Hrow1 Hrow2].
  split; [|by apply IH]. apply Forall_app. split; [done|]. by constructor.
Qed.

Lemma apart_app_inv (pre : list dict) (m : dict) (post : list dict) :
  apart (pre ++ m :: post) -> Forall (fun r => same_incident m r = false) pre.
Proof.
  induction pre as [|p pre IH]; simpl; [done|].
  intros [Hp Hrest]. constructor; [|by apply IH].
  apply Forall_app in Hp as [_ Hp]. by apply Forall_cons in Hp as [Hp _].
Qed.

Lemma apart_identity (ms reps : list dict) :
  Forall2 same_identity ms reps -> apart reps -> apart ms.
Proof.
  induction 1 as [|m r ms reps Hm Hms IH]; simpl; [done|].
  intros [Hr Hreps]. split; [|by apply IH].
  clear IH Hreps. induction Hms as [|m' r' ms reps Hm' _ IH']; [done|].
  apply Forall_cons in Hr as [Hr1 Hr2]. constructor; [|by apply IH'].
  by rewrite (same_identity_incident m' m r' r).
Qed.

Lemma place_row_reps (row : dict) (clusters : list (list dict))
    (reps : list dict) :
  Forall2 rep_of clusters reps ->
  Forall2 rep_of (place_row row clusters) reps
  ∨ (Forall2 rep_of (place_row row clusters) (reps ++ [row])
     ∧ Forall (fun r => same_incident row r = false) reps).
Proof.
  induction 1 as [|cluster rep clusters reps Hrep Hrest IH]; cbn [place_row].
  - right. split; [|done]. by repeat constructor.
  - unfold rep_of in Hrep. destruct cluster as [|rep' tl]; [done|].
    simpl in Hrep. injection Hrep as ->.
    destruct (same_incident row rep) eqn:Hsame.
    + left. by constructor.
    + destruct IH as [IH | [IH Hno]].
      * left. by constructor.
      * right. split; by constructor.
Qed.

Lemma cluster_loop_reps (items : list dict) (clusters : list (list dict))
    (reps : list dict) :
  Forall2 rep_of clusters reps -> apart reps ->
  ∃ reps',
    Forall2 rep_of (foldl (fun cs row => place_row row cs) clusters items) reps'
    ∧ apart reps'.
Proof.
  revert clusters reps. induction items as [|row items IH];
    intros clusters reps Hreps Hapart; simpl; [by exists reps|].
  destruct (place_row_reps row clusters reps Hreps) as [H | [H Hno]].
  - by apply (IH _ reps).
  - apply (IH _ (reps ++ [row])); [done | by apply apart_snoc].
Qed.

Lemma cluster_items_reps (items : list dict) :
  ∃ reps, Forall2 rep_of (cluster_items items) reps ∧ apart reps.
Proof. apply (cluster_loop_reps items [] []); [constructor | done]. Qed.

(** The rows of the clusters are the rows that were given. *)
Lemma place_row_Forall (P : dict -> Prop) (row : dict)
    (clusters : list (list dict)) :
  P row -> Forall (Forall P) clusters -> Forall (Forall P) (place_row row clusters).
Proof.
  intros Hrow. induction 1 as [|cluster clusters Hc Hcs IH]; cbn [place_row].
  - by repeat constructor.
  - destruct cluster as [|rep tl]; [by constructor|].
    destruct (same_incident row rep); constructor; try done.
    apply Forall_app. split; [done | by constructor].
Qed.

Lemma cluster_loop_Forall (P : dict -> Prop) (items : list dict)
    (clusters : list (list dict)) :
  Forall (Forall P) clusters -> Forall P items ->
  Forall (Forall P) (foldl (fun cs row => place_row row cs) clusters items).
Proof.
  revert clusters.
  induction items as [|row items IH]; intros clusters Hcs Hitems; [done|].
  apply Forall_cons in Hitems as [Hrow Hitems]. simpl.
  apply IH; [|done]. by apply place_row_Forall.
Qed.

Lemma cluster_items_Forall (P : dict -> Prop) (items : list dict) :
  Forall P items -> Forall (Forall P) (cluster_items items).
Proof. apply cluster_loop_Forall. constructor. Qed.

Lemma place_row_not_nil (row : dict) (clusters : list (list dict)) :
  place_row row clusters ≠ [].
Proof.
  destruct clusters as [|[|rep tl] rest]; cbn [place_row]; [done..|].
  by destruct (same_incident row rep).
Qed.

Lemma cluster_items_not_nil (items : list dict) :
  items ≠ [] -> cluster_items items ≠ [].
Proof.
  unfold cluster_items.
  destruct items as [|row items _] using rev_ind; [done|]. intros _.
  rewrite foldl_app. simpl. apply place_row_not_nil.
Qed.

(** *** The rows a group leaves *)

Lemma merged_of_clusters (clusters : list (list dict)) (reps : list dict) :
  Forall2 rep_of clusters reps ->
  ∃ ms, flat_map merge_cluster clusters = ms ∧ Forall2 same_identity ms reps.
Proof.
  induction 1 as [|cluster rep clusters reps Hrep _ [ms [Hms IH]]]; simpl.
  - by exists [].
  - unfold rep_of in Hrep. destruct cluster as [|rep' tl]; [done|].
    simpl in Hrep. injection Hrep as ->.
    destruct (merge_cluster_identity rep tl) as (m & -> & Hm).
    exists (m :: ms). rewrite Hms. split; [done | by constructor].
Qed.

Lemma merged_rows_spec (items : list dict) :
  ∃ reps,
    Forall2 rep_of (cluster_items items) reps
    ∧ Forall2 same_identity (merged_rows items) reps
    ∧ apart (merged_rows items).
Proof.
  destruct (cluster_items_reps items) as (reps & Hreps & Hapart).
  destruct (merged_of_clusters _ _ Hreps) as (ms & Hms & Hid).
  exists reps. unfold merged_rows. rewrite Hms.
  split; [done|]. split; [done|]. by apply (apart_identity ms reps).
Qed.

Lemma merged_rows_not_nil (items : list dict) :
  items ≠ [] -> merged_rows items ≠ [].
Proof.
  intros Hne. destruct (merged_rows_spec items) as (reps & Hreps & Hid & _).
  apply cluster_items_not_nil in Hne.
  intros Hnil. rewrite Hnil in Hid. apply Forall2_nil_inv_l in Hid as ->.
  by apply Forall2_nil_inv_r in Hreps.
Qed.

Lemma merged_rows_key (items : list dict) k :
  Forall (fun r => group_key r = k) items ->
  Forall (fun r => group_key r = k) (merged_rows items).
Proof.
  intros Hitems. destruct (merged_rows_spec items) as (reps & Hreps & Hid & _).
  apply (cluster_items_Forall _ items) in Hitems.
  assert (Forall (fun r => group_key r = k) reps) as Hk.
  { clear Hid. induction Hreps as [|c r cs rs Hc _ IH]; [done|].
    apply Forall_cons in Hitems as [Hc' Hcs]. constructor; [|by apply IH].
    unfold rep_of in Hc. destruct c as [|r' tl]; [done|].
    simpl in Hc. injection Hc as ->. by apply Forall_cons in Hc' as [? _]. }
  clear Hreps Hitems. induction Hid as [|m r ms rs Hm _ IH]; [done|].
  apply Forall_cons in Hk as [Hr Hrs]. constructor; [|by apply IH].
  by rewrite (same_identity_key m r).
Qed.

(** *** The second pass changes nothing *)

Lemma place_row_singletons (m : dict) (pre : list dict) :
  Forall (fun r => same_incident m r = false) pre ->
  place_row m ((fun x => [x]) <$> pre) = ((fun x => [x]) <$> pre) ++ [[m]].
Proof.
  induction 1 as [|r pre Hr _ IH]; [done|].
  rewrite fmap_cons. cbn [place_row]. by rewrite Hr, IH.
Qed.

Lemma cluster_loop_singletons (ms pre : list dict) :
  apart (pre ++ ms) ->
  foldl (fun cs row => place_row row cs) ((fun x => [x]) <$> pre) ms
  = (fun x => [x]) <$> (pre ++ ms).
Proof.
  revert pre. induction ms as [|m ms IH]; intros pre Hapart; simpl.
  - by rewrite app_nil_r.
  - rewrite place_row_singletons by (by eapply apart_app_inv).
    replace (((fun x => [x]) <$> pre) ++ [[m]])
      with ((fun x : dict => [x]) <$> (pre ++ [m])) by (by rewrite fmap_app).
    rewrite IH; by rewrite <- app_assoc.
Qed.

Lemma merge_singletons (ms : list dict) :
  flat_map merge_cluster ((fun x => [x]) <$> ms) = ms.
Proof.
  induction ms as [|m ms IH]; [done|].
  rewrite fmap_cons. cbn [flat_map merge_cluster app]. by rewrite IH.
Qed.

Lemma merged_rows_apart (ms : list dict) : apart ms -> merged_rows ms = ms.
Proof.
  intros Hapart. unfold merged_rows, cluster_items.
  pose proof (cluster_loop_singletons ms [] Hapart) as H.
  cbn [fmap list_fmap app] in H. rewrite H. apply merge_singletons.
Qed.

Lemma merged_rows_idempotent (items : list dict) :
  merged_rows (merged_rows items) = merged_rows items.
Proof.
  destruct (merged_rows_spec items) as (reps & _ & _ & Hapart).
  by apply merged_rows_apart.
Qed.

(** *** Grouping rows that come in blocks, one block for each key *)

Section Blocks.

Context {K : Type} `{EqDecision K}.

Lemma first_appearances_twice (k : K) (l : list K) :
  first_appearances (k :: k :: l) = first_appearances (k :: l).
Proof.
  cbn [first_appearances]. rewrite filter_cons_False by (intros ?; done).
  f_equal. rewrite list_filter_filter. apply list_filter_iff. tauto.
Qed.

Lemma first_appearances_block (k : K) (block l : list K) :
  Forall (fun y => y = k) block -> k ∉ l ->
  first_appearances (k :: block ++ l) = k :: first_appearances l.
Proof.
  intros Hblock Hk. induction Hblock as [|y block -> Hb IH].
  - cbn [app first_appearances]. f_equal. apply filter_all.
    apply Forall_forall. intros y Hy Heq. subst y.
    apply Hk. by apply elem_of_first_appearances.
  - cbn [app]. by rewrite first_appearances_twice.
Qed.

Variable key_of : dict -> K.

Lemma blocks_other_key (k : K) (blocks : list (K * list dict)) :
  Forall (fun b => b.2 ≠ [] ∧ Forall (fun r => key_of r = b.1) b.2) blocks ->
  k ∉ blocks.*1 ->
  Forall (fun r => key_of r ≠ k) (flat_map snd blocks).
Proof.
  induction 1 as [|[k' block] blocks [_ Hb] _ IH]; intros Hk; simpl; [done|].
  rewrite fmap_cons, not_elem_of_cons in Hk. destruct Hk as [Hk Hks].
  apply Forall_app. split; [|by apply IH].
  simpl in *. eapply Forall_impl; [exact Hb|]. simpl. congruence.
Qed.

Lemma groups_by_blocks (blocks : list (K * list dict)) :
  NoDup blocks.*1 ->
  Forall (fun b => b.2 ≠ [] ∧ Forall (fun r => key_of r = b.1) b.2) blocks ->
  groups_by key_of (flat_map snd blocks) = blocks.
Proof.
  intros Hnd Hblocks. induction Hblocks as [|[k block] blocks [Hne Hb] Hrest IH].
  { done. }
  rewrite fmap_cons in Hnd. apply NoDup_cons in Hnd as [Hk Hnd].
  specialize (IH Hnd). simpl in Hne, Hb, Hk.
  pose proof (blocks_other_key k blocks Hrest Hk) as Hother.
  cbn [flat_map snd]. unfold groups_by in *.
  destruct block as [|r0 block]; [done|].
  apply Forall_cons in Hb as [Hr0 Hb].
  assert (first_appearances (key_of <$> (r0 :: block) ++ flat_map snd blocks)
          = k :: first_appearances (key_of <$> flat_map snd blocks)) as ->.
  { rewrite fmap_app, fmap_cons, Hr0. cbn [app].
    apply first_appearances_block.
    - apply Forall_fmap. eapply Forall_impl; [exact Hb | done].
    - intros (r & Hr1 & Hr2)%list_elem_of_fmap.
      rewrite Forall_forall in Hother. by apply (Hother r). }
  rewrite fmap_cons. f_equal.
  - f_equal. rewrite filter_app.
    rewrite (filter_all _ (r0 :: block)) by (by constructor).
    rewrite filter_none; [by rewrite app_nil_r|].
    eapply Forall_impl; [exact Hother | done].
  - rewrite <- IH at 2. apply list_fmap_ext. intros i k' Hk'. f_equal.
    rewrite filter_app. rewrite filter_none; [done|].
    assert (k' ≠ k) as Hne'.
    { intros ->. apply list_elem_of_lookup_2, elem_of_first_appearances,
        list_elem_of_fmap in Hk' as (r & Hr1 & Hr2).
      rewrite Forall_forall in Hother. by apply (Hother r). }
    constructor; [congruence|]. eapply Forall_impl; [exact Hb|]. simpl. congruence.
Qed.

End Blocks.

(** *** The whole function *)

Lemma flat_map_fmap {A B C : Type} (f : B -> list C) (g : A -> B) (l : list A) :
  flat_map f (g <$> l) = flat_map (fun x => f (g x)) l.
Proof.
  induction l as [|x l IH]; [done|].
  rewrite fmap_cons. cbn [flat_map]. by rewrite IH.
Qed.

Lemma deduplicate_merged_rows (rows : list dict) :
  deduplicate_sicu_incidents rows
  = flat_map (fun g => merged_rows g.2) (groups_by group_key rows).
Proof. unfold deduplicate_sicu_incidents. by rewrite group_rows_groups. Qed.

Lemma groups_by_keys {K : Type} `{EqDecision K} (key_of : dict -> K)
    (rows : list dict) :
  (groups_by key_of rows).*1 = first_appearances (key_of <$> rows).
Proof.
  unfold groups_by. rewrite <- list_fmap_compose.
  rewrite <- (list_fmap_id (first_appearances (key_of <$> rows))) at 2.
  by apply list_fmap_ext.
Qed.

Lemma groups_by_group {K : Type} `{EqDecision K} (key_of : dict -> K)
    (rows : list dict) :
  Forall (fun g => g.2 ≠ [] ∧ Forall (fun r => key_of r = g.1) g.2)
    (groups_by key_of rows).
Proof.
  unfold groups_by. apply Forall_fmap, Forall_forall. intros k Hk. simpl.
  apply elem_of_first_appearances, list_elem_of_fmap in Hk as (r & -> & Hr).
  split.
  - intros Hnil. eapply (filter_nil_not_elem_of _ rows r); done.
  - apply Forall_forall. by intros r' [? _]%list_elem_of_filter.
Qed.

(** C2.  De-duplicating the result of a de-duplication gives that
    result again. *)
Theorem deduplicate_idempotent (rows : list dict) :
  deduplicate_sicu_incidents (deduplicate_sicu_incidents rows)
  = deduplicate_sicu_incidents rows.
Proof.
  rewrite (deduplicate_merged_rows (deduplicate_sicu_incidents rows)).
  rewrite (deduplicate_merged_rows rows).
  set (groups := groups_by group_key rows).
  set (blocks := (fun g => (g.1, merged_rows g.2)) <$> groups).
  assert (flat_map (fun g => merged_rows g.2) groups = flat_map snd blocks) as ->.
  { unfold blocks. by rewrite flat_map_fmap. }
  rewrite (groups_by_blocks group_key blocks).
  - unfold blocks. rewrite !flat_map_fmap. simpl.
    apply flat_map_ext. intros g. apply merged_rows_idempotent.
  - unfold blocks. rewrite <- list_fmap_compose.
    replace ((fun g : (string * string * string * string) * list dict => g.1))
      with (@fst (string * string * string * string) (list dict)) by done.
    change (NoDup groups.*1). unfold groups. rewrite groups_by_keys.
    apply NoDup_first_appearances.
  - unfold blocks. apply Forall_fmap.
    eapply Forall_impl; [apply groups_by_group|].
    intros [k items] [Hne Hkey]. simpl in *. split.
    + by apply merged_rows_not_nil.
    + by apply merged_rows_key.
Qed.

(** The loops of the de-duplicator, told without loops: the groups by
    the key of the code, and in each group the rows assigned, one after
    the other, to the first cluster whose representative passes the
    test of the code. *)
Lemma deduplicate_assignment (rows items : list dict) :
  group_rows rows = groups_by group_key rows
  ∧ cluster_items items = foldl assign [] items
  ∧ deduplicate_sicu_incidents rows = deduplicate_by group_key rows.
Proof.
  split; [apply group_rows_groups|]. split; [apply cluster_items_assign|].
  rewrite deduplicate_merged_rows. apply flat_map_ext. intros g.
  unfold merged_rows. by rewrite cluster_items_assign.
Qed.

(** *** The times that parse as HH:MM *)

Lemma digit_value_digits (c : ascii) (a : Z) :
  digit_value c = Some a -> In c digits.
Proof.
  destruct c as [[] [] [] [] [] [] [] []]; vm_compute; intros H;
    try discriminate H;
    repeat first [left; reflexivity | right].
Qed.

Lemma all_hhmm_agree :
  forallb
    (fun h1 =>
       forallb
         (fun h2 =>
            forallb
              (fun m1 =>
                 forallb
                   (fun m2 =>
                      hhmm_agree
                        (String h1
                           (String h2
                              (String ":" (String m1 (String m2 EmptyString))))))
                   digits)
              digits)
         digits)
    digits
  = true.
Proof. by vm_compute. Qed.

(** A time that parses as HH:MM is read by the code, as the same
    number of minutes. *)
Lemma parse_time_hhmm (hora : string) (t : Z) :
  hhmm_minutes hora = Some t -> _parse_time_to_minutes hora = Some t.
Proof.
  intros Ht.
  assert (∃ h1 h2 m1 m2,
            hora = String h1 (String h2
                     (String ":" (String m1 (String m2 EmptyString))))
            ∧ In h1 digits ∧ In h2 digits ∧ In m1 digits ∧ In m2 digits)
    as (h1 & h2 & m1 & m2 & -> & H1 & H2 & H3 & H4).
  { unfold hhmm_minutes in Ht.
    destruct hora as [|h1 [|h2 [|c [|m1 [|m2 [|? ?]]]]]]; try done.
    destruct (Ascii.eqb c ":") eqn:Hc; [|done].
    apply Ascii.eqb_eq in Hc as ->.
    destruct (digit_value h1) as [a|] eqn:E1; [|done].
    destruct (digit_value h2) as [b|] eqn:E2; [|done].
    destruct (digit_value m1) as [x|] eqn:E3; [|done].
    destruct (digit_value m2) as [y|] eqn:E4; [|done].
    exists h1, h2, m1, m2.
    split_and!; [done | by eapply digit_value_digits..]. }
  pose proof all_hhmm_agree as Hall.
  rewrite forallb_forall in Hall. specialize (Hall h1 H1).
  rewrite forallb_forall in Hall. specialize (Hall h2 H2).
  rewrite forallb_forall in Hall. specialize (Hall m1 H3).
  rewrite forallb_forall in Hall. specialize (Hall m2 H4).
  unfold hhmm_agree in Hall. rewrite Ht in Hall.
  destruct (_parse_time_to_minutes _) as [t'|]; [|done].
  apply Z.eqb_eq in Hall. by subst.
Qed.

Lemma documented_parse (r : dict) :
  documented_hora r ->
  _parse_time_to_minutes (get_or_empty r "hora")
  = hhmm_minutes (get_or_empty r "hora").
Proof.
  intros [[t Ht] | Hnone].
  - rewrite Ht. by apply parse_time_hhmm.
  - destruct (hhmm_minutes (get_or_empty r "hora")) as [t|] eqn:Ht; [|done].
    apply parse_time_hhmm in Ht. congruence.
Qed.

Lemma qualifies_documented (row rep : dict) :
  documented_hora row -> documented_hora rep ->
  qualifies row rep <-> qualifies_hhmm row rep.
Proof.
  intros Hrow Hrep. unfold qualifies, qualifies_hhmm.
  by rewrite (documented_parse row Hrow), (documented_parse rep Hrep).
Qed.

Lemma place_row_assign_hhmm (row : dict) (clusters : list (list dict)) :
  documented_hora row -> Forall (Forall documented_hora) clusters ->
  place_row row clusters = assign_hhmm clusters row.
Proof.
  intros Hrow. unfold assign_hhmm.
  induction 1 as [|cluster rest Hcluster Hrest IH]; [done|].
  cbn [place_row list_find].
  destruct (decide (qualifying_cluster_hhmm row cluster)) as [Hq | Hq].
  - unfold qualifying_cluster_hhmm in Hq.
    destruct cluster as [|rep tl]; [done|]. simpl in Hq.
    apply Forall_cons in Hcluster as [Hdoc _].
    apply qualifies_documented, same_incident_qualifies in Hq; [|done..].
    by rewrite Hq.
  - assert (match cluster with
            | rep :: _ =>
                if same_incident row rep then (cluster ++ [row]) :: rest
                else cluster :: place_row row rest
            | [] => cluster :: place_row row rest
            end = cluster :: place_row row rest) as ->.
    { destruct cluster as [|rep tl]; [done|].
      unfold qualifying_cluster_hhmm in Hq. simpl in Hq.
      apply Forall_cons in Hcluster as [Hdoc _].
      destruct (same_incident row rep) eqn:Hs; [|done].
      exfalso. apply Hq. apply qualifies_documented; [done..|].
      by apply same_incident_qualifies. }
    rewrite IH.
    destruct (list_find (qualifying_cluster_hhmm row) rest) as [[i c]|]; done.
Qed.

Lemma cluster_items_assign_hhmm (items : list dict) :
  Forall documented_hora items ->
  cluster_items items = foldl assign_hhmm [] items.
Proof.
  unfold cluster_items.
  assert (Forall (Forall documented_hora) (@nil (list dict))) as Hacc
    by constructor.
  revert Hacc. generalize (@nil (list dict)) as acc.
  induction items as [|row items IH]; intros acc Hacc Hitems; [done|].
  apply Forall_cons in Hitems as [Hrow Hitems]. simpl.
  rewrite <- place_row_assign_hhmm by done.
  apply IH; [|done]. by apply place_row_Forall.
Qed.

Lemma flat_map_ext_elem {A B : Type} (f g : A -> list B) (l : list A) :
  (∀ x, x ∈ l -> f x = g x) -> flat_map f l = flat_map g l.
Proof.
  induction l as [|x l IH]; intros Hfg; [done|]. cbn [flat_map].
  rewrite (Hfg x) by apply list_elem_of_here.
  rewrite IH; [done|]. intros y Hy. apply Hfg. by apply list_elem_of_further.
Qed.

(** C1, as amended.  The rows are grouped by the key (pais,
    categoria_sicu, fecha, localizacion), each trimmed, and lower-cased
    except fecha, which is compared as it is written; the groups come in
    the order in which their keys first appear and keep the order of the
    rows.  Within a group each row, in that order, joins the first
    cluster, in the order of creation, whose representative (its first
    row) has a description at least 0.75 similar and a time at most 120
    minutes away when both times parse as HH:MM, a time that does not
    parse leaving the similarity to decide; a row that no cluster takes
    starts a new cluster.  This is proved of the rows whose time the
    code reads as documented: the other times are left out. *)
Theorem deduplicate_assignment_hhmm (rows items : list dict) :
  Forall documented_hora rows -> Forall documented_hora items ->
  group_rows rows = groups_by amended_group_key rows
  ∧ cluster_items items = foldl assign_hhmm [] items
  ∧ deduplicate_sicu_incidents rows = deduplicate_hhmm amended_group_key rows.
Proof.
  intros Hrows Hitems.
  split; [apply group_rows_groups|].
  split; [by apply cluster_items_assign_hhmm|].
  rewrite deduplicate_merged_rows.
  change (groups_by amended_group_key rows) with (groups_by group_key rows).
  unfold deduplicate_hhmm. apply flat_map_ext_elem. intros g Hg.
  unfold merged_rows. rewrite cluster_items_assign_hhmm; [done|].
  unfold groups_by in Hg. apply list_elem_of_fmap in Hg as (k & -> & _).
  cbn [snd]. apply Forall_forall. intros r [_ Hr]%list_elem_of_filter.
  by eapply Forall_forall in Hrows.
Qed.

(** The theorem on two reports an hour and a half apart: they are one
    incident. *)
Lemma deduplicate_assignment_hhmm_witness :
  (group_rows [row_1400; row_1530]
   = groups_by amended_group_key [row_1400; row_1530]
   ∧ cluster_items [row_1400; row_1530]
     = foldl assign_hhmm [] [row_1400; row_1530]
   ∧ deduplicate_sicu_incidents [row_1400; row_1530]
     = deduplicate_hhmm amended_group_key [row_1400; row_1530])
  ∧ foldl assign_hhmm [] [row_1400; row_1530] = [[row_1400; row_1530]].
Proof.
  split; [|by vm_compute].
  apply (deduplicate_assignment_hhmm [row_1400; row_1530]
           [row_1400; row_1530]);
    (apply Forall_cons; split; [left; by eexists|];
     apply Forall_singleton; left; by eexists).
Defined.

(** C1, the counterexample.  Two rows whose dates differ in case only
    have the same key when all four fields are lower-cased, and the
    second qualifies for the cluster of the first; the code leaves them
    in two groups and returns both, where one merged row is specified. *)
Lemma fecha_is_compared_case_sensitively :
  lowercased_group_key row_ENE = lowercased_group_key row_ene
  ∧ qualifies_hhmm row_ene row_ENE
  ∧ deduplicate_sicu_incidents [row_ENE; row_ene] = [row_ENE; row_ene]
  ∧ length (deduplicate_hhmm lowercased_group_key [row_ENE; row_ene]) = 1%nat.
Proof.
  split; [reflexivity|]. split; [|split; [reflexivity | by vm_compute]].
  apply qualifies_documented; [left; by eexists..|].
  apply same_incident_qualifies. by vm_compute.
Qed.

(** ** The location resolver *)

(** *** The list of queries *)

Lemma add_with_country_fold (country : option string) (x : string)
    (qs : list string * gset string) :
  add_with_country country x qs
  = foldl (fun qs y => _add y qs) qs (with_country country x).
Proof.
  unfold add_with_country, with_country.
  destruct country as [c|]; [|done]. by destruct (Py.truthy c).
Qed.

(** The closure [_add] keeps in [seen] the lower-cased queries. *)
Lemma add_fold (candidates : list string) (queries : list string) :
  foldl (fun qs y => _add y qs)
    (queries, list_to_set (Py.lower <$> queries)) candidates
  = (queries ++ kept_queries (Py.lower <$> queries) candidates,
     list_to_set
       (Py.lower <$> queries ++ kept_queries (Py.lower <$> queries) candidates)).
Proof.
  revert queries. induction candidates as [|x candidates IH]; intros queries.
  - unfold kept_queries. simpl. by rewrite app_nil_r.
  - cbn [foldl]. unfold kept_queries. rewrite fmap_cons. cbn [List.filter].
    unfold _add at 2. cbn [fst snd].
    destruct (Py.truthy (Py.strip_chars ", " x)) eqn:Hx; cbn [negb].
    + cbn [dedup_lower].
      destruct (decide (Py.lower (Py.strip_chars ", " x)
                        ∈ (list_to_set (Py.lower <$> queries) : gset string)))
        as [Hin | Hin].
      * rewrite decide_True by (by apply elem_of_list_to_set in Hin).
        apply IH.
      * rewrite decide_False by (by rewrite elem_of_list_to_set in Hin).
        replace ({[Py.lower (Py.strip_chars ", " x)]}
                 ∪ list_to_set (Py.lower <$> queries) : gset string)
          with (list_to_set (Py.lower <$> queries ++ [Py.strip_chars ", " x])
                : gset string).
        { rewrite IH. unfold kept_queries.
          by rewrite fmap_app, <- !app_assoc. }
        rewrite fmap_app, list_to_set_app_L. simpl.
        rewrite (right_id_L ∅ (∪)). apply (comm_L (∪)).
    + apply IH.
Qed.

Lemma foldl_flat_map {A B C : Type} (f : A -> C -> A) (g : B -> list C)
    (a : A) (l : list B) :
  foldl (fun a x => foldl f a (g x)) a l = foldl f a (flat_map g l).
Proof.
  revert a. induction l as [|x l IH]; intros a; simpl; [done|].
  by rewrite foldl_app, IH.
Qed.

Lemma build_queries_in_order (place : string) (country : option string) :
  _build_queries place country = queries_in_order place country.
Proof.
  unfold _build_queries, queries_in_order, query_candidates.
  set (base := _sanitize_place place).
  set (qs0 := ([], ∅) : list string * gset string).
  assert ((if Py.truthy base then add_with_country country base qs0 else qs0)
          = foldl (fun qs y => _add y qs) qs0
              (if Py.truthy base then with_country country base else [])) as ->.
  { destruct (Py.truthy base); [apply add_with_country_fold | done]. }
  assert (∀ qs l,
    foldl (fun qs extra => add_with_country country extra qs) qs l
    = foldl (fun qs y => _add y qs) qs (flat_map (with_country country) l)) as ->.
  { intros qs l. rewrite <- foldl_flat_map. revert qs.
    induction l as [|x l IH]; intros qs; simpl; [done|].
    by rewrite add_with_country_fold, IH. }
  rewrite <- foldl_app.
  pose proof (add_fold
    ((if Py.truthy base then with_country country base else [])
     ++ flat_map (with_country country) (_iter_alt_tokens place)) []) as H.
  cbn [fmap list_fmap app list_to_set foldr] in H. fold qs0 in H. rewrite H.
  cbn [fst snd].
  destruct (kept_queries [] _) as [|q qs] eqn:Hk; [|done].
  destruct country as [c|]; [|done].
  destruct (Py.truthy c); [|done].
  pose proof (add_fold [c] []) as Hc.
  cbn [fmap list_fmap app list_to_set foldr foldl] in Hc.
  cbn [fmap list_fmap app list_to_set foldr]. by rewrite Hc.
Qed.

(** C9, as amended.  On a cache miss the queries are, in order: the
    sanitized place, then it with the country, then for each sub-token
    (the texts in parentheses, the text before the first comma and the
    whole text after the first comma, the texts between slashes) the
    token and the token with the country; the commas and spaces at the
    ends of each are removed, the empty ones dropped and, of those equal
    in lower case, the first kept; the country alone is tried when
    nothing else is left.  For "Ain Zara, Tripoli, Libya" in Libya the
    segment "Ain Zara" is third, before "Tripoli, Libya"; no query is
    "Tripoli" alone. *)
Theorem build_queries_order (place : string) (country : option string) :
  _build_queries place country = queries_in_order place country
  ∧ _iter_alt_tokens "Ain Zara, Tripoli, Libya" = ["Ain Zara"; "Tripoli, Libya"]
  ∧ _build_queries "Ain Zara, Tripoli, Libya" (_canonical_country (Some "Libia"))
    = [ "Ain Zara, Tripoli, Libya"; "Ain Zara, Tripoli, Libya, Libya";
        "Ain Zara"; "Ain Zara, Libya"; "Tripoli, Libya";
        "Tripoli, Libya, Libya" ].
Proof.
  split; [apply build_queries_in_order|]. split; by vm_compute.
Qed.

(** C9, the counterexample.  "Tripoli", the second of the three comma
    segments, is not among the queries, with a country or without. *)
Lemma tripoli_segment_never_tried :
  ("Tripoli" ∉ _build_queries "Ain Zara, Tripoli, Libya"
                 (_canonical_country (Some "Libia")))
  ∧ ("Tripoli" ∉ _build_queries "Ain Zara, Tripoli, Libya" None).
Proof.
  split.
  - replace (_build_queries "Ain Zara, Tripoli, Libya"
               (_canonical_country (Some "Libia")))
      with [ "Ain Zara, Tripoli, Libya"; "Ain Zara, Tripoli, Libya, Libya";
             "Ain Zara"; "Ain Zara, Libya"; "Tripoli, Libya";
             "Tripoli, Libya, Libya" ] by (by vm_compute).
    not_among.
  - replace (_build_queries "Ain Zara, Tripoli, Libya" None)
      with [ "Ain Zara, Tripoli, Libya"; "Ain Zara"; "Tripoli, Libya" ]
      by (by vm_compute).
    not_among.
Qed.

(** *** The cache and the online geocoder *)

Section ResolverProperties.

Context {float : Type} {floats : Floats float} {World : Type}.

Variable _nominatim_search :
  string -> World -> search_outcome (@nominatim_item float) * World.

Lemma query_loop_caches (key : string) (canonical_country : option string)
    (queries : list string) (st st' : @state float World)
    (r : @geocode_result float) :
  query_loop _nominatim_search key canonical_country queries st = (Some r, st') ->
  ∃ lat lon admin1 admin2 accuracy,
    r = (Some lat, Some lon, admin1, admin2, accuracy, "nominatim")
    ∧ geocache st' !! key
      = Some (CacheEntry (sql_real (Some lat)) (sql_real (Some lon))
                canonical_country admin1 admin2 accuracy "nominatim").
Proof.
  revert st. induction queries as [|query rest IH]; intros st; [done|].
  cbn [query_loop]. unfold search.
  destruct (_nominatim_search query (world (log (Sleep 1050) st)))
    as [out w] eqn:Hout.
  destruct out as [code | | | item].
  - destruct ((code =? 429) || (code =? 503)); [apply IH | done].
  - apply IH.
  - apply IH.
  - destruct (item_lat item) as [lat|]; [|apply IH].
    destruct (item_lon item) as [lon|]; [|apply IH].
    intros [= <- <-]. eexists _, _, _, _, _. split; [done|].
    unfold geocache_put. cbn [geocache]. apply lookup_insert_eq.
Qed.

(** The cache gives back the numbers it was given.  When a call of
    [geocode_place] succeeds with coordinates that SQLite stores as
    they are, a later call with
    the same place and country, in any state whose cache is the one the
    first call left, returns the same coordinates and administrative
    fields with the source "cache", and leaves that state as it is: it
    sleeps for no request and makes none, whatever the online geocoder
    would have answered. *)
Lemma geocode_place_idempotent
    (later_search : string -> World -> search_outcome (@nominatim_item float) * World)
    (place : string) (country : option string) (st st' later : @state float World)
    (lat lon : option float) (admin1 admin2 accuracy : option string)
    (source : string) :
  geocode_place _nominatim_search place country st
  = (Some (lat, lon, admin1, admin2, accuracy, source), st') ->
  sql_real lat = lat -> sql_real lon = lon ->
  geocache later = geocache st' ->
  geocode_place later_search place country later
  = (Some (lat, lon, admin1, admin2, accuracy, "cache"), later).
Proof.
  unfold geocode_place, geocache_get. intros Hfirst Hlat Hlon Hcache.
  destruct (negb (Py.truthy place) || negb (Py.truthy (Py.strip place)));
    [done|].
  set (key := _cache_key place (_canonical_country country)) in *.
  rewrite Hcache.
  destruct (geocache st !! key) as [e|] eqn:Hkey; cbn [fmap option_fmap option_map] in Hfirst.
  - injection Hfirst as <- <- <- <- <- <- <-. by rewrite Hkey.
  - cbn [USE_ONLINE_GEOCODER negb] in Hfirst.
    destruct (_build_queries place (_canonical_country country))
      as [|q qs] eqn:Hq; [done|].
    apply query_loop_caches in Hfirst
      as (lat' & lon' & a1 & a2 & acc & [= -> -> -> -> -> ->] & Hput).
    rewrite Hput. cbn [fmap option_fmap option_map gc_lat gc_lon gc_country
                      gc_admin1 gc_admin2 gc_accuracy].
    by rewrite Hlat, Hlon.
Qed.

(** C4, as amended.  After the request for a query, preceded by its
    wait of 1.05 s: an HTTP error 429 or 503 is followed by a wait of
    5 s and the next query; an HTTP error with another status ends the
    resolution with no result, whatever queries are left; any other
    exception, like an empty result, is followed by the next query at
    once. *)
Theorem query_loop_errors (key : string) (canonical_country : option string)
    (query : string) (rest : list string) (st : @state float World)
    (out : search_outcome (@nominatim_item float)) (w : World) :
  _nominatim_search query (world st) = (out, w) ->
  let requested :=
    State (incidentes st) (geocache st) w
      (trace st ++ [Sleep 1050; Search query]) in
  match out with
  | HTTPError code =>
      if bool_decide (code = 429 ∨ code = 503)
      then query_loop _nominatim_search key canonical_country (query :: rest) st
           = query_loop _nominatim_search key canonical_country rest
               (log (Sleep 5000) requested)
      else query_loop _nominatim_search key canonical_country (query :: rest) st
           = (None, requested)
  | OtherError | NoResult =>
      query_loop _nominatim_search key canonical_country (query :: rest) st
      = query_loop _nominatim_search key canonical_country rest requested
  | Found _ => True
  end.
Proof.
  intros Hout. cbn [query_loop]. unfold search, log. cbn [world incidentes geocache trace].
  rewrite Hout. rewrite <- app_assoc. cbn [app].
  destruct out as [code | | | item]; [|done..].
  case_bool_decide as Hcode.
  - by destruct Hcode as [-> | ->].
  - destruct (code =? 429) eqn:H1; [apply Z.eqb_eq in H1; tauto|].
    destruct (code =? 503) eqn:H2; [apply Z.eqb_eq in H2; tauto|]. done.
Qed.

End ResolverProperties.

(** The theorem on a resolution of "Ain Zara, Tripoli, Libya" that
    succeeds at the third query. *)
Lemma geocode_place_idempotent_witness :
  first_resolution.1
  = Some (Some (328872 # 10000)%Q, Some (131913 # 10000)%Q, Some "Tripoli",
          Some "Tripoli", Some "city", "nominatim")
  ∧ geocode_place scripted "Ain Zara, Tripoli, Libya" (Some "Libia")
      first_resolution.2
    = (Some (Some (328872 # 10000)%Q, Some (131913 # 10000)%Q,
             Some "Tripoli", Some "Tripoli", Some "city", "cache"),
       first_resolution.2).
Proof.
  split; [by vm_compute|].
  apply (geocode_place_idempotent scripted scripted
           "Ain Zara, Tripoli, Libya" (Some "Libia")
           (fresh [NoResult; HTTPError 429; Found tripoli_item])
           first_resolution.2 first_resolution.2
           (Some (328872 # 10000)%Q) (Some (131913 # 10000)%Q)
           (Some "Tripoli") (Some "Tripoli") (Some "city") "nominatim");
    [by vm_compute | reflexivity | reflexivity | reflexivity].
Defined.

(** C3.  A latitude that is not a number is lost in the cache.  Nominatim
    answers the request for Tripoli with the latitude "nan", which
    [float] reads: the first call returns it, SQLite stores [NULL] for
    it, and the second call returns [None] as the latitude, with the
    source "cache". *)
Lemma nan_is_cached_as_null :
  nan_resolution.1
  = Some (Some NaN, Some (Number (131913 # 10000)), None, None, Some "city",
          "nominatim")
  ∧ trace nan_resolution.2 = [Sleep 1050; Search "Tripoli"]
  ∧ geocode_place scripted "Tripoli" (Some "Libia") nan_resolution.2
    = (Some (None, Some (Number (131913 # 10000)), None, None, Some "city",
             "cache"),
       nan_resolution.2).
Proof. split_and!; by vm_compute. Qed.

(** The theorem on a request that the geocoder refuses with the status
    429. *)
Lemma query_loop_errors_witness :
  query_loop scripted "k" (Some "Libya") ["Ain Zara"; "Tripoli, Libya"]
    (fresh [HTTPError 429; Found tripoli_item])
  = query_loop scripted "k" (Some "Libya") ["Tripoli, Libya"]
      (State [] ∅ [Found tripoli_item]
         [Sleep 1050; Search "Ain Zara"; Sleep 5000]).
Proof.
  exact (query_loop_errors scripted "k" (Some "Libya") "Ain Zara"
           ["Tripoli, Libya"] (fresh [HTTPError 429; Found tripoli_item])
           (HTTPError 429) [Found tripoli_item] eq_refl).
Defined.

(** C4, the counterexample.  The first request fails with an exception
    that is no HTTP error, a refused connection for one; the resolution
    goes on with the second query and succeeds. *)
Lemma transport_error_does_not_abort :
  let run :=
    geocode_place scripted "Ain Zara, Tripoli, Libya" (Some "Libia")
      (fresh [OtherError; Found tripoli_item]) in
  run.1
  = Some (Some (328872 # 10000)%Q, Some (131913 # 10000)%Q, Some "Tripoli",
          Some "Tripoli", Some "city", "nominatim")
  ∧ trace run.2
    = [ Sleep 1050; Search "Ain Zara, Tripoli, Libya";
        Sleep 1050; Search "Ain Zara, Tripoli, Libya, Libya" ].
Proof. split; by vm_compute. Qed.

(** ** The ledger and the registrar *)

Section RegistrarProperties.

Context {float : Type} {floats : Floats float} {World : Type}.

Variable _nominatim_search :
  string -> World -> search_outcome (@nominatim_item float) * World.

(** The resolver writes no row and changes the identity of none. *)

Lemma query_loop_incidentes (key : string) (canonical_country : option string)
    (queries : list string) (st : @state float World) :
  incidentes (query_loop _nominatim_search key canonical_country queries st).2
  = incidentes st.
Proof.
  revert st. induction queries as [|query rest IH]; intros st; [done|].
  cbn [query_loop]. unfold search.
  destruct (_nominatim_search query (world (log (Sleep 1050) st)))
    as [out w] eqn:Hout.
  destruct out as [code | | | item].
  - destruct ((code =? 429) || (code =? 503)); [by rewrite IH | done].
  - by rewrite IH.
  - by rewrite IH.
  - destruct (item_lat item) as [lat|]; [|by rewrite IH].
    destruct (item_lon item) as [lon|]; [|by rewrite IH]. done.
Qed.

Lemma geocode_place_incidentes (place : string) (country : option string)
    (st : @state float World) :
  incidentes (geocode_place _nominatim_search place country st).2
  = incidentes st.
Proof.
  unfold geocode_place.
  destruct (negb (Py.truthy place) || negb (Py.truthy (Py.strip place)));
    [done|].
  destruct (geocache_get _ st) as [[[[[[lat lon] c] a1] a2] acc]|]; [done|].
  destruct (negb USE_ONLINE_GEOCODER); [done|].
  destruct (_build_queries place (_canonical_country country)); [done|].
  apply query_loop_incidentes.
Qed.

Lemma update_incidente_geocode_identities (incidente_id : Z) (lat lon : option float)
    (admin1 admin2 accuracy : option string) (source : string)
    (st : @state float World) :
  identities
    (update_incidente_geocode incidente_id lat lon admin1 admin2 accuracy
       source st)
  = identities st.
Proof.
  unfold identities, update_incidente_geocode. cbn [incidentes].
  change (List.map ?f ?l) with (f <$> l).
  rewrite <- list_fmap_compose. apply list_fmap_ext. intros i row _. simpl.
  by destruct (inc_id row =? incidente_id).
Qed.

Lemma resolve_loop_identities (hint : option string)
    (pendientes : list (@incidente float)) (count : Z)
    (st : @state float World) :
  identities (resolve_loop _nominatim_search hint pendientes count st).2
  = identities st.
Proof.
  revert count st. induction pendientes as [|inc rest IH]; intros count st;
    [done|].
  cbn [resolve_loop].
  destruct (inc_place inc) as [place|]; [|apply IH].
  destruct (negb (Py.truthy place)); [apply IH|].
  pose proof (geocode_place_incidentes place
                (Py.or_opt (Some (inc_pais inc)) hint) st) as Hgeo.
  destruct (geocode_place _nominatim_search place
              (Py.or_opt (Some (inc_pais inc)) hint) st)
    as [[[[[[[lat lon] a1] a2] acc] src]|] st1]; cbn [snd] in Hgeo.
  - rewrite IH, update_incidente_geocode_identities.
    unfold identities. by rewrite Hgeo.
  - rewrite IH. unfold identities. by rewrite Hgeo.
Qed.

Lemma resolve_missing_coords_identities (hint : option string)
    (st : @state float World) :
  identities (resolve_missing_coords _nominatim_search hint st).2
  = identities st.
Proof. apply resolve_loop_identities. Qed.

(** The loop of the registrar: it appends rows, as many as it counts,
    each with a description, and passes over the candidates without
    one. *)

Lemma registrar_loop_spec (pais : string) (incs : list (@candidate float))
    (n : Z) (st : @state float World) :
  ∃ added,
    identities (registrar_loop pais incs n st).2 = identities st ++ added
    ∧ (registrar_loop pais incs n st).1 = n + Z.of_nat (length added)
    ∧ Forall (fun i => i.1.2 ≠ EmptyString) added.
Proof.
  revert n st. induction incs as [|inc rest IH]; intros n st.
  - exists []. simpl. rewrite app_nil_r. repeat split; [lia | done].
  - cbn [registrar_loop].
    destruct (negb (Py.truthy (Py.strip _))) eqn:Hd; [apply IH|].
    destruct (incidente_exists _ _ _ _ st); [apply IH|].
    unfold add_incidente.
    match goal with
    | |- context [registrar_loop pais rest (n + 1) ?s] =>
        destruct (IH (n + 1) s) as (added & Hid & Hn & Hdesc)
    end.
    eexists (_ :: added). rewrite Hid, Hn. unfold identities at 1.
    cbn [incidentes]. rewrite fmap_app. cbn [fmap list_fmap].
    rewrite <- app_assoc. cbn [app inc_pais inc_categoria inc_descripcion inc_place].
    split; [reflexivity|]. split; [cbn [length]; lia|].
    constructor; [|done]. cbn [fst snd].
    apply negb_false_iff in Hd. by apply truthy_true.
Qed.

Lemma registrar_loop_blank (pais : string) (incs : list (@candidate float))
    (n : Z) (st : @state float World) :
  registrar_loop pais
    (List.filter (fun inc => Py.truthy (candidate_descripcion inc)) incs) n st
  = registrar_loop pais incs n st.
Proof.
  revert n st. induction incs as [|inc rest IH]; intros n st; [done|].
  cbn [List.filter]. unfold candidate_descripcion at 1.
  destruct (Py.truthy (Py.strip _)) eqn:Hd.
  - cbn [registrar_loop]. rewrite Hd. cbn [negb].
    destruct (incidente_exists _ _ _ _ st); [apply IH|].
    unfold add_incidente. apply IH.
  - cbn [registrar_loop]. rewrite Hd. cbn [negb]. apply IH.
Qed.

(** C10.  The registrar passes over every candidate whose description
    is missing, empty or white space only: the batch without them gives
    the same count and the same database.  The count it returns is the
    number of rows by which the table has grown, and every row it has
    written has a description. *)
Theorem registrar_counts_insertions (pais : string)
    (incs : list (@candidate float)) (resolver_ahora : bool)
    (country_hint : option string) (st : @state float World) :
  let result :=
    registrar_incidentes_desde_lista _nominatim_search pais incs
      resolver_ahora country_hint st in
  registrar_incidentes_desde_lista _nominatim_search pais
    (List.filter (fun inc => Py.truthy (candidate_descripcion inc)) incs)
    resolver_ahora country_hint st
  = result
  ∧ Z.of_nat (length (incidentes result.2))
    = Z.of_nat (length (incidentes st)) + result.1
  ∧ take (length (incidentes st)) (identities result.2) = identities st
  ∧ Forall (fun i => i.1.2 ≠ EmptyString)
      (drop (length (incidentes st)) (identities result.2)).
Proof.
  cbn zeta. unfold registrar_incidentes_desde_lista.
  rewrite registrar_loop_blank.
  destruct (registrar_loop_spec pais incs 0 st) as (added & Hid & Hn & Hdesc).
  destruct (registrar_loop pais incs 0 st) as [n st1]. cbn [fst snd] in *.
  split; [done|].
  assert (identities
            (if resolver_ahora
             then (resolve_missing_coords _nominatim_search
                     (Py.or_opt country_hint (Some pais)) st1).2
             else st1)
          = identities st ++ added) as Hfinal.
  { destruct resolver_ahora; [|done].
    by rewrite resolve_missing_coords_identities. }
  assert (length (identities st) = length (incidentes st)) as Hlen
    by (unfold identities; by rewrite length_fmap).
  split; [|split].
  - apply (f_equal length) in Hfinal. unfold identities at 1 in Hfinal.
    rewrite length_fmap, length_app, Hlen in Hfinal. lia.
  - rewrite Hfinal, <- Hlen. by rewrite take_app_length.
  - rewrite Hfinal, <- Hlen. by rewrite drop_app_length.
Qed.

End RegistrarProperties.

(** C5: the code at the failing input.  The same candidate, whose place
    ends in a tab, registered twice, in one batch or in two, is written
    twice: Python's [strip] takes the tab off the place that is looked
    for, SQLite's [TRIM] leaves it on the place that is stored. *)
Lemma tab_place_is_registered_twice :
  let stored :=
    ("Libia", "Terrorismo", "Ataque con bomba en Tripoli",
     c_place tab_candidate) in
  let once :=
    registrar_incidentes_desde_lista scripted "Libia" [tab_candidate] true
      None (fresh []) in
  let twice :=
    registrar_incidentes_desde_lista scripted "Libia" [tab_candidate] true
      None once.2 in
  let batch :=
    registrar_incidentes_desde_lista scripted "Libia"
      [tab_candidate; tab_candidate] true None (fresh []) in
  once.1 = 1 ∧ twice.1 = 1
  ∧ identities twice.2 = [stored; stored]
  ∧ batch.1 = 2
  ∧ identities batch.2 = [stored; stored].
Proof. repeat split; by vm_compute. Qed.

(** ** The uniqueness of the ledger *)

Section Uniqueness.

Context {float : Type} {floats : Floats float} {World : Type}.

Variable _nominatim_search :
  string -> World -> search_outcome (@nominatim_item float) * World.

Lemma default_or_opt (x : option string) :
  default EmptyString (Py.or_opt x (Some EmptyString)) = default EmptyString x.
Proof.
  destruct x as [s|]; [|done]. simpl.
  destruct (Py.truthy s) eqn:Hs; [done|]. by apply truthy_false in Hs as ->.
Qed.

(** The existence check compares the normalized fields. *)
Lemma exists_where_normalized (pais categoria desc place_clean : string)
    (row : @incidente float) :
  exists_where pais categoria desc place_clean row = true
  <-> normalized (inc_pais row, inc_categoria row, inc_descripcion row,
                  inc_place row)
      = (sql_lower pais, categoria, desc, place_clean).
Proof.
  unfold exists_where, normalized. cbn [fst snd].
  rewrite !andb_true_iff, !String.eqb_eq.
  assert ((if Py.truthy place_clean
           then String.eqb (sql_trim (default EmptyString (inc_place row)))
                  place_clean
           else match inc_place row with
                | Some p => String.eqb (sql_trim p) EmptyString
                | None => true
                end) = true
          <-> sql_trim (default EmptyString (inc_place row)) = place_clean)
    as ->.
  { destruct (Py.truthy place_clean) eqn:Hp.
    - apply String.eqb_eq.
    - apply truthy_false in Hp as ->.
      destruct (inc_place row) as [p|]; simpl; [apply String.eqb_eq | done]. }
  split.
  - by intros [[[-> ->] ->] ->].
  - intros [= -> -> -> ->]. done.
Qed.

Lemma incidente_exists_normalized (pais categoria descripcion : string)
    (place : option string) (st : @state float World) :
  incidente_exists pais categoria descripcion place st = true
  <-> (sql_lower pais, categoria, Py.strip descripcion,
       Py.strip (default EmptyString place))
      ∈ normalized <$> identities st.
Proof.
  unfold incidente_exists, identities. rewrite default_or_opt.
  rewrite existsb_exists, <- list_fmap_compose, list_elem_of_fmap.
  split.
  - intros (row & Hin & Hrow). exists row. split.
    + symmetry. by apply exists_where_normalized.
    + by apply list_elem_of_In.
  - intros (row & Heq & Hin). exists row. split.
    + by apply list_elem_of_In.
    + apply exists_where_normalized. by rewrite Heq.
Qed.

Lemma registrar_loop_unique (pais : string) (incs : list (@candidate float))
    (n : Z) (st : @state float World) :
  unique_ledger st -> Forall plain_place incs ->
  unique_ledger (registrar_loop pais incs n st).2.
Proof.
  revert n st. induction incs as [|inc rest IH]; intros n st Hst Hplain;
    [done|].
  apply Forall_cons in Hplain as [Hinc Hrest]. cbn [registrar_loop].
  destruct (negb (Py.truthy (Py.strip _))); [by apply IH|].
  destruct (incidente_exists _ _ _ _ st) eqn:Hex; [by apply IH|].
  unfold add_incidente. apply IH; [|done].
  unfold unique_ledger, identities in *. cbn [incidentes].
  rewrite !fmap_app. cbn [fmap list_fmap].
  apply NoDup_app. split; [done|]. split; [|apply NoDup_singleton].
  intros i Hi Hnew. apply list_elem_of_singleton in Hnew as ->.
  apply not_true_iff_false in Hex. apply Hex.
  apply incidente_exists_normalized. unfold identities.
  unfold normalized in Hi. cbn [fst snd inc_pais inc_categoria
    inc_descripcion inc_place] in Hi.
  rewrite sql_trim_strip in Hi. rewrite strip_idempotent.
  unfold plain_place, candidate_place in Hinc. by rewrite <- Hinc.
Qed.

(** X16.  The invariant of the specification, where the code keeps it: when
    no two rows of the ledger are the same for the existence check, and
    no candidate has a place with white space other than spaces at its
    ends, no two rows are the same after the batch. *)
Lemma registrar_keeps_unique (pais : string) (incs : list (@candidate float))
    (resolver_ahora : bool) (country_hint : option string)
    (st : @state float World) :
  unique_ledger st -> Forall plain_place incs ->
  unique_ledger
    (registrar_incidentes_desde_lista _nominatim_search pais incs
       resolver_ahora country_hint st).2.
Proof.
  intros Hst Hplain. unfold registrar_incidentes_desde_lista.
  pose proof (registrar_loop_unique pais incs 0 st Hst Hplain) as H.
  destruct (registrar_loop pais incs 0 st) as [n st1]. cbn [snd] in *.
  destruct resolver_ahora; [|done].
  unfold unique_ledger. by rewrite resolve_missing_coords_identities.
Qed.

End Uniqueness.

(* ================================================================== *)
(** * Part III: more of the code                                      *)
(* ================================================================== *)

(** ** The similarity of two descriptions *)

Local Open Scope nat_scope.

Lemma new_row_fits (pop : N -> bool) (ai : N) (b : list N) (j2len : list nat)
    (n : nat) :
  lengths_fit n j2len -> lengths_fit (S n) (Difflib.new_row pop ai b j2len).
Proof.
  intros Hfit j k. unfold Difflib.new_row.
  intros (bj & before & -> & _ & Hbefore)%lookup_zip_with_Some.
  destruct (_ && _); [|lia].
  destruct j as [|j]; cbn in Hbefore.
  - injection Hbefore as <-. lia.
  - destruct (Hfit j before Hbefore). lia.
Qed.

Lemma new_row_length (pop : N -> bool) (ai : N) (b : list N)
    (j2len : list nat) :
  length (Difflib.new_row pop ai b j2len) <= length b.
Proof. unfold Difflib.new_row. rewrite length_zip_with. lia. Qed.

Lemma update_best_fits (i m : nat) (row : list nat) (j : nat)
    (best : Difflib.Match) :
  (∀ idx k, row !! idx = Some k -> k <= S i ∧ k <= S (j + idx)) ->
  j + length row <= m ->
  match_fits (S i) m best ->
  match_fits (S i) m (Difflib.update_best i j row best).
Proof.
  revert j best. induction row as [|k row IH]; intros j best Hrow Hlen Hbest;
    [done|].
  cbn [Difflib.update_best]. destruct best as [[bi bj] bk].
  cbn [length] in Hlen. apply IH.
  - intros idx k' Hk'. destruct (Hrow (S idx) k' Hk'). split; lia.
  - lia.
  - destruct (bk <? k) eqn:Hlt; [|done].
    destruct (Hrow 0 k eq_refl). cbn [match_fits]. split; lia.
Qed.

Lemma match_fits_mono (n n' m : nat) (best : Difflib.Match) :
  n <= n' -> match_fits n m best -> match_fits n' m best.
Proof. destruct best as [[i j] k]. cbn. lia. Qed.

Lemma main_loop_fits (pop : N -> bool) (a b : list N) (i : nat)
    (j2len : list nat) (best : Difflib.Match) :
  lengths_fit i j2len -> match_fits i (length b) best ->
  match_fits (i + length a) (length b)
    (Difflib.main_loop pop i a b j2len best).
Proof.
  revert i j2len best. induction a as [|ai a IH]; intros i j2len best Hfit Hbest.
  { cbn. by rewrite Nat.add_0_r. }
  cbn [Difflib.main_loop length]. rewrite Nat.add_succ_r, <- Nat.add_succ_l.
  apply IH.
  - by apply new_row_fits.
  - apply update_best_fits.
    + intros idx k Hk. by apply (new_row_fits pop ai b j2len i Hfit).
    + rewrite Nat.add_0_l. apply new_row_length.
    + apply (match_fits_mono i); [lia | done].
Qed.

Lemma extend_left_fits (fuel : nat) (a b : list N) (n m : nat)
    (best : Difflib.Match) :
  match_fits n m best -> match_fits n m (Difflib.extend_left fuel a b best).
Proof.
  revert best. induction fuel as [|fuel IH]; intros best Hbest; [done|].
  cbn [Difflib.extend_left]. destruct best as [[[|i] [|j]] k]; try done.
  destruct (Difflib.same_at a b i j); [|done].
  apply IH. cbn in *. lia.
Qed.

Lemma extend_right_fits (fuel : nat) (a b : list N) (best : Difflib.Match) :
  match_fits (length a) (length b) best ->
  match_fits (length a) (length b) (Difflib.extend_right fuel a b best).
Proof.
  revert best. induction fuel as [|fuel IH]; intros best Hbest; [done|].
  cbn [Difflib.extend_right]. destruct best as [[i j] k].
  destruct (Difflib.same_at a b (i + k) (j + k)) eqn:Hsame; [|done].
  apply IH. unfold Difflib.same_at in Hsame.
  destruct (a !! (i + k)) as [x|] eqn:Ha; [|done].
  destruct (b !! (j + k)) as [y|] eqn:Hb; [|done].
  apply lookup_lt_Some in Ha, Hb. cbn in *. lia.
Qed.

Lemma find_longest_match_fits (pop : N -> bool) (a b : list N) :
  match_fits (length a) (length b) (Difflib.find_longest_match pop a b).
Proof.
  unfold Difflib.find_longest_match.
  apply extend_right_fits, extend_left_fits.
  apply (main_loop_fits pop a b 0).
  - intros j k Hk. apply lookup_replicate in Hk as [-> _]. lia.
  - cbn. lia.
Qed.

(** The matching blocks lie side by side in both texts: together they
    are no longer than either. *)
Lemma matches_bound (fuel : nat) (pop : N -> bool) (a b : list N) :
  Difflib.matches fuel pop a b <= length a
  ∧ Difflib.matches fuel pop a b <= length b.
Proof.
  revert a b. induction fuel as [|fuel IH]; intros a b; [cbn; lia|].
  cbn [Difflib.matches].
  pose proof (find_longest_match_fits pop a b) as Hfit.
  destruct (Difflib.find_longest_match pop a b) as [[i j] k].
  cbn in Hfit. destruct k as [|k]; [lia|].
  destruct (IH (take i a) (take j b)) as [Hl1 Hl2].
  destruct (IH (drop (i + S k) a) (drop (j + S k) b)) as [Hr1 Hr2].
  rewrite length_take in Hl1, Hl2. rewrite length_drop in Hr1, Hr2. lia.
Qed.

Local Close Scope nat_scope.

Lemma ratio_range (a b : string) : (0 <= Difflib.ratio a b <= 1)%Q.
Proof.
  unfold Difflib.ratio.
  set (xs := Difflib.codepoints a). set (ys := Difflib.codepoints b).
  destruct (matches_bound (S (length xs)) (Difflib.popular ys) xs ys)
    as [Ha Hb].
  set (m := Difflib.matches _ _ _ _) in *. clearbody m.
  destruct (length xs + length ys)%nat as [|t] eqn:Ht; [done|].
  unfold Qle. cbn [Qnum Qden]. lia.
Qed.

(** X1.  The similarity of two descriptions is a ratio between 0 and 1, and
    it is 0 as soon as one of them is blank. *)
Theorem similarity_range (a b : string) :
  (0 <= _similarity a b <= 1)%Q
  ∧ (Py.strip a = EmptyString ∨ Py.strip b = EmptyString ->
     _similarity a b = 0%Q).
Proof.
  split.
  - unfold _similarity. destruct (_ || _); [done | apply ratio_range].
  - unfold _similarity. rewrite !or_empty. intros [-> | ->].
    + done.
    + change (Py.truthy (Py.lower "")) with false. cbn [negb].
      by rewrite orb_true_r.
Qed.

(** ** Times of day *)

(** A digit is no white space, and neither starts nor ends the encoding
    of a white space character. *)
Lemma digit_no_space (c : ascii) :
  is_digit c = true ->
  Py.space1 c = false
  ∧ (∀ b, Py.space2 c b = false) ∧ (∀ b, Py.space2 b c = false)
  ∧ (∀ a b, Py.space3 c a b = false) ∧ (∀ a b, Py.space3 a b c = false)
  ∧ c ≠ ":"%char ∧ c ≠ "+"%char ∧ c ≠ "-"%char.
Proof.
  unfold is_digit, Py.digit, Py.space1, Py.space2, Py.space3.
  intros Hd.
  assert (48 <= Py.ord c <= 57)%N as Hc.
  { destruct (48 <=? Py.ord c)%N eqn:H1; [|done].
    destruct (Py.ord c <=? 57)%N eqn:H2; [|done].
    apply N.leb_le in H1, H2. lia. }
  clear Hd.
  assert (∀ n, (n < 48 ∨ 57 < n)%N -> (Py.ord c =? n)%N = false) as Hne.
  { intros n Hn. apply N.eqb_neq. lia. }
  split_and!.
  - destruct (9 <=? Py.ord c)%N eqn:H1, (Py.ord c <=? 13)%N eqn:H2,
      (28 <=? Py.ord c)%N eqn:H3, (Py.ord c <=? 32)%N eqn:H4; try done;
      apply N.leb_le in H2 || apply N.leb_le in H4; lia.
  - intros b. by rewrite Hne by lia.
  - intros b. rewrite !Hne by lia. by rewrite andb_false_r.
  - intros a b. by rewrite !Hne by lia.
  - intros a b. rewrite !Hne by lia.
    destruct (128 <=? Py.ord c)%N eqn:H1;
      [apply N.leb_le in H1; lia|].
    cbn [andb orb]. by rewrite !andb_false_r.
  - intros ->. change (Py.ord ":") with 58%N in Hc. lia.
  - intros ->. change (Py.ord "+") with 43%N in Hc. lia.
  - intros ->. change (Py.ord "-") with 45%N in Hc. lia.
Qed.

(** A text that starts and ends with a digit is not changed by
    [strip]. *)
Lemma strip_digit_ends (c d : ascii) (s t : string) :
  is_digit c = true -> is_digit d = true ->
  String c s = t +:+ String d "" ->
  Py.strip (String c s) = String c s.
Proof.
  intros Hc Hd Heq.
  destruct (digit_no_space c Hc) as (Hc1 & Hc2 & _ & Hc3 & _).
  destruct (digit_no_space d Hd) as (Hd1 & _ & Hd2 & _ & Hd3 & _).
  unfold Py.strip, Py.lstrip.
  rewrite lstrip_gen_kept.
  - unfold Py.rstrip. rewrite lstrip_gen_kept; [apply rev_involutive|].
    rewrite Heq, rev_append. change (String.rev (String d "")) with (String d "").
    rewrite append_cons. cbn [head_kept]. rewrite Hd1.
    destruct (String.append "" (String.rev t)) as [|b [|b' r]]; cbn [negb andb];
      by rewrite ?Hd2, ?Hd3.
  - cbn [head_kept]. rewrite Hc1.
    destruct s as [|b [|b' r]]; cbn [negb andb]; by rewrite ?Hc2, ?Hc3.
Qed.

Lemma all_digits_app (s t : string) :
  all_digits (s +:+ t) = all_digits s && all_digits t.
Proof.
  induction s as [|c s IH]; [done|].
  rewrite append_cons. cbn [all_digits]. by rewrite IH, andb_assoc.
Qed.

(** A numeral ends with a digit. *)
Lemma numeral_last (s : string) :
  numeral s = true -> ∃ t d, s = t +:+ String d "" ∧ is_digit d = true.
Proof.
  unfold numeral. intros [Hne Hall]%andb_true_iff.
  induction s as [|c s IH]; [done|].
  cbn [all_digits] in Hall. apply andb_true_iff in Hall as [Hc Hs].
  destruct s as [|c' s'].
  - by exists "", c.
  - destruct (IH eq_refl Hs) as (t & d & -> & Hd).
    exists (String c t), d. by rewrite append_cons.
Qed.

Lemma numeral_first (s : string) :
  numeral s = true -> ∃ c r, s = String c r ∧ is_digit c = true.
Proof.
  unfold numeral. destruct s as [|c r]; [done|]. cbn [all_digits andb].
  intros [_ [Hc _]%andb_true_iff]%andb_true_iff. by exists c, r.
Qed.

(** A digit of ASCII is a decimal digit, of one byte. *)
Lemma decimal_digit (c : ascii) (d : Z) (r : string) :
  Py.digit c = Some d ->
  Py.decode_first (String c r) = Some (Py.ord c, 1%nat)
  ∧ Py.decimal (Py.ord c) = Some d.
Proof.
  unfold Py.digit. intros Hd.
  destruct (48 <=? Py.ord c)%N eqn:H1; [|done].
  destruct (Py.ord c <=? 57)%N eqn:H2; [|done].
  injection Hd as <-. apply N.leb_le in H1, H2. split.
  - cbn [Py.decode_first].
    destruct (Py.ord c <? 192)%N eqn:H3; [done|].
    apply N.ltb_ge in H3. lia.
  - unfold Py.decimal, Py.decimal_zeros. cbn [List.find].
    assert ((48 <=? Py.ord c)%N && (Py.ord c <? 48 + 10)%N = true) as ->.
    { apply andb_true_iff. split; [by apply N.leb_le | apply N.ltb_lt; lia]. }
    cbn [fmap option_fmap option_map]. f_equal. lia.
Qed.

(** [int] reads a numeral as the number it writes. *)
Lemma digits_go_numeral (s : string) (acc : Z) (count : nat) (after : bool) :
  all_digits s = true ->
  Py.digits_go acc count after 0 s
  = match s with
    | EmptyString => if after then Some (acc, count) else None
    | _ => Some (numeral_value_go acc s, (count + String.length s)%nat)
    end.
Proof.
  revert acc count after.
  induction s as [|c s IH]; intros acc count after Hall; [done|].
  cbn [all_digits] in Hall. apply andb_true_iff in Hall as [Hc Hs].
  cbn [Py.digits_go numeral_value_go]. unfold is_digit in Hc.
  destruct (Py.digit c) as [d|] eqn:Hd; [|done].
  destruct (decimal_digit c d s Hd) as [-> ->].
  change (1 - 1)%nat with 0%nat. rewrite IH by done.
  cbn [default String.length]. destruct s; [|f_equal; f_equal; lia].
  cbn [numeral_value_go String.length]. f_equal. f_equal. lia.
Qed.

(** What [int] passes over at the ends is white space. *)
Lemma int_space1_space1 (c : ascii) :
  Py.int_space1 c = true -> Py.space1 c = true.
Proof.
  unfold Py.int_space1, Py.space1.
  intros [[H1 H2]%andb_true_iff | H]%orb_true_iff.
  - by rewrite H1, H2.
  - apply N.eqb_eq in H. rewrite H. done.
Qed.

Lemma head_kept_int (w2 : ascii -> ascii -> bool)
    (w3 : ascii -> ascii -> ascii -> bool) (s : string) :
  head_kept Py.space1 w2 w3 s = true -> head_kept Py.int_space1 w2 w3 s = true.
Proof.
  destruct s as [|a r]; [done|]. cbn [head_kept].
  intros [Ha ->]%andb_true_iff. rewrite andb_true_r.
  apply negb_true_iff in Ha. apply negb_true_iff.
  destruct (Py.int_space1 a) eqn:Hi; [|done].
  apply int_space1_space1 in Hi. congruence.
Qed.

(** A text that [strip] leaves as it is, [int] strips of nothing. *)
Lemma int_strip_stripped (s : string) : Py.strip s = s -> Py.int_strip s = s.
Proof.
  intros Hs. destruct (strip_ends s) as [Hl Hr]. rewrite Hs in Hl, Hr.
  unfold Py.int_strip.
  rewrite (lstrip_gen_kept _ _ _ s) by by apply head_kept_int.
  rewrite lstrip_gen_kept by by apply head_kept_int.
  apply rev_involutive.
Qed.

Lemma int_numeral (s : string) :
  numeral s = true -> (String.length s <= 4300)%nat ->
  Py.int s = Some (numeral_value s).
Proof.
  intros Hs Hlen. destruct (numeral_first s Hs) as (c & r & -> & Hc).
  destruct (numeral_last _ Hs) as (t & d & Heq & Hd).
  unfold Py.int.
  rewrite (int_strip_stripped _ (strip_digit_ends c d r t Hc Hd Heq)).
  destruct (digit_no_space c Hc) as (_ & _ & _ & _ & _ & _ & Hplus & Hminus).
  apply andb_true_iff in Hs as [_ Hall].
  assert (Py.number (String c r) = Some (numeral_value (String c r)))
    as Hgo.
  { unfold Py.number. rewrite digits_go_numeral by done.
    cbn [Nat.add].
    destruct (String.length (String c r) <=? 4300)%nat eqn:Hle; [done|].
    apply Nat.leb_gt in Hle. lia. }
  destruct c as [[] [] [] [] [] [] [] []]; try done.
Qed.

(** Splitting at the colons a numeral followed by a colon. *)
Lemma split_numeral (s rest : string) :
  all_digits s = true ->
  Py.split ":" (s +:+ String ":" rest) = s :: Py.split ":" rest
  ∧ Py.split ":" s = [s].
Proof.
  induction s as [|c s IH]; intros Hall; [done|].
  cbn [all_digits] in Hall. apply andb_true_iff in Hall as [Hc Hs].
  destruct (digit_no_space c Hc) as (_ & _ & _ & _ & _ & Hcolon & _).
  rewrite append_cons. cbn [Py.split].
  assert (Ascii.eqb c ":" = false) as -> by (by apply Ascii.eqb_neq).
  destruct (IH Hs) as [-> ->]. done.
Qed.

(** A text made of a numeral, then anything that ends with a digit. *)
Lemma parse_time_parts (hh rest : string) :
  numeral hh = true ->
  (rest = EmptyString ∨ ∃ t d, rest = t +:+ String d "" ∧ is_digit d = true) ->
  Py.strip (hh +:+ rest) = hh +:+ rest ∧ Py.truthy (hh +:+ rest) = true.
Proof.
  intros Hh Hrest. destruct (numeral_first hh Hh) as (c & r & -> & Hc).
  rewrite append_cons. split; [|done].
  destruct Hrest as [-> | (t & d & -> & Hd)].
  - rewrite append_nil_r.
    destruct (numeral_last _ Hh) as (t & d & Heq & Hd).
    by apply (strip_digit_ends c d r t).
  - apply (strip_digit_ends c d _ (String c r +:+ t)); [done | done|].
    by rewrite <- append_cons, append_assoc.
Qed.

(** X2.  [_parse_time_to_minutes] on the times of the incidents file.  For
    numerals [hh], [mm] and [ss], the first two of no more than 4300
    digits (the most that [int] reads), the texts [hh:mm:ss] and [hh:mm]
    give 60 times [hh] plus [mm], the seconds being left out, and [hh]
    alone gives 60 times [hh]; the numbers are not checked against 23 or
    59.  A blank text gives nothing. *)
Theorem parse_time_of_clock (hh mm ss : string) :
  numeral hh = true -> numeral mm = true -> numeral ss = true ->
  (String.length hh <= 4300)%nat -> (String.length mm <= 4300)%nat ->
  _parse_time_to_minutes (hh +:+ ":" +:+ mm +:+ ":" +:+ ss)
  = Some (numeral_value hh * 60 + numeral_value mm)
  ∧ _parse_time_to_minutes (hh +:+ ":" +:+ mm)
    = Some (numeral_value hh * 60 + numeral_value mm)
  ∧ _parse_time_to_minutes hh = Some (numeral_value hh * 60 + 0)
  ∧ ∀ blank, Py.strip blank = EmptyString ->
      _parse_time_to_minutes blank = None.
Proof.
  intros Hh Hm Hs Hlh Hlm.
  destruct (numeral_last mm Hm) as (tm & dm & Hmm & Hdm).
  destruct (numeral_last ss Hs) as (ts & ds & Hss & Hds).
  pose proof Hh as Hh'. pose proof Hm as Hm'.
  apply andb_true_iff in Hh' as [_ Hallh]. apply andb_true_iff in Hm' as [_ Hallm].
  unfold _parse_time_to_minutes. rewrite !or_empty. split_and!.
  - destruct (parse_time_parts hh (":" +:+ mm +:+ ":" +:+ ss) Hh) as [-> ->].
    { right. exists (":" +:+ mm +:+ ":" +:+ ts), ds. split; [|done].
      by rewrite Hss, !append_assoc. }
    cbn [negb].
    change (":" +:+ mm +:+ ":" +:+ ss) with (String ":" (mm +:+ String ":" ss)).
    destruct (split_numeral hh (mm +:+ String ":" ss) Hallh) as [-> _].
    destruct (split_numeral mm ss Hallm) as [-> _].
    cbn [lookup list_lookup default from_option id length].
    rewrite (int_numeral hh Hh Hlh), (int_numeral mm Hm Hlm).
    by destruct (Py.split ":" ss).
  - destruct (parse_time_parts hh (":" +:+ mm) Hh) as [-> ->].
    { right. exists (":" +:+ tm), dm. split; [|done].
      by rewrite Hmm, !append_assoc. }
    cbn [negb]. change (":" +:+ mm) with (String ":" mm).
    destruct (split_numeral hh mm Hallh) as [-> _].
    destruct (split_numeral mm "" Hallm) as [_ ->].
    cbn [lookup list_lookup default from_option id length].
    by rewrite (int_numeral hh Hh Hlh), (int_numeral mm Hm Hlm).
  - destruct (parse_time_parts hh "" Hh) as [Hstrip Htruthy]; [by left|].
    rewrite append_nil_r in Hstrip, Htruthy. rewrite Hstrip, Htruthy.
    cbn [negb]. destruct (split_numeral hh "" Hallh) as [_ ->].
    cbn [lookup list_lookup default from_option id length].
    by rewrite (int_numeral hh Hh Hlh).
  - intros blank Hblank. rewrite or_empty. by rewrite Hblank.
Qed.

(** ** Grouping by category *)

Lemma group_by_category_loop (items : list dict) :
  Forall (fun it => is_Some (it !! "categoria_sicu")) items ->
  _group_by_category items = Some (groups_by categoria_sicu_of items).
Proof.
  unfold _group_by_category.
  induction items as [|it items IH] using rev_ind; intros Hall; [done|].
  rewrite Forall_app, Forall_singleton in Hall.
  destruct Hall as [Hitems [categoria Hc]].
  rewrite foldl_app, IH by done. cbn [foldl]. rewrite Hc.
  rewrite <- setdefault_append_groups. unfold categoria_sicu_of at 2.
  by rewrite Hc.
Qed.

Lemma group_by_category_error (items : list dict) :
  ¬ Forall (fun it => is_Some (it !! "categoria_sicu")) items ->
  _group_by_category items = None.
Proof.
  unfold _group_by_category.
  induction items as [|it items IH] using rev_ind; intros Hall.
  { destruct Hall. constructor. }
  rewrite foldl_app. cbn [foldl].
  destruct (it !! "categoria_sicu") as [categoria|] eqn:Hc.
  - rewrite IH; [done|]. intros H. apply Hall. apply Forall_app.
    split; [done|]. apply Forall_singleton. by rewrite Hc.
  - by destruct (foldl _ _ items).
Qed.

(** The rows whose key is in [ks], key by key. *)
Lemma filter_by_keys {K : Type} `{EqDecision K} (key_of : dict -> K)
    (rows : list dict) (ks : list K) :
  NoDup ks ->
  mjoin ((fun k => filter (fun r => key_of r = k) rows) <$> ks)
  ≡ₚ filter (fun r => key_of r ∈ ks) rows.
Proof.
  induction ks as [|k ks IH]; intros Hnd.
  - cbn. rewrite filter_none; [done|]. apply Forall_forall.
    intros r _ Hr. by apply elem_of_nil in Hr.
  - apply NoDup_cons in Hnd as [Hk Hnd]. rewrite fmap_cons.
    change (mjoin (?x :: ?l)) with (x ++ mjoin l).
    rewrite (IH Hnd). clear IH.
    induction rows as [|r rows IHrows]; [done|].
    destruct (decide (key_of r = k)) as [Heq | Hne].
    + rewrite (filter_cons_True (fun r => key_of r = k)) by done.
      rewrite (filter_cons_False (fun r => key_of r ∈ ks))
        by (intros ?; congruence).
      rewrite (filter_cons_True (fun r => key_of r ∈ k :: ks))
        by (rewrite Heq; left).
      cbn [app]. by rewrite IHrows.
    + rewrite (filter_cons_False (fun r => key_of r = k)) by (intros ?; done).
      destruct (decide (key_of r ∈ ks)) as [Hin | Hin].
      * rewrite (filter_cons_True (fun r => key_of r ∈ ks)) by done.
        rewrite (filter_cons_True (fun r => key_of r ∈ k :: ks))
          by (by right).
        rewrite <- Permutation_middle. by rewrite IHrows.
      * rewrite (filter_cons_False (fun r => key_of r ∈ ks))
          by (intros ?; done).
        rewrite (filter_cons_False (fun r => key_of r ∈ k :: ks)); [done|].
        rewrite elem_of_cons. intros ?; intuition congruence.
Qed.

(** The groups hold every row once. *)
Lemma groups_by_permutation {K : Type} `{EqDecision K} (key_of : dict -> K)
    (rows : list dict) :
  mjoin (groups_by key_of rows).*2 ≡ₚ rows.
Proof.
  unfold groups_by. rewrite <- list_fmap_compose.
  change (snd ∘ (fun k => (k, filter (fun r => key_of r = k) rows)))
    with (fun k => filter (fun r => key_of r = k) rows).
  rewrite filter_by_keys by apply NoDup_first_appearances.
  rewrite filter_all; [done|]. apply Forall_forall. intros r Hr.
  apply elem_of_first_appearances. by apply list_elem_of_fmap_2.
Qed.

(** X7.  [_group_by_category] fails with [KeyError] exactly when an item has
    no key [categoria_sicu].  Otherwise its groups are the categories in
    the order in which they first appear, each with the items of that
    category in their original order: no item is lost, none is in two
    groups, and no group is empty. *)
Theorem group_by_category_groups (items : list dict) :
  (_group_by_category items = None
   <-> ¬ Forall (fun it => is_Some (it !! "categoria_sicu")) items)
  ∧ ∀ grouped, _group_by_category items = Some grouped ->
      grouped = groups_by categoria_sicu_of items
      ∧ NoDup grouped.*1
      ∧ Forall (fun g => g.2 ≠ []
                         ∧ g.2 = filter (fun it => categoria_sicu_of it = g.1) items)
          grouped
      ∧ mjoin grouped.*2 ≡ₚ items.
Proof.
  destruct (decide (Forall (fun it => is_Some (it !! "categoria_sicu")) items))
    as [Hall | Hnot].
  - rewrite group_by_category_loop by done. split; [split; [done | tauto]|].
    intros grouped [= <-]. split_and!.
    + done.
    + rewrite groups_by_keys. apply NoDup_first_appearances.
    + unfold groups_by. apply Forall_fmap, Forall_forall. intros k Hk.
      cbn [fst snd]. split; [|done].
      apply elem_of_first_appearances, list_elem_of_fmap in Hk as (r & -> & Hr).
      intros Hnil. by eapply (filter_nil_not_elem_of _ items r).
    + apply groups_by_permutation.
  - rewrite group_by_category_error by done. split; [tauto | done].
Qed.

(** ** De-duplicating the rows of the incidents file *)

(** What the loop of [_dedup_rows] keeps true, [rows] being the rows
    passed: [seen] holds their signatures, which are those of the rows
    kept; the rows kept have different signatures, and are rows passed,
    in their order. *)
Lemma dedup_loop_invariant (rows : list dict) :
  let acc := foldl dedup_step (∅, []) rows in
  (∀ x, x ∈ acc.1 ↔ x ∈ row_signature <$> rows)
  ∧ (∀ x, x ∈ acc.1 ↔ x ∈ row_signature <$> acc.2)
  ∧ NoDup (row_signature <$> acc.2)
  ∧ acc.2 `sublist_of` rows.
Proof.
  cbn zeta. induction rows as [|r rows IH] using rev_ind.
  { cbn. split_and!; [set_solver | set_solver | constructor | done]. }
  rewrite foldl_app. cbn [foldl]. destruct IH as (Hrows & Hseen & Hnd & Hsub).
  set (acc := foldl dedup_step (∅, []) rows) in *.
  assert (dedup_step acc r
          = if decide (row_signature r ∈ acc.1) then acc
            else ({[row_signature r]} ∪ acc.1, acc.2 ++ [r])) as -> by done.
  destruct (decide (row_signature r ∈ acc.1)) as [Hin | Hin].
  - split_and!; [|done | done | by apply sublist_inserts_r].
    intros x. rewrite fmap_app, elem_of_app, <- Hrows.
    cbn [fmap list_fmap]. rewrite list_elem_of_singleton.
    split; [tauto | by intros [?| ->]].
  - cbn [fst snd]. rewrite !fmap_app. cbn [fmap list_fmap]. split_and!.
    + intros x. rewrite elem_of_union, elem_of_singleton, elem_of_app,
        list_elem_of_singleton, Hrows. tauto.
    + intros x. rewrite elem_of_union, elem_of_singleton, elem_of_app,
        list_elem_of_singleton, Hseen. tauto.
    + apply NoDup_app. split_and!; [done | | apply NoDup_singleton].
      intros x Hx ->%list_elem_of_singleton. by apply Hin, Hseen.
    + by apply sublist_app.
Qed.

(** The loop on rows with new, different signatures keeps them all. *)
Lemma dedup_loop_distinct (rows : list dict)
    (acc : gset (string * string * string * string * string) * list dict) :
  NoDup (row_signature <$> rows) ->
  (∀ x, x ∈ row_signature <$> rows -> x ∉ acc.1) ->
  (foldl dedup_step acc rows).2 = acc.2 ++ rows
  ∧ ∀ x, x ∈ (foldl dedup_step acc rows).1
         ↔ x ∈ acc.1 ∨ x ∈ row_signature <$> rows.
Proof.
  revert acc. induction rows as [|r rows IH]; intros acc Hnd Hnew.
  { cbn. rewrite app_nil_r. split; [done|]. intros x.
    rewrite elem_of_nil. tauto. }
  rewrite fmap_cons in Hnd, Hnew. apply NoDup_cons in Hnd as [Hr Hnd].
  cbn [foldl]. unfold dedup_step at 2 4.
  rewrite decide_False by (apply Hnew; left).
  destruct (IH ({[row_signature r]} ∪ acc.1, acc.2 ++ [r])) as [-> Hseen].
  - done.
  - intros x Hx. cbn [fst]. rewrite elem_of_union, elem_of_singleton.
    intros [-> | Hin]; [done|]. apply (Hnew x); [by right | done].
  - cbn [fst snd]. rewrite <- app_assoc. split; [done|]. intros x.
    rewrite Hseen, fmap_cons, elem_of_cons. cbn [fst].
    rewrite elem_of_union, elem_of_singleton. tauto.
Qed.

(** The loop on rows whose signatures have all been seen keeps none. *)
Lemma dedup_loop_seen (rows : list dict)
    (acc : gset (string * string * string * string * string) * list dict) :
  (∀ x, x ∈ row_signature <$> rows -> x ∈ acc.1) ->
  foldl dedup_step acc rows = acc.
Proof.
  induction rows as [|r rows IH]; intros Hseen; [done|].
  cbn [foldl]. unfold dedup_step at 2.
  rewrite decide_True by (apply Hseen; rewrite fmap_cons; left).
  apply IH. intros x Hx. apply Hseen. rewrite fmap_cons. by right.
Qed.

(** X8.  [_dedup_rows] keeps, of the rows with one signature (date, time,
    country, description and source, trimmed, the last three in lower
    case), the first: the rows kept are rows given, in their order, with
    different signatures, and a row is kept when no row before it has
    its signature.  Rows with different signatures are all kept, so the
    function applied again changes nothing; and adding to its result
    rows that it has already seen changes nothing either. *)
Theorem dedup_rows_keeps_first (rows more : list dict) :
  _dedup_rows rows `sublist_of` rows
  ∧ NoDup (row_signature <$> _dedup_rows rows)
  ∧ (∀ pre r post,
       rows = pre ++ r :: post ->
       row_signature r ∉ row_signature <$> pre ->
       r ∈ _dedup_rows rows)
  ∧ (NoDup (row_signature <$> rows) -> _dedup_rows rows = rows)
  ∧ _dedup_rows (_dedup_rows rows) = _dedup_rows rows
  ∧ ((∀ r, r ∈ more -> row_signature r ∈ row_signature <$> rows) ->
     _dedup_rows (_dedup_rows rows ++ more) = _dedup_rows rows).
Proof.
  assert (∀ l, NoDup (row_signature <$> l) -> _dedup_rows l = l) as Hdistinct.
  { intros l Hl. unfold _dedup_rows.
    destruct (dedup_loop_distinct l (∅, [])) as [-> _]; [done | | done].
    intros x _. cbn [fst]. set_solver. }
  destruct (dedup_loop_invariant rows) as (Hrows & Hseen & Hnd & Hsub).
  change ((foldl dedup_step (∅, []) rows).2) with (_dedup_rows rows) in *.
  split_and!; [done | done | | apply Hdistinct | by apply Hdistinct |].
  - intros pre r post -> Hfirst. unfold _dedup_rows.
    rewrite foldl_app. cbn [foldl].
    destruct (dedup_loop_invariant pre) as (Hpre & _ & _ & _).
    unfold dedup_step at 2. rewrite decide_False by (by rewrite Hpre).
    set (acc := ({[row_signature r]} ∪ _, _ ++ [r])).
    assert (∀ l a, r ∈ a.2 -> r ∈ (foldl dedup_step a l).2) as Hkeep.
    { induction l as [|r' l IH]; intros a Ha; [done|].
      cbn [foldl]. apply IH. unfold dedup_step.
      destruct (decide _); [done|]. cbn [snd]. apply elem_of_app. by left. }
    apply Hkeep. unfold acc. cbn [snd]. apply elem_of_app. right.
    by apply list_elem_of_singleton.
  - intros Hmore. unfold _dedup_rows at 1. rewrite foldl_app.
    destruct (dedup_loop_distinct (_dedup_rows rows) (∅, []))
      as [Hout Hset]; [done | intros x _; cbn [fst]; set_solver|].
    rewrite dedup_loop_seen; [by rewrite Hout|].
    intros x (r & -> & Hr)%list_elem_of_fmap. apply Hset. right.
    apply Hseen, Hrows. by apply Hmore.
Qed.

(** ** The de-duplicator: what it keeps *)

(** *** The clusters hold every row once *)

Lemma place_row_clusters (row : dict) (clusters : list (list dict)) :
  Forall well_clustered clusters ->
  Forall well_clustered (place_row row clusters)
  ∧ mjoin (place_row row clusters) ≡ₚ row :: mjoin clusters.
Proof.
  induction 1 as [|cluster clusters Hc Hcs [IH1 IH2]]; cbn [place_row].
  - split; [by repeat constructor | done].
  - destruct cluster as [|rep members]; [done|].
    destruct (same_incident row rep) eqn:Hsame.
    + split.
      * constructor; [|done]. cbn [well_clustered app] in *.
        apply Forall_app. split; [done | by constructor].
      * change (mjoin (?x :: ?l)) with (x ++ mjoin l).
        rewrite <- (app_assoc _ [row]). cbn [app].
        symmetry. apply (Permutation_middle (rep :: members)).
    + split; [by constructor|].
      change (mjoin (?x :: ?l)) with (x ++ mjoin l).
      rewrite IH2. by rewrite <- Permutation_middle.
Qed.

Lemma cluster_items_clusters (items : list dict) :
  Forall well_clustered (cluster_items items)
  ∧ mjoin (cluster_items items) ≡ₚ items.
Proof.
  unfold cluster_items. induction items as [|row items [IH1 IH2]] using rev_ind.
  - split; [constructor | done].
  - rewrite foldl_app. cbn [foldl].
    destruct (place_row_clusters row _ IH1) as [H1 H2]. split; [done|].
    rewrite H2, IH2. by rewrite <- Permutation_cons_append.
Qed.

(** Each cluster leaves one row, with the identity of its
    representative. *)
Lemma merge_well_clustered (cluster : list dict) :
  well_clustered cluster ->
  ∃ rep members m,
    cluster = rep :: members ∧ merge_cluster cluster = [m]
    ∧ same_identity m rep.
Proof.
  destruct cluster as [|rep members]; [done|]. intros _.
  destruct (merge_cluster_identity rep members) as (m & Hm & Hid).
  by exists rep, members, m.
Qed.

Lemma merge_clusters_conserve (clusters : list (list dict)) :
  Forall well_clustered clusters ->
  (length (flat_map merge_cluster clusters) <= length (mjoin clusters))%nat
  ∧ (∀ out, out ∈ flat_map merge_cluster clusters ->
       ∃ r, r ∈ mjoin clusters ∧ same_identity out r)
  ∧ (∀ r, r ∈ mjoin clusters ->
       ∃ out, out ∈ flat_map merge_cluster clusters
              ∧ (same_identity out r ∨ same_incident r out = true)).
Proof.
  induction 1 as [|cluster clusters Hc Hcs (IH1 & IH2 & IH3)].
  { cbn. split_and!; [done | |]; by intros ? ?%elem_of_nil. }
  destruct (merge_well_clustered cluster Hc) as (rep & members & m & -> & Hm & Hid).
  cbn [flat_map]. rewrite Hm. change (mjoin (?x :: ?l)) with (x ++ mjoin l).
  cbn [app length]. rewrite length_app. split_and!.
  - lia.
  - intros out [-> | Hout]%elem_of_cons.
    + exists rep. split; [left | done].
    + destruct (IH2 out Hout) as (r & Hr & Hid').
      exists r. split; [|done]. right. apply elem_of_app. by right.
  - intros r [-> | [Hr | Hr]%elem_of_app]%elem_of_cons.
    + exists m. split; [left | by left].
    + exists m. split; [left|]. right.
      cbn [well_clustered] in Hc. rewrite Forall_forall in Hc.
      rewrite (same_identity_incident r m r rep);
        [by apply Hc | apply same_identity_refl | done].
    + destruct (IH3 r Hr) as (out & Hout & H).
      exists out. split; [by right | done].
Qed.

Lemma merged_rows_conserve (items : list dict) :
  (length (merged_rows items) <= length items)%nat
  ∧ (∀ out, out ∈ merged_rows items -> ∃ r, r ∈ items ∧ same_identity out r)
  ∧ (∀ r, r ∈ items ->
       ∃ out, out ∈ merged_rows items
              ∧ (same_identity out r ∨ same_incident r out = true)).
Proof.
  destruct (cluster_items_clusters items) as [Hwell Hperm].
  destruct (merge_clusters_conserve _ Hwell) as (H1 & H2 & H3).
  unfold merged_rows. split_and!.
  - by rewrite <- (Permutation_length Hperm).
  - intros out Hout. destruct (H2 out Hout) as (r & Hr & Hid).
    exists r. split; [by rewrite <- Hperm | done].
  - intros r Hr. apply H3. by rewrite Hperm.
Qed.

(** X4.  Nothing is invented and nothing is lost.  The result has no more
    rows than were given.  Every row of the result has the country,
    category, date, place, description and time of a row given.  And
    every row given is accounted for by a row of the result with the
    same grouping key, which either has its identity or passes the test
    of the loop with it. *)
Theorem deduplicate_conserves (rows : list dict) :
  (length (deduplicate_sicu_incidents rows) <= length rows)%nat
  ∧ (∀ out, out ∈ deduplicate_sicu_incidents rows ->
       ∃ r, r ∈ rows ∧ same_identity out r)
  ∧ (∀ r, r ∈ rows ->
       ∃ out, out ∈ deduplicate_sicu_incidents rows
              ∧ group_key out = group_key r
              ∧ (same_identity out r ∨ same_incident r out = true)).
Proof.
  rewrite deduplicate_merged_rows.
  pose proof (groups_by_permutation group_key rows) as Hperm.
  pose proof (groups_by_group group_key rows) as Hgroups.
  set (groups := groups_by group_key rows) in *. clearbody groups.
  assert (∀ r, r ∈ rows ↔ ∃ g, g ∈ groups ∧ r ∈ g.2) as Hin.
  { intros r. rewrite <- Hperm, list_elem_of_join. split.
    - intros (l & Hr & (g & -> & Hg)%list_elem_of_fmap). by exists g.
    - intros (g & Hg & Hr). exists g.2. split; [done|].
      by apply list_elem_of_fmap_2. }
  split_and!.
  - rewrite <- Hperm. clear Hin Hperm Hgroups.
    induction groups as [|g groups IH]; [done|].
    cbn [flat_map fmap list_fmap]. change (mjoin (?x :: ?l)) with (x ++ mjoin l).
    rewrite !length_app.
    destruct (merged_rows_conserve g.2) as (Hlen & _ & _). lia.
  - intros out Hout.
    apply list_elem_of_In, in_flat_map in Hout as (g & Hg & Hout).
    apply list_elem_of_In in Hg, Hout.
    destruct (merged_rows_conserve g.2) as (_ & Hfrom & _).
    destruct (Hfrom out Hout) as (r & Hr & Hid). exists r.
    split; [|done]. apply Hin. by exists g.
  - intros r (g & Hg & Hr)%Hin.
    destruct (merged_rows_conserve g.2) as (_ & _ & Hto).
    destruct (Hto r Hr) as (out & Hout & H). exists out. split_and!.
    + apply list_elem_of_In, in_flat_map. exists g.
      split; by apply list_elem_of_In.
    + rewrite Forall_forall in Hgroups. destruct (Hgroups g Hg) as [_ Hkey].
      rewrite Forall_forall in Hkey. rewrite (Hkey r Hr).
      pose proof (merged_rows_key g.2 g.1 ltac:(by apply Forall_forall)) as Hk.
      rewrite Forall_forall in Hk. by apply Hk.
    + done.
Qed.

(** *** Rows without a description *)

Lemma similarity_blank_l (a b : string) :
  Py.strip a = EmptyString -> _similarity a b = 0%Q.
Proof. unfold _similarity. rewrite or_empty. by intros ->. Qed.

Lemma similarity_blank_r (a b : string) :
  Py.strip b = EmptyString -> _similarity a b = 0%Q.
Proof.
  unfold _similarity. rewrite !or_empty. intros ->.
  change (Py.truthy (Py.lower "")) with false. cbn [negb].
  by rewrite orb_true_r.
Qed.

Lemma same_incident_blank (row rep : dict) :
  blank_description row ∨ blank_description rep ->
  same_incident row rep = false.
Proof.
  unfold blank_description, same_incident. intros [H | H].
  - rewrite similarity_blank_l; [done | by rewrite strip_idempotent].
  - rewrite similarity_blank_r; [done | by rewrite strip_idempotent].
Qed.

Lemma apart_blank (rows : list dict) :
  Forall blank_description rows -> apart rows.
Proof.
  induction 1 as [|r rows Hr _ IH]; [done|]. split; [|done].
  apply Forall_forall. intros r' _. apply same_incident_blank. by right.
Qed.

(** A cluster with a row without a description has that row only. *)
Lemma place_row_blank (row : dict) (clusters : list (list dict)) :
  Forall (fun c => (∃ r, c = [r]) ∨ Forall (fun r => ¬ blank_description r) c)
    clusters ->
  Forall (fun c => (∃ r, c = [r]) ∨ Forall (fun r => ¬ blank_description r) c)
    (place_row row clusters).
Proof.
  induction 1 as [|cluster clusters Hc Hcs IH]; cbn [place_row].
  - constructor; [|done]. left. by exists row.
  - destruct cluster as [|rep members]; [by constructor|].
    destruct (same_incident row rep) eqn:Hsame; [|by constructor].
    constructor; [|done]. right.
    assert (¬ blank_description row ∧ ¬ blank_description rep) as [Hrow Hrep].
    { split; intros Hb; rewrite same_incident_blank in Hsame by tauto; done. }
    apply Forall_app. split; [|by constructor].
    destruct Hc as [[r [= -> ->]] | Hc]; [by constructor | done].
Qed.

Lemma cluster_items_blank (items : list dict) :
  Forall (fun c => (∃ r, c = [r]) ∨ Forall (fun r => ¬ blank_description r) c)
    (cluster_items items).
Proof.
  unfold cluster_items. induction items as [|row items IH] using rev_ind;
    [constructor|].
  rewrite foldl_app. cbn [foldl]. by apply place_row_blank.
Qed.

Lemma same_identity_blank (a b : dict) :
  same_identity a b -> blank_description a -> blank_description b.
Proof.
  intros (_ & _ & _ & _ & Hd & _). unfold blank_description, get_or_empty.
  by rewrite Hd.
Qed.

Lemma merged_rows_blank (items : list dict) (r : dict) :
  blank_description r -> r ∈ merged_rows items ↔ r ∈ items.
Proof.
  intros Hr. destruct (cluster_items_clusters items) as [Hwell Hperm].
  pose proof (cluster_items_blank items) as Hblank.
  unfold merged_rows.
  assert (r ∈ flat_map merge_cluster (cluster_items items)
          ↔ r ∈ mjoin (cluster_items items)) as ->; [|by rewrite Hperm].
  clear Hperm.
  induction Hwell as [|cluster clusters Hc Hcs IH]; [done|].
  apply Forall_cons in Hblank as [Hb Hbs]. cbn [flat_map].
  change (mjoin (?x :: ?l)) with (x ++ mjoin l).
  rewrite !elem_of_app, (IH Hbs). clear IH.
  destruct Hb as [[r' ->] | Hb]; [done|].
  destruct (merge_well_clustered cluster Hc) as (rep & members & m & -> & -> & Hid).
  split; (intros [Hin | Hin]; [exfalso | by right]).
  - apply list_elem_of_singleton in Hin as ->.
    apply Forall_cons in Hb as [Hrep _]. apply Hrep.
    by apply (same_identity_blank m).
  - rewrite Forall_forall in Hb. by apply (Hb r).
Qed.

(** X5.  Rows without a description are never merged, not even with each
    other: such a row is in the result exactly when it was given, as it
    was given; and when no row has a description the result is the rows
    given, group after group. *)
Theorem blank_descriptions_are_kept (rows : list dict) :
  (∀ r, blank_description r ->
        r ∈ deduplicate_sicu_incidents rows ↔ r ∈ rows)
  ∧ (Forall blank_description rows ->
     deduplicate_sicu_incidents rows
     = mjoin (groups_by group_key rows).*2
     ∧ deduplicate_sicu_incidents rows ≡ₚ rows).
Proof.
  rewrite deduplicate_merged_rows.
  pose proof (groups_by_permutation group_key rows) as Hperm. split.
  - intros r Hr. rewrite <- Hperm at 2. rewrite list_elem_of_join. split.
    + intros Hin. apply list_elem_of_In, in_flat_map in Hin as (g & Hg & Hin).
      apply list_elem_of_In in Hg, Hin. exists g.2.
      split; [by apply merged_rows_blank | by apply list_elem_of_fmap_2].
    + intros (l & Hin & (g & -> & Hg)%list_elem_of_fmap).
      apply list_elem_of_In, in_flat_map. exists g.
      split; apply list_elem_of_In; [done | by apply merged_rows_blank].
  - intros Hall.
    assert (flat_map (fun g => merged_rows g.2) (groups_by group_key rows)
            = mjoin (groups_by group_key rows).*2) as ->; [|done].
    assert (Forall (fun g => Forall blank_description g.2)
              (groups_by group_key rows)) as Hgroups.
    { apply Forall_forall. intros g Hg. apply Forall_forall. intros r Hr.
      rewrite Forall_forall in Hall. apply Hall. rewrite <- Hperm.
      apply list_elem_of_join. exists g.2.
      split; [done | by apply list_elem_of_fmap_2]. }
    clear Hperm Hall.
    induction Hgroups as [|g groups Hg _ IH]; [done|].
    cbn [flat_map fmap list_fmap]. change (mjoin (?x :: ?l)) with (x ++ mjoin l).
    rewrite IH. f_equal. apply merged_rows_apart. by apply apart_blank.
Qed.

(** *** What a merged row holds *)

(** The sources of a cluster: those of its rows that are not blank, each
    once, in the order in which they first appear. *)
Lemma merge_fuentes_first_appearances (cluster : list dict) :
  merge_fuentes cluster
  = first_appearances
      (filter (fun f => f ≠ EmptyString) (fuente_of <$> cluster)).
Proof.
  unfold merge_fuentes.
  induction cluster as [|r cluster IH] using rev_ind; [done|].
  rewrite foldl_app, IH, fmap_app, filter_app. cbn [foldl fmap list_fmap].
  destruct (Py.truthy (fuente_of r)) eqn:Hf.
  - apply truthy_true in Hf. rewrite filter_cons_True, filter_nil by done.
    rewrite first_appearances_snoc. cbn [andb].
    destruct (decide (fuente_of r
                      ∈ filter (fun f => f ≠ EmptyString) (fuente_of <$> cluster)))
      as [Hin | Hin].
    + rewrite bool_decide_eq_true_2; [done|].
      by apply elem_of_first_appearances.
    + rewrite bool_decide_eq_false_2; [done|].
      by rewrite elem_of_first_appearances.
  - apply truthy_false in Hf.
    rewrite filter_cons_False, filter_nil by (intros ?; done).
    by rewrite app_nil_r.
Qed.

Lemma first_nonempty_first_value (field : string) (cluster : list dict) :
  default EmptyString (first_nonempty field cluster) = first_value field cluster
  ∧ (first_nonempty field cluster = None -> first_value field cluster = EmptyString)
  ∧ ∀ v, first_nonempty field cluster = Some v -> Py.strip v = v ∧ v ≠ EmptyString.
Proof.
  unfold first_value. induction cluster as [|r cluster (IH1 & IH2 & IH3)];
    [done|].
  cbn [first_nonempty fmap list_fmap].
  destruct (Py.truthy (Py.strip (get_or_empty r field))) eqn:Hv.
  - apply truthy_true in Hv. rewrite filter_cons_True by done.
    split_and!; [done | done|]. intros v [= <-].
    split; [apply strip_idempotent | done].
  - apply truthy_false in Hv. rewrite filter_cons_False by (intros ?; done).
    done.
Qed.

Lemma get_or_empty_insert_ne (d : dict) (key key' v : string) :
  key ≠ key' -> get_or_empty (<[key := v]> d) key' = get_or_empty d key'.
Proof. intros H. unfold get_or_empty. by rewrite lookup_insert_ne. Qed.

Lemma get_or_empty_insert (d : dict) (key v : string) :
  get_or_empty (<[key := v]> d) key = v.
Proof. unfold get_or_empty. rewrite lookup_insert_eq. apply or_empty. Qed.

(** What [fill_from_cluster] leaves in the field, for a base whose field
    is that of the first row of the cluster. *)
Lemma fill_from_cluster_value (field : string) (first base : dict)
    (rest : list dict) :
  get_or_empty base field = get_or_empty first field ->
  Py.strip (get_or_empty (fill_from_cluster field (first :: rest) base) field)
  = first_value field (first :: rest)
  ∧ ∀ key, key ≠ field ->
      fill_from_cluster field (first :: rest) base !! key = base !! key.
Proof.
  intros Hbase. unfold fill_from_cluster. rewrite Hbase.
  destruct (first_nonempty_first_value field (first :: rest))
    as (Hv & Hnone & Hsome).
  destruct (Py.truthy (Py.strip (get_or_empty first field))) eqn:Hfirst;
    cbn [negb].
  - split; [|done]. rewrite Hbase. unfold first_value. cbn [fmap list_fmap].
    apply truthy_true in Hfirst. by rewrite filter_cons_True.
  - destruct (first_nonempty field (first :: rest)) as [v|] eqn:Hfn.
    + destruct (Hsome v eq_refl) as [Hstrip _]. split.
      * rewrite get_or_empty_insert, Hstrip. exact Hv.
      * intros key Hkey. by rewrite lookup_insert_ne.
    + split; [|done]. rewrite Hbase, (Hnone eq_refl).
      by apply truthy_false in Hfirst.
Qed.

(** X3.  The row that a cluster of two rows or more leaves.  Its
    [fuente_URL] is the sources of the rows of the cluster (for each
    row its [fuente_URL] or else its [fuente], trimmed), the blank ones
    left out and each taken once in the order of first appearance, joined
    by " | "; when all are blank the field stays as the first row has
    it.  Its [lat] is, trimmed, the first [lat] of the cluster that is
    not blank, and its [lon] the first [lon] that is not blank, each
    looked for on its own.  Every other field is that of the first
    row. *)
Theorem merge_cluster_fields (first second : dict) (rest : list dict) :
  let cluster := first :: second :: rest in
  let sources :=
    first_appearances
      (filter (fun f => f ≠ EmptyString) (fuente_of <$> cluster)) in
  ∃ m,
    merge_cluster cluster = [m]
    ∧ m !! "fuente_URL"
      = match sources with
        | [] => first !! "fuente_URL"
        | _ => Some (Py.join " | " sources)
        end
    ∧ Py.strip (get_or_empty m "lat") = first_value "lat" cluster
    ∧ Py.strip (get_or_empty m "lon") = first_value "lon" cluster
    ∧ ∀ key, key ∉ ["fuente_URL"; "lat"; "lon"] -> m !! key = first !! key.
Proof.
  cbn zeta. eexists. split; [reflexivity|].
  rewrite <- merge_fuentes_first_appearances.
  set (cluster := first :: second :: rest).
  set (base := match merge_fuentes cluster with
               | [] => first
               | _ => <["fuente_URL" := Py.join " | " (merge_fuentes cluster)]> first
               end).
  assert (base !! "fuente_URL"
          = match merge_fuentes cluster with
            | [] => first !! "fuente_URL"
            | _ => Some (Py.join " | " (merge_fuentes cluster))
            end) as Hurl.
  { unfold base. destruct (merge_fuentes cluster); [done|].
    apply lookup_insert_eq. }
  assert (∀ key, key ≠ "fuente_URL" -> base !! key = first !! key) as Hbase.
  { intros key Hkey. unfold base. destruct (merge_fuentes cluster); [done|].
    by rewrite lookup_insert_ne. }
  destruct (fill_from_cluster_value "lat" first base (second :: rest))
    as [Hlat Hlat'].
  { unfold get_or_empty. by rewrite Hbase. }
  fold cluster in Hlat, Hlat'. set (base1 := fill_from_cluster "lat" cluster base) in *.
  destruct (fill_from_cluster_value "lon" first base1 (second :: rest))
    as [Hlon Hlon'].
  { unfold get_or_empty. by rewrite Hlat', Hbase. }
  fold cluster in Hlon, Hlon'. split_and!.
  - by rewrite Hlon', Hlat'.
  - unfold get_or_empty at 1. rewrite Hlon' by done. exact Hlat.
  - exact Hlon.
  - intros key Hkey. rewrite Hlon', Hlat', Hbase; [done|..];
      intros ->; apply Hkey; repeat constructor.
Qed.

(** *** Rows of different groups *)

Lemma first_appearances_NoDup {K : Type} `{EqDecision K} (l : list K) :
  NoDup l -> first_appearances l = l.
Proof.
  induction 1 as [|x l Hx _ IH]; [done|].
  cbn [first_appearances]. rewrite IH. f_equal.
  apply filter_all. apply Forall_forall. by intros y Hy ->.
Qed.

Lemma filter_own_key {K : Type} `{EqDecision K} (key_of : dict -> K)
    (rows : list dict) (r : dict) :
  NoDup (key_of <$> rows) -> r ∈ rows ->
  filter (fun r' => key_of r' = key_of r) rows = [r].
Proof.
  induction rows as [|x rows IH]; intros Hnd Hr; [by apply elem_of_nil in Hr|].
  rewrite fmap_cons in Hnd. apply NoDup_cons in Hnd as [Hx Hnd].
  apply elem_of_cons in Hr as [-> | Hr].
  - rewrite filter_cons_True by done. f_equal. apply filter_none.
    apply Forall_forall. intros r' Hr' Heq. apply Hx. rewrite <- Heq.
    by apply list_elem_of_fmap_2.
  - rewrite filter_cons_False; [by apply IH|].
    intros Heq. apply Hx. rewrite Heq. by apply list_elem_of_fmap_2.
Qed.

(** X6.  Rows are merged within a group only: when no two rows have the same
    country, category, date and place, the result is the rows given,
    unchanged and in their order. *)
Theorem deduplicate_distinct_keys (rows : list dict) :
  NoDup (group_key <$> rows) -> deduplicate_sicu_incidents rows = rows.
Proof.
  intros Hnd. rewrite deduplicate_merged_rows. unfold groups_by.
  rewrite first_appearances_NoDup by done. rewrite <- list_fmap_compose.
  rewrite flat_map_fmap.
  assert (∀ l, (∀ r, r ∈ l -> r ∈ rows) ->
            flat_map
              (fun r => merged_rows
                          (filter (fun r' => group_key r' = group_key r) rows))
              l = l) as Hl.
  { induction l as [|r l IH]; intros Hsub; [done|].
    cbn [flat_map]. rewrite (filter_own_key group_key rows r Hnd)
      by (apply Hsub; left).
    change (merged_rows [r]) with [r]. cbn [app]. f_equal.
    apply IH. intros r' Hr'. apply Hsub. by right. }
  by apply Hl.
Qed.

(** ** The parser of the collected messages *)

(** The invariant of the loop, for a state whose current entry, if any,
    is one that a header opened, and whose buffer is empty before the
    first header. *)
Lemma message_loop_invariant (lines : list string) (st : entries_state) :
  (∀ cur, m_current st = Some cur -> truthy_dict (Some cur) = true) ->
  (m_current st = None -> m_buffer st = []) ->
  close_message (foldl message_line st lines)
  = match m_current st with
    | Some cur =>
        m_entries st
        ++ <["text" := Py.strip (Py.join Py.NL
                                   (m_buffer st ++ lines_until_message lines))]> cur
           :: messages_of_lines lines
    | None => m_entries st ++ messages_of_lines lines
    end.
Proof.
  revert st. induction lines as [|line rest IH]; intros st Hst Hbuf.
  - cbn [foldl lines_until_message messages_of_lines]. unfold close_message.
    destruct (m_current st) as [cur|] eqn:Hcur; rewrite ?app_nil_r; [|done].
    by rewrite (Hst cur).
  - cbn [foldl lines_until_message messages_of_lines]. unfold is_message_header.
    unfold message_line at 2. unfold message_header_of.
    destruct (Re.match_ false ENTRY_RE line) as [m|] eqn:Hm;
      cbn [fmap option_fmap option_map].
    + rewrite IH.
      * cbn [m_current m_entries m_buffer app]. unfold close_message.
        destruct (m_current st) as [cur|] eqn:Hcur.
        -- rewrite (Hst cur) by done. by rewrite app_nil_r, <- app_assoc.
        -- cbn [truthy_dict]. by rewrite Hbuf.
      * intros cur [= <-]. cbn [m_current truthy_dict].
        apply negb_true_iff, bool_decide_eq_false, insert_non_empty.
      * done.
    + destruct (m_current st) as [cur|] eqn:Hcur.
      * rewrite IH; cbn [m_current m_entries m_buffer]; rewrite ?Hcur.
        -- by rewrite <- app_assoc.
        -- intros cur' [= <-]. by apply Hst.
        -- done.
      * rewrite IH by (rewrite ?Hcur; done). by rewrite Hcur.
Qed.

Lemma messages_of_lines_length (lines : list string) :
  length (messages_of_lines lines)
  = length (List.filter is_message_header lines).
Proof.
  induction lines as [|line rest IH]; simpl; [done|].
  unfold is_message_header at 1.
  destruct (message_header_of line); simpl; by rewrite IH.
Qed.

Lemma messages_of_lines_text (lines : list string) :
  Forall (fun e : dict =>
            ∃ channel dt text,
              e = <["text" := text]> (<["dt" := dt]> (<["channel" := channel]> ∅))
              ∧ Py.strip channel = channel ∧ Py.strip text = text)
    (messages_of_lines lines).
Proof.
  induction lines as [|line rest IH]; [constructor|].
  cbn [messages_of_lines]. unfold message_header_of.
  destruct (Re.match_ false ENTRY_RE line) as [m|];
    cbn [fmap option_fmap option_map]; [|done].
  constructor; [|done]. eexists _, _, _. split; [done|].
  split; apply strip_idempotent.
Qed.

(** X9.  [_parse_message_entries] makes one entry for each line that matches
    the header grammar, in order; the text of an entry is the lines
    between its header and the next header, or the end, joined by
    newlines and stripped; the lines before the first header go to no
    entry.  Every entry has the three keys [channel], [dt] and [text],
    and neither the channel nor the text has white space at its ends. *)
Theorem parse_message_entries_spec (text : string) :
  _parse_message_entries text = messages_of_lines (Py.splitlines text)
  ∧ length (_parse_message_entries text)
    = length (List.filter is_message_header (Py.splitlines text))
  ∧ Forall (fun e : dict =>
              ∃ channel dt body,
                e = <["text" := body]> (<["dt" := dt]> (<["channel" := channel]> ∅))
                ∧ Py.strip channel = channel ∧ Py.strip body = body)
      (_parse_message_entries text).
Proof.
  assert (_parse_message_entries text = messages_of_lines (Py.splitlines text))
    as H.
  { unfold _parse_message_entries. by rewrite message_loop_invariant. }
  rewrite H. split_and!; [done | apply messages_of_lines_length |].
  apply messages_of_lines_text.
Qed.

(* LEMMAS *)

(** ** [strip(chars)] *)

Lemma lstrip_chars_suffix (chars s : string) :
  ∃ pre, s = pre +:+ Py.lstrip_chars chars s.
Proof.
  induction s as [|a s [pre IH]]; [by exists ""|].
  cbn [Py.lstrip_chars]. destruct (Py.mem_char a chars).
  - exists (String a pre). by rewrite append_cons, <- IH.
  - by exists "".
Qed.

Lemma lstrip_chars_head (chars s : string) :
  head_outside chars (Py.lstrip_chars chars s) = true.
Proof.
  induction s as [|a s IH]; [done|]. cbn [Py.lstrip_chars].
  destruct (Py.mem_char a chars) eqn:Ha; [done|].
  cbn [head_outside]. by rewrite Ha.
Qed.

Lemma lstrip_chars_kept (chars s : string) :
  head_outside chars s = true -> Py.lstrip_chars chars s = s.
Proof.
  destruct s as [|a s]; [done|]. cbn [head_outside Py.lstrip_chars].
  by intros ->%negb_true_iff.
Qed.

Lemma head_outside_prefix (chars t suffix : string) :
  head_outside chars (t +:+ suffix) = true -> head_outside chars t = true.
Proof. by destruct t. Qed.

Lemma strip_chars_ends (chars s : string) :
  head_outside chars (Py.strip_chars chars s) = true
  ∧ head_outside chars (String.rev (Py.strip_chars chars s)) = true.
Proof.
  unfold Py.strip_chars, Py.rstrip_chars. rewrite rev_involutive. split.
  - destruct (lstrip_chars_suffix chars (String.rev (Py.lstrip_chars chars s)))
      as [pre Hpre].
    apply (head_outside_prefix _ _ (String.rev pre)).
    rewrite <- rev_append, <- Hpre, rev_involutive.
    apply lstrip_chars_head.
  - apply lstrip_chars_head.
Qed.

Lemma strip_chars_idempotent (chars s : string) :
  Py.strip_chars chars (Py.strip_chars chars s) = Py.strip_chars chars s.
Proof.
  destruct (strip_chars_ends chars s) as [Hl Hr].
  unfold Py.strip_chars at 1. rewrite lstrip_chars_kept by done.
  unfold Py.rstrip_chars. rewrite lstrip_chars_kept by done.
  apply rev_involutive.
Qed.

(** ** The country *)

Lemma canonical_country_alias (norm v : string) :
  _COUNTRY_ALIASES !! norm = Some v ->
  _canonical_country (Some v) = Some v.
Proof.
  intros H. apply elem_of_list_to_map_2 in H.
  repeat (apply elem_of_cons in H as [H | H];
          [injection H as -> ->; reflexivity|]).
  by apply elem_of_nil in H.
Qed.

Lemma canonical_country_fixed (c v : string) :
  _canonical_country (Some c) = Some v -> _canonical_country (Some v) = Some v.
Proof.
  unfold _canonical_country at 1.
  destruct (Py.truthy c); cbn [negb]; [|done].
  destruct (Py.truthy (Py.lower (Py.strip c))) eqn:Hnorm; cbn [negb]; [|done].
  assert (Py.truthy (Py.strip c) = true) as Hs.
  { destruct (Py.truthy (Py.strip c)) eqn:Hs; [done|].
    apply truthy_false in Hs. by rewrite Hs in Hnorm. }
  assert (_canonical_country (Some (Py.strip c)) = Some (Py.strip c)
          ∨ truthy_opt (_COUNTRY_ALIASES !! Py.lower (Py.strip c)) = true)
    as Hfix.
  { unfold _canonical_country. rewrite strip_idempotent, Hs, Hnorm.
    cbn [negb].
    destruct (truthy_opt (_COUNTRY_ALIASES !! Py.lower (Py.strip c)));
      [by right | by left]. }
  destruct (_COUNTRY_ALIASES !! Py.lower (Py.strip c)) as [w|] eqn:Hw;
    cbn [truthy_opt] in *.
  - destruct (Py.truthy w) eqn:Htw.
    + intros [= <-]. by apply (canonical_country_alias (Py.lower (Py.strip c))).
    + intros [= <-]. by destruct Hfix.
  - intros [= <-]. by destruct Hfix.
Qed.

Lemma canonical_country_twice (country : option string) :
  _canonical_country (_canonical_country country) = _canonical_country country.
Proof.
  destruct country as [c|]; [|done].
  destruct (_canonical_country (Some c)) as [v|] eqn:Hv; [|done].
  by apply (canonical_country_fixed c).
Qed.

Lemma cache_key_canonical (place : string) (country : option string) :
  _cache_key place (_canonical_country country) = _cache_key place country.
Proof. unfold _cache_key. by rewrite canonical_country_twice. Qed.

(** X10.  The country is brought to its canonical name once and for all: doing
    it again changes nothing, so the key that [geocode_place] makes from
    the canonical country is the key of the place and the country as
    given. *)
Theorem canonical_country_idempotent (place : string) (country : option string) :
  _canonical_country (_canonical_country country) = _canonical_country country
  ∧ _cache_key place (_canonical_country country) = _cache_key place country.
Proof.
  split; [apply canonical_country_twice | apply cache_key_canonical].
Qed.

(** ** The list of queries *)

Lemma add_invariant (candidate : string) (qs : list string * gset string) :
  queries_invariant qs -> queries_invariant (_add candidate qs).
Proof.
  intros (Hnd & Hseen & Hq). unfold _add.
  destruct (Py.truthy (Py.strip_chars ", " candidate)) eqn:Hc; cbn [negb];
    [|done].
  destruct (decide (Py.lower (Py.strip_chars ", " candidate) ∈ qs.2))
    as [Hin | Hin]; [done|].
  unfold queries_invariant. cbn [fst snd]. rewrite fmap_app. split_and!.
  - apply NoDup_app. split_and!; [done | | apply NoDup_singleton].
    intros x Hx [->|[]%elem_of_nil]%elem_of_cons. by apply Hin, Hseen.
  - intros x. rewrite elem_of_union, elem_of_singleton, elem_of_app, Hseen.
    cbn [fmap list_fmap]. rewrite list_elem_of_singleton. tauto.
  - apply Forall_app. split; [done|]. apply Forall_singleton.
    split; [by apply truthy_true | apply strip_chars_idempotent].
Qed.

Lemma add_with_country_invariant (country : option string) (x : string)
    (qs : list string * gset string) :
  queries_invariant qs -> queries_invariant (add_with_country country x qs).
Proof.
  intros H. unfold add_with_country. destruct country as [c|].
  - destruct (Py.truthy c); by repeat apply add_invariant.
  - by apply add_invariant.
Qed.

(** X11.  The queries of [_build_queries]: no two are equal in lower case,
    none is empty, none has a comma or a space at either end. *)
Theorem build_queries_distinct (place : string) (country : option string) :
  NoDup (Py.lower <$> _build_queries place country)
  ∧ Forall (fun q => q ≠ EmptyString ∧ Py.strip_chars ", " q = q)
      (_build_queries place country).
Proof.
  assert (queries_invariant ([], ∅)) as H0.
  { split_and!; [constructor | | constructor].
    intros x. cbn [fst snd fmap list_fmap]. set_solver. }
  unfold _build_queries.
  set (qs1 := if Py.truthy (_sanitize_place place)
              then add_with_country country (_sanitize_place place) ([], ∅)
              else ([], ∅)).
  assert (queries_invariant qs1) as H1.
  { unfold qs1. destruct (Py.truthy _); [by apply add_with_country_invariant | done]. }
  clearbody qs1.
  assert (∀ l qs, queries_invariant qs ->
            queries_invariant
              (foldl (fun qs extra => add_with_country country extra qs) qs l))
    as Hfold.
  { induction l as [|x l IH]; intros qs Hqs; [done|].
    cbn [foldl]. by apply IH, add_with_country_invariant. }
  specialize (Hfold (_iter_alt_tokens place) qs1 H1).
  set (qs2 := foldl _ qs1 _) in *. clearbody qs2.
  assert (queries_invariant
            match qs2.1, country with
            | [], Some c => if Py.truthy c then _add c qs2 else qs2
            | _, _ => qs2
            end) as (Hnd & _ & Hq).
  { destruct qs2.1; [|done]. destruct country as [c|]; [|done].
    destruct (Py.truthy c); [by apply add_invariant | done]. }
  done.
Qed.

(** ** What a resolution does *)

Section ResolverEffects.

Context {float : Type} {floats : Floats float} {World : Type}.

Variable _nominatim_search :
  string -> World -> search_outcome (@nominatim_item float) * World.

Lemma query_loop_effects (key : string) (canonical_country : option string)
    (queries : list string) (st : @state float World) :
  incidentes (query_loop _nominatim_search key canonical_country queries st).2
  = incidentes st
  ∧ match (query_loop _nominatim_search key canonical_country queries st).1 with
    | None =>
        geocache (query_loop _nominatim_search key canonical_country queries st).2
        = geocache st
    | Some (lat, lon, admin1, admin2, accuracy, source) =>
        source = "nominatim" ∧ is_Some lat ∧ is_Some lon
        ∧ geocache (query_loop _nominatim_search key canonical_country queries st).2
          = <[key := CacheEntry (sql_real lat) (sql_real lon)
                       canonical_country admin1 admin2 accuracy "nominatim"]>
              (geocache st)
    end.
Proof.
  revert st. induction queries as [|query rest IH]; intros st; [done|].
  cbn [query_loop]. unfold search.
  destruct (_nominatim_search query (world (log (Sleep 1050) st)))
    as [out w] eqn:Hout.
  assert (∀ st2, incidentes st2 = incidentes st -> geocache st2 = geocache st ->
    incidentes (query_loop _nominatim_search key canonical_country rest st2).2
    = incidentes st
    ∧ match (query_loop _nominatim_search key canonical_country rest st2).1 with
      | None =>
          geocache (query_loop _nominatim_search key canonical_country rest st2).2
          = geocache st
      | Some (lat, lon, admin1, admin2, accuracy, source) =>
          source = "nominatim" ∧ is_Some lat ∧ is_Some lon
          ∧ geocache (query_loop _nominatim_search key canonical_country rest st2).2
            = <[key := CacheEntry (sql_real lat) (sql_real lon)
                         canonical_country admin1 admin2 accuracy
                         "nominatim"]>
                (geocache st)
      end) as Hrest.
  { intros st2 <- <-. apply IH. }
  destruct out as [code | | | item].
  - destruct ((code =? 429) || (code =? 503)); [by apply Hrest | done].
  - by apply Hrest.
  - by apply Hrest.
  - destruct (item_lat item) as [lat|]; [|by apply Hrest].
    destruct (item_lon item) as [lon|]; [|by apply Hrest]. done.
Qed.

Lemma answers_queries {item : Type}
    (search : string -> World -> search_outcome item * World)
    (queries : list string) (w : World) :
  (answers search queries w).*1 = queries.
Proof.
  revert w. induction queries as [|query rest IH]; intros w; [done|].
  cbn [answers]. destruct (search query w) as [out w'].
  cbn [fmap list_fmap fst]. f_equal. apply IH.
Qed.

(** The events of a run of the loop over the queries: for each query
    asked, in the order of the list, a pause, the request and, when the
    answer to this request is the status 429 or 503, the wait. *)
Lemma query_loop_trace (key : string) (canonical_country : option string)
    (queries : list string) (st : @state float World) :
  ∃ asked,
    asked `prefix_of` answers _nominatim_search queries (world st)
    ∧ trace (query_loop _nominatim_search key canonical_country queries st).2
      = trace st ++ flat_map request_events asked.
Proof.
  revert st. induction queries as [|query rest IH]; intros st.
  { exists []. cbn. by rewrite app_nil_r. }
  cbn [query_loop answers]. unfold search.
  change (world (log (Sleep 1050) st)) with (world st).
  destruct (_nominatim_search query (world st)) as [out w] eqn:Hout.
  set (st1 := State (incidentes (log (Sleep 1050) st))
                (geocache (log (Sleep 1050) st)) w
                (trace (log (Sleep 1050) st) ++ [Search query])).
  assert (∀ asked,
    trace st1 ++ (if rate_limited out then [Sleep 5000] else [])
      ++ flat_map request_events asked
    = trace st ++ flat_map request_events ((query, out) :: asked))
    as Htrace.
  { intros asked. unfold st1, log. cbn [trace flat_map].
    unfold request_events at 2, pause_and_request. cbn [fst snd].
    by rewrite <- !app_assoc. }
  assert (∀ st2,
    world st2 = w ->
    trace st2 = trace st1 ++ (if rate_limited out then [Sleep 5000] else []) ->
    ∃ asked,
      asked `prefix_of` (query, out) :: answers _nominatim_search rest w
      ∧ trace (query_loop _nominatim_search key canonical_country rest st2).2
        = trace st ++ flat_map request_events asked) as Hrest.
  { intros st2 Hw Hst2. destruct (IH st2) as (asked & Hp & Ht).
    exists ((query, out) :: asked). split.
    - rewrite Hw in Hp. by apply prefix_cons.
    - by rewrite Ht, Hst2, <- Htrace, <- app_assoc. }
  assert (rate_limited out = false ->
    ∃ asked,
      asked `prefix_of` (query, out) :: answers _nominatim_search rest w
      ∧ trace st1 = trace st ++ flat_map request_events asked) as Hstop.
  { intros Hout'. exists [(query, out)]. split.
    - apply prefix_cons, prefix_nil.
    - rewrite <- (Htrace []), Hout'. cbn. by rewrite !app_nil_r. }
  destruct out as [code | | | item].
  - cbn [rate_limited] in *.
    destruct ((code =? 429) || (code =? 503)); [|by apply Hstop].
    by apply Hrest.
  - apply Hrest; [done|]. cbn. by rewrite app_nil_r.
  - apply Hrest; [done|]. cbn. by rewrite app_nil_r.
  - destruct (item_lat item) as [lat|];
      [|apply Hrest; [done|]; cbn; by rewrite app_nil_r].
    destruct (item_lon item) as [lon|];
      [|apply Hrest; [done|]; cbn; by rewrite app_nil_r].
    by apply Hstop.
Qed.

(** X13.  [geocode_place] never touches the ledger.  It answers nothing for a
    blank place, and then does nothing.  It changes the cache only when
    it succeeds online: a result comes either from the cache, the state
    being left as it is, or from Nominatim, with two floats as its
    coordinates, and is then stored under the key of the place and the
    country, a coordinate that is not a number as [NULL]; a place that
    could not be resolved leaves no entry. *)
Theorem geocode_place_effects (place : string) (country : option string)
    (st : @state float World) :
  let result := geocode_place _nominatim_search place country st in
  let key := _cache_key place country in
  incidentes result.2 = incidentes st
  ∧ (Py.strip place = EmptyString -> result = (None, st))
  ∧ match result.1 with
    | None => geocache result.2 = geocache st
    | Some (lat, lon, admin1, admin2, accuracy, source) =>
        (source = "cache" ∧ result.2 = st
         ∧ ∃ e, geocache st !! key = Some e
                ∧ (lat, lon, admin1, admin2, accuracy)
                  = (gc_lat e, gc_lon e, gc_admin1 e, gc_admin2 e,
                     gc_accuracy e))
        ∨ (source = "nominatim" ∧ geocache st !! key = None
           ∧ is_Some lat ∧ is_Some lon
           ∧ geocache result.2
             = <[key := CacheEntry (sql_real lat) (sql_real lon)
                          (_canonical_country country) admin1 admin2 accuracy
                          "nominatim"]>
                 (geocache st))
    end.
Proof.
  cbn zeta. unfold geocode_place.
  destruct (negb (Py.truthy place) || negb (Py.truthy (Py.strip place)))
    eqn:Hblank; [done|].
  split_and!.
  - destruct (geocache_get _ st) as [[[[[[lat lon] c] a1] a2] acc]|]; [done|].
    destruct (negb USE_ONLINE_GEOCODER); [done|].
    destruct (_build_queries place (_canonical_country country)); [done|].
    apply query_loop_effects.
  - intros Hs. rewrite Hs in Hblank. by rewrite orb_true_r in Hblank.
  - rewrite cache_key_canonical.
    unfold geocache_get.
    destruct (geocache st !! _cache_key place country) as [e|] eqn:He;
      cbn [fmap option_fmap option_map].
    { left. split_and!; [done..|]. by exists e. }
    destruct (negb USE_ONLINE_GEOCODER); [done|].
    destruct (_build_queries place (_canonical_country country)) as [|q qs];
      [done|].
    pose proof (query_loop_effects (_cache_key place country)
                  (_canonical_country country) (q :: qs) st) as [_ H].
    destruct (query_loop _ _ _ _ _).1 as [[[[[[lat lon] a1] a2] acc] src]|];
      [|done].
    right. by destruct H as (-> & ? & ? & ->).
Qed.

(** X14.  The requests of a resolution.  Every request is made after a pause
    of 1.05 s; the queries requested are the first queries of
    [_build_queries], in order and each once, and each is answered as
    the online geocoder answers it at that moment; a 5 s wait follows
    exactly the requests whose answer is the status 429 or 503, and
    nothing else is done.  A place found in the cache costs no request
    and no pause. *)
Theorem geocode_place_requests (place : string) (country : option string)
    (st : @state float World) :
  ∃ asked,
    asked `prefix_of`
      answers _nominatim_search
        (_build_queries place (_canonical_country country)) (world st)
    ∧ asked.*1 `prefix_of` _build_queries place (_canonical_country country)
    ∧ trace (geocode_place _nominatim_search place country st).2
      = trace st
        ++ flat_map
             (fun a =>
                [Sleep 1050; Search a.1]
                ++ (if rate_limited a.2 then [Sleep 5000] else []))
             asked
    ∧ (is_Some (geocache st !! _cache_key place country) -> asked = []).
Proof.
  assert (∀ asked : list (string * search_outcome (@nominatim_item float)),
            asked `prefix_of`
              answers _nominatim_search
                (_build_queries place (_canonical_country country)) (world st) ->
            asked.*1 `prefix_of`
              _build_queries place (_canonical_country country)) as Hfst.
  { intros asked [rest Hp]. exists (rest.*1).
    by rewrite <- fmap_app, <- Hp, answers_queries. }
  assert (∃ asked : list (string * search_outcome (@nominatim_item float)),
            asked `prefix_of`
              answers _nominatim_search
                (_build_queries place (_canonical_country country)) (world st)
            ∧ asked.*1 `prefix_of`
                _build_queries place (_canonical_country country)
            ∧ trace st
              = trace st
                ++ flat_map
                     (fun a =>
                        [Sleep 1050; Search a.1]
                        ++ (if rate_limited a.2 then [Sleep 5000] else []))
                     asked
            ∧ (is_Some (geocache st !! _cache_key place country) ->
               asked = []))
    as Hnothing.
  { exists []. cbn. rewrite app_nil_r.
    split_and!; [apply prefix_nil | apply prefix_nil | done | done]. }
  unfold geocode_place.
  destruct (negb (Py.truthy place) || negb (Py.truthy (Py.strip place)));
    [done|].
  rewrite cache_key_canonical.
  unfold geocache_get.
  destruct (geocache st !! _cache_key place country) as [e|] eqn:He;
    cbn [fmap option_fmap option_map].
  { by destruct e. }
  destruct (negb USE_ONLINE_GEOCODER); [done|].
  destruct (_build_queries place (_canonical_country country)) as [|q qs] eqn:Hq;
    [done|].
  destruct (query_loop_trace (_cache_key place country)
              (_canonical_country country) (q :: qs) st) as (asked & Hp & Ht).
  exists asked. split_and!; [done | by apply Hfst | done |]. by intros [? [=]].
Qed.

End ResolverEffects.

(** ** Sanitized places *)

Lemma sanitize_place_ends (place : string) :
  Py.strip_chars " ,;:-" (_sanitize_place place) = _sanitize_place place.
Proof. unfold _sanitize_place. apply strip_chars_idempotent. Qed.

(** X12.  [_sanitize_place] leaves no space, comma, semicolon, colon or hyphen
    at either end of its result, and every token of [_iter_alt_tokens]
    is such a result, and is not empty. *)
Theorem sanitized_tokens (place : string) :
  Py.strip_chars " ,;:-" (_sanitize_place place) = _sanitize_place place
  ∧ Forall (fun token =>
              token ≠ EmptyString
              ∧ (∃ piece, token = _sanitize_place piece)
              ∧ Py.strip_chars " ,;:-" token = token)
      (_iter_alt_tokens place).
Proof.
  split; [apply sanitize_place_ends|].
  assert (∀ pieces,
            Forall (fun token =>
                      token ≠ EmptyString
                      ∧ (∃ piece, token = _sanitize_place piece)
                      ∧ Py.strip_chars " ,;:-" token = token)
              (List.filter Py.truthy (List.map _sanitize_place pieces)))
    as Hpieces.
  { intros pieces. apply Forall_forall. intros token Htoken.
    apply list_elem_of_In, filter_In in Htoken as [Hin Htruthy].
    apply in_map_iff in Hin as (piece & <- & _).
    split_and!; [by apply truthy_true | by exists piece |].
    apply sanitize_place_ends. }
  unfold _iter_alt_tokens. rewrite !Forall_app. split_and!.
  - apply Hpieces.
  - destruct (Py.contains "," place); [|constructor].
    apply Forall_app. split.
    + destruct (Py.truthy _) eqn:Hh; [|constructor].
      apply Forall_singleton.
      split_and!; [by apply truthy_true | by eexists |].
      apply sanitize_place_ends.
    + destruct (Py.truthy _ && _) eqn:Ht; [|constructor].
      apply andb_true_iff in Ht as [Ht _]. apply Forall_singleton.
      split_and!; [by apply truthy_true | by eexists |].
      apply sanitize_place_ends.
  - destruct (Py.contains "/" place); [apply Hpieces | constructor].
Qed.

(** ** The ledger *)

Section Ledger.

Context {float : Type} {floats : Floats float} {World : Type}.

Variable _nominatim_search :
  string -> World -> search_outcome (@nominatim_item float) * World.

Lemma next_id_above (rows : list (@incidente float)) :
  Forall (fun row => inc_id row < next_id rows) rows.
Proof.
  unfold next_id. induction rows as [|row rows IH]; [constructor|].
  cbn [foldr]. constructor; [lia|].
  eapply Forall_impl; [exact IH|]. intros r Hr. cbn beta in *. lia.
Qed.

Lemma incidente_exists_identities (pais categoria descripcion : string)
    (place : option string) (st st' : @state float World) :
  identities st ⊆ identities st' ->
  incidente_exists pais categoria descripcion place st = true ->
  incidente_exists pais categoria descripcion place st' = true.
Proof.
  intros Hsub. rewrite !incidente_exists_normalized.
  rewrite !list_elem_of_fmap. intros (i & Hi & Hin). exists i.
  split; [done|]. by apply Hsub.
Qed.

Lemma add_incidente_identities (pais categoria descripcion fuente : string)
    (lat lon : option float) (place : option string)
    (st : @state float World) :
  identities (add_incidente pais categoria descripcion fuente lat lon place st).2
  = identities st ++ [(pais, categoria, descripcion, place)].
Proof. unfold add_incidente, identities. cbn [snd incidentes]. by rewrite fmap_app. Qed.

(** X15.  What has been written can be found: right after [add_incidente], the
    existence check on the same country, category, description and place
    answers yes, provided the description and the place have no white
    space at their ends but spaces, which SQLite's [TRIM] removes as
    Python's [strip] does.  And nothing is forgotten: whatever the check
    found before, it finds after. *)
Theorem add_incidente_then_exists (pais categoria descripcion fuente : string)
    (lat lon : option float) (place : option string)
    (st : @state float World) :
  sql_trim descripcion = Py.strip descripcion ->
  sql_trim (default EmptyString place) = Py.strip (default EmptyString place) ->
  let st' :=
    (add_incidente pais categoria descripcion fuente lat lon place st).2 in
  incidente_exists pais categoria descripcion place st' = true
  ∧ ∀ pais0 categoria0 descripcion0 place0,
      incidente_exists pais0 categoria0 descripcion0 place0 st = true ->
      incidente_exists pais0 categoria0 descripcion0 place0 st' = true.
Proof.
  intros Hd Hp. cbn zeta. split.
  - apply incidente_exists_normalized. rewrite add_incidente_identities.
    rewrite fmap_app. apply elem_of_app. right. cbn [fmap list_fmap].
    apply list_elem_of_singleton. unfold normalized. cbn [fst snd].
    by rewrite Hd, Hp.
  - intros pais0 categoria0 descripcion0 place0.
    apply incidente_exists_identities. rewrite add_incidente_identities.
    intros i Hi. apply elem_of_app. by left.
Qed.

(** *** Registering a batch again *)

Lemma registrar_loop_identities_grow (pais : string)
    (incs : list (@candidate float)) (n : Z) (st : @state float World) :
  identities st ⊆ identities (registrar_loop pais incs n st).2.
Proof.
  destruct (registrar_loop_spec pais incs n st) as (added & -> & _).
  intros i Hi. apply elem_of_app. by left.
Qed.

(** After the loop, the existence check finds every candidate of the
    batch that has a description. *)
Lemma registrar_loop_registered (pais : string)
    (incs : list (@candidate float)) (n : Z) (st : @state float World) :
  Forall plain_place incs ->
  Forall (fun inc =>
            Py.truthy (candidate_descripcion inc) = true ->
            incidente_exists pais
              (default "Otros"
                 (Py.or_opt (Py.or_opt (c_categoria inc) (c_categoria_sicu inc))
                    (Some "Otros")))
              (candidate_descripcion inc) (candidate_place inc)
              (registrar_loop pais incs n st).2 = true)
    incs.
Proof.
  revert n st. induction incs as [|inc rest IH]; intros n st Hplain;
    [constructor|].
  apply Forall_cons in Hplain as [Hinc Hrest]. constructor; [|].
  - intros Hd. cbn [registrar_loop]. fold (candidate_descripcion inc).
    rewrite Hd. cbn [negb]. fold (candidate_place inc).
    destruct (incidente_exists _ _ _ _ st) eqn:Hex.
    + eapply incidente_exists_identities; [|exact Hex].
      apply registrar_loop_identities_grow.
    + match goal with
      | |- context [add_incidente ?p ?c ?d ?f ?la ?lo ?pl st] =>
          pose proof (add_incidente_identities p c d f la lo pl st) as Hid;
          destruct (add_incidente p c d f la lo pl st) as [rowid st1]
      end.
      cbn [snd] in Hid.
      eapply incidente_exists_identities;
        [apply registrar_loop_identities_grow|].
      apply incidente_exists_normalized. rewrite Hid, fmap_app.
      apply elem_of_app. right. cbn [fmap list_fmap].
      apply list_elem_of_singleton. unfold normalized. cbn [fst snd].
      unfold candidate_descripcion. rewrite strip_idempotent, sql_trim_strip.
      unfold plain_place in Hinc. by rewrite Hinc.
  - cbn [registrar_loop].
    destruct (negb (Py.truthy (Py.strip _))); [by apply IH|].
    destruct (incidente_exists _ _ _ _ st); [by apply IH|].
    destruct (add_incidente _ _ _ _ _ _ _ st) as [rowid st1]. by apply IH.
Qed.

(** A batch all of whose candidates are found writes nothing. *)
Lemma registrar_loop_nothing (pais : string)
    (incs : list (@candidate float)) (n : Z) (st : @state float World) :
  Forall (fun inc =>
            Py.truthy (candidate_descripcion inc) = true ->
            incidente_exists pais
              (default "Otros"
                 (Py.or_opt (Py.or_opt (c_categoria inc) (c_categoria_sicu inc))
                    (Some "Otros")))
              (candidate_descripcion inc) (candidate_place inc) st = true)
    incs ->
  registrar_loop pais incs n st = (n, st).
Proof.
  revert n. induction incs as [|inc rest IH]; intros n Hall; [done|].
  apply Forall_cons in Hall as [Hinc Hrest]. cbn [registrar_loop].
  fold (candidate_descripcion inc). fold (candidate_place inc).
  destruct (Py.truthy (candidate_descripcion inc)); cbn [negb];
    [|by apply IH].
  rewrite Hinc by done. by apply IH.
Qed.

(** X17.  Registering a batch a second time writes nothing: when no candidate
    has a place with white space other than spaces at its ends, the
    second run, whatever the first left to the resolver, returns the
    count 0 and leaves every row of the ledger with its country,
    category, description and place. *)
Theorem registrar_batch_again (pais : string) (incs : list (@candidate float))
    (resolver1 resolver2 : bool) (hint1 hint2 : option string)
    (st : @state float World) :
  Forall plain_place incs ->
  let first :=
    registrar_incidentes_desde_lista _nominatim_search pais incs resolver1
      hint1 st in
  let second :=
    registrar_incidentes_desde_lista _nominatim_search pais incs resolver2
      hint2 first.2 in
  second.1 = 0 ∧ identities second.2 = identities first.2.
Proof.
  intros Hplain. cbn zeta.
  set (st1 := (registrar_incidentes_desde_lista _nominatim_search pais incs
                 resolver1 hint1 st).2).
  assert (identities (registrar_loop pais incs 0 st).2 = identities st1) as Hid.
  { unfold st1, registrar_incidentes_desde_lista.
    destruct (registrar_loop pais incs 0 st) as [n st0]. cbn [snd].
    destruct resolver1; [|done].
    by rewrite resolve_missing_coords_identities. }
  pose proof (registrar_loop_registered pais incs 0 st Hplain) as Hreg.
  assert (registrar_loop pais incs 0 st1 = (0, st1)) as Hloop.
  { apply registrar_loop_nothing. eapply Forall_impl; [exact Hreg|].
    intros inc Hinc Hd. eapply incidente_exists_identities; [|by apply Hinc].
    by rewrite Hid. }
  unfold registrar_incidentes_desde_lista at 1 2. rewrite Hloop. cbn [fst snd].
  split; [done|]. destruct resolver2; [|done].
  by rewrite resolve_missing_coords_identities.
Qed.

(** *** The resolver pass *)

Lemma update_incidente_geocode_ids (incidente_id : Z) (lat lon : option float)
    (admin1 admin2 accuracy : option string) (source : string)
    (st : @state float World) :
  ids (update_incidente_geocode incidente_id lat lon admin1 admin2 accuracy
         source st)
  = ids st.
Proof.
  unfold ids, update_incidente_geocode. cbn [incidentes].
  change (List.map ?f ?l) with (f <$> l).
  rewrite <- list_fmap_compose. apply list_fmap_ext. intros i row _. simpl.
  by destruct (inc_id row =? incidente_id).
Qed.

(** The rows the update leaves as they are: all but the row of the id. *)
Lemma update_incidente_geocode_other (incidente_id : Z) (lat lon : option float)
    (admin1 admin2 accuracy : option string) (source : string)
    (st : @state float World) (row : @incidente float) :
  row ∈ incidentes st -> inc_id row ≠ incidente_id ->
  row ∈ incidentes
          (update_incidente_geocode incidente_id lat lon admin1 admin2
             accuracy source st).
Proof.
  intros Hin Hid. unfold update_incidente_geocode. cbn [incidentes].
  change (List.map ?f ?l) with (f <$> l). apply list_elem_of_fmap.
  exists row. split; [|done].
  destruct (inc_id row =? incidente_id) eqn:Heq; [lia | done].
Qed.

Lemma sql_real_is_none (x : option float) :
  is_none (sql_real x) = negb (is_number x).
Proof. destruct x as [v|]; [|done]. cbn. by destruct (is_nan v). Qed.

Lemma sql_real_number (x : option float) :
  is_number x = true -> sql_real x = x.
Proof. destruct x as [v|]; [|done]. cbn. by destruct (is_nan v). Qed.

(** Updating a pending row of a ledger without repeated ids touches
    that row only: it leaves the pending rows, or stays among them when
    a coordinate is stored as [NULL]. *)
Lemma update_pending (inc : @incidente float) (lat lon : option float)
    (admin1 admin2 accuracy : option string) (source : string)
    (st : @state float World) :
  NoDup (ids st) -> inc ∈ get_incidentes_pendientes st ->
  let st' :=
    update_incidente_geocode (inc_id inc) lat lon admin1 admin2 accuracy
      source st in
  inc_id <$> get_incidentes_pendientes st'
  `sublist_of` inc_id <$> get_incidentes_pendientes st
  ∧ (length (get_incidentes_pendientes st)
     <= S (length (get_incidentes_pendientes st')))%nat
  ∧ (is_number lat = true -> is_number lon = true ->
     get_incidentes_pendientes st' `sublist_of` get_incidentes_pendientes st
     ∧ length (get_incidentes_pendientes st)
       = S (length (get_incidentes_pendientes st'))).
Proof.
  unfold get_incidentes_pendientes, update_incidente_geocode, ids.
  cbn [incidentes]. generalize (incidentes st). clear st.
  intros rows. induction rows as [|row rows IH]; intros Hnd Hin.
  { cbn in Hin. by apply elem_of_nil in Hin. }
  cbn [fmap list_fmap] in Hnd. apply NoDup_cons in Hnd as [Hrow Hnd].
  cbn [List.map List.filter].
  destruct (inc_id row =? inc_id inc) eqn:Heq.
  - (* the row of the id: it is [inc], and the rest is untouched *)
    assert (List.map
              (fun row0 =>
                 if inc_id row0 =? inc_id inc
                 then Incidente (inc_id row0) (inc_pais row0)
                        (inc_categoria row0) (inc_descripcion row0)
                        (inc_fuente row0) (sql_real lat) (sql_real lon)
                        (inc_place row0) admin1 admin2 accuracy (Some source)
                 else row0) rows = rows) as ->.
    { rewrite <- (map_id rows) at 2. apply map_ext_in. intros r Hr.
      destruct (inc_id r =? inc_id inc) eqn:Hr'; [|done].
      exfalso. apply Hrow. apply list_elem_of_fmap. exists r.
      split; [lia | by apply list_elem_of_In]. }
    cbn [inc_lat inc_lon inc_place inc_id].
    assert (row = inc) as ->.
    { cbn [List.filter] in Hin.
      destruct (_ && _) in Hin.
      - apply elem_of_cons in Hin as [->|Hin]; [done|].
        exfalso. apply Hrow. apply list_elem_of_fmap. exists inc.
        split; [lia|]. apply list_elem_of_In.
        apply list_elem_of_In in Hin. by apply filter_In in Hin as [? _].
      - exfalso. apply Hrow. apply list_elem_of_fmap. exists inc.
        split; [lia|]. apply list_elem_of_In.
        apply list_elem_of_In in Hin. by apply filter_In in Hin as [? _]. }
    assert ((is_none (inc_lat inc) || is_none (inc_lon inc))
            && match inc_place inc with
               | Some p => negb (String.eqb (sql_trim p) EmptyString)
               | None => false
               end = true) as Hpend.
    { cbn [List.filter] in Hin. destruct (_ && _) eqn:Hp; [done|].
      exfalso. apply Hrow. apply list_elem_of_fmap. exists inc.
      split; [done|]. apply list_elem_of_In.
      apply list_elem_of_In in Hin. by apply filter_In in Hin as [? _]. }
    rewrite Hpend. apply andb_true_iff in Hpend as [_ ->].
    rewrite andb_true_r, !sql_real_is_none.
    destruct (is_number lat), (is_number lon); cbn [negb orb];
      cbn [fmap list_fmap length inc_id].
    + split_and!; [by apply sublist_cons | lia |].
      intros _ _. split; [by apply sublist_cons | done].
    + split_and!; [done | lia | done].
    + split_and!; [done | lia | done].
    + split_and!; [done | lia | done].
  - assert (inc ∈ List.filter
              (fun row0 =>
                 (is_none (inc_lat row0) || is_none (inc_lon row0))
                 && match inc_place row0 with
                    | Some p => negb (String.eqb (sql_trim p) EmptyString)
                    | None => false
                    end) rows) as Hin'.
    { cbn [List.filter] in Hin. destruct (_ && _) in Hin; [|done].
      apply elem_of_cons in Hin as [->|Hin]; [lia | done]. }
    destruct (IH Hnd Hin') as (Hsub & Hle & Hnum).
    destruct (_ && _).
    + cbn [fmap list_fmap length]. split_and!; [by apply sublist_skip | lia |].
      intros Hlat Hlon. destruct (Hnum Hlat Hlon) as [Hs Hl].
      split; [by apply sublist_skip | by rewrite Hl].
    + done.
Qed.

Lemma elem_of_pendientes (st : @state float World) (row : @incidente float) :
  row ∈ get_incidentes_pendientes st
  <-> row ∈ incidentes st ∧ pendiente row = true.
Proof.
  unfold get_incidentes_pendientes. rewrite !list_elem_of_In.
  apply filter_In.
Qed.

Lemma get_incidentes_pendientes_incidentes (st st' : @state float World) :
  incidentes st' = incidentes st ->
  get_incidentes_pendientes st' = get_incidentes_pendientes st.
Proof. unfold get_incidentes_pendientes. by intros ->. Qed.

(** Where the geocoder answers with numbers, the cache holds numbers
    still after a resolution, and the coordinates found are numbers. *)
Lemma query_loop_numbers (key : string) (canonical_country : option string)
    (queries : list string) (st : @state float World) :
  answers_numbers _nominatim_search -> cache_numbers st ->
  let result :=
    query_loop _nominatim_search key canonical_country queries st in
  cache_numbers result.2
  ∧ ∀ lat lon admin1 admin2 accuracy source,
      result.1 = Some (lat, lon, admin1, admin2, accuracy, source) ->
      is_number lat = true ∧ is_number lon = true.
Proof.
  intros Hans. cbn zeta. revert st.
  induction queries as [|query rest IH]; intros st Hst; [done|].
  cbn [query_loop]. unfold search.
  destruct (_nominatim_search query (world (log (Sleep 1050) st)))
    as [out w] eqn:Hout.
  assert (∀ st2 : @state float World,
            geocache st2 = geocache st -> cache_numbers st2) as Hsame.
  { intros st2 Hst2. unfold cache_numbers. by rewrite Hst2. }
  destruct out as [code | | | item].
  - destruct ((code =? 429) || (code =? 503)); [|by split].
    by apply IH, Hsame.
  - by apply IH, Hsame.
  - by apply IH, Hsame.
  - destruct (Hans _ _ _ _ Hout) as [Hlat Hlon].
    destruct (item_lat item) as [lat|]; [|by apply IH, Hsame].
    destruct (item_lon item) as [lon|]; [|by apply IH, Hsame].
    specialize (Hlat lat eq_refl). specialize (Hlon lon eq_refl).
    cbn [fst snd]. split.
    + unfold cache_numbers, geocache_put. cbn [geocache sql_real].
      rewrite Hlat, Hlon. apply map_Forall_insert_2; [|done].
      cbn [gc_lat gc_lon is_number]. by rewrite Hlat, Hlon.
    + intros ? ? ? ? ? ? [= <- <- <- <- <- <-]. cbn [is_number].
      by rewrite Hlat, Hlon.
Qed.

Lemma geocode_place_numbers (place : string) (country : option string)
    (st : @state float World) :
  answers_numbers _nominatim_search -> cache_numbers st ->
  let result := geocode_place _nominatim_search place country st in
  cache_numbers result.2
  ∧ ∀ lat lon admin1 admin2 accuracy source,
      result.1 = Some (lat, lon, admin1, admin2, accuracy, source) ->
      is_number lat = true ∧ is_number lon = true.
Proof.
  intros Hans Hst. cbn zeta. unfold geocode_place.
  destruct (negb (Py.truthy place) || negb (Py.truthy (Py.strip place)));
    [by split|].
  unfold geocache_get.
  destruct (geocache st !! _) as [e|] eqn:He;
    cbn [fmap option_fmap option_map].
  { split; [done|]. intros ? ? ? ? ? ? [= <- <- <- <- <- <-].
    by apply (Hst _ _ He). }
  destruct (negb USE_ONLINE_GEOCODER); [by split|].
  destruct (_build_queries place (_canonical_country country)); [by split|].
  by apply query_loop_numbers.
Qed.

Lemma resolve_loop_count (hint : option string)
    (pendientes : list (@incidente float)) (count : Z)
    (st : @state float World) :
  NoDup (ids st) -> NoDup (inc_id <$> pendientes) ->
  Forall (fun inc => inc ∈ get_incidentes_pendientes st) pendientes ->
  let result := resolve_loop _nominatim_search hint pendientes count st in
  count <= result.1 <= count + Z.of_nat (length pendientes)
  ∧ inc_id <$> get_incidentes_pendientes result.2
    `sublist_of` inc_id <$> get_incidentes_pendientes st
  ∧ Z.of_nat (length (get_incidentes_pendientes st))
    <= Z.of_nat (length (get_incidentes_pendientes result.2))
       + (result.1 - count)
  ∧ ids result.2 = ids st
  ∧ (answers_numbers _nominatim_search -> cache_numbers st ->
     get_incidentes_pendientes result.2
     `sublist_of` get_incidentes_pendientes st
     ∧ Z.of_nat (length (get_incidentes_pendientes st))
       = Z.of_nat (length (get_incidentes_pendientes result.2))
         + (result.1 - count)).
Proof.
  cbn zeta. revert count st.
  induction pendientes as [|inc rest IH]; intros count st Hst Hnd Hall.
  { cbn [resolve_loop fst snd length].
    split_and!; [lia | lia | done | lia | done |]. intros _ _. split; [done | lia]. }
  cbn [fmap list_fmap] in Hnd. apply NoDup_cons in Hnd as [Hinc Hnd].
  apply Forall_cons in Hall as [Hpend Hrest].
  assert (∀ st1,
    incidentes st1 = incidentes st ->
    (answers_numbers _nominatim_search -> cache_numbers st ->
     cache_numbers st1) ->
    count <= (resolve_loop _nominatim_search hint rest count st1).1
          <= count + Z.of_nat (length (inc :: rest))
    ∧ inc_id <$> get_incidentes_pendientes
                   (resolve_loop _nominatim_search hint rest count st1).2
      `sublist_of` inc_id <$> get_incidentes_pendientes st
    ∧ Z.of_nat (length (get_incidentes_pendientes st))
      <= Z.of_nat (length (get_incidentes_pendientes
                             (resolve_loop _nominatim_search hint rest count st1).2))
         + ((resolve_loop _nominatim_search hint rest count st1).1 - count)
    ∧ ids (resolve_loop _nominatim_search hint rest count st1).2 = ids st
    ∧ (answers_numbers _nominatim_search -> cache_numbers st ->
       get_incidentes_pendientes
         (resolve_loop _nominatim_search hint rest count st1).2
       `sublist_of` get_incidentes_pendientes st
       ∧ Z.of_nat (length (get_incidentes_pendientes st))
         = Z.of_nat (length (get_incidentes_pendientes
                               (resolve_loop _nominatim_search hint rest count st1).2))
           + ((resolve_loop _nominatim_search hint rest count st1).1 - count)))
    as Hskip.
  { intros st1 Hst1 Hcache.
    pose proof (get_incidentes_pendientes_incidentes st st1 Hst1) as Hp.
    assert (ids st1 = ids st) as Hids by (unfold ids; by rewrite Hst1).
    destruct (IH count st1) as (Hle & Hsub & Hlen & Hids' & Hnum).
    - by rewrite Hids.
    - done.
    - by rewrite Hp.
    - rewrite Hp in Hsub, Hlen, Hnum. rewrite Hids in Hids'.
      cbn [length]. split_and!; [lia | lia | done | done | done |].
      intros Hans Hc. by apply Hnum, Hcache. }
  cbn [resolve_loop].
  destruct (inc_place inc) as [place|]; [|by apply Hskip].
  destruct (negb (Py.truthy place)); [by apply Hskip|].
  pose proof (geocode_place_incidentes _nominatim_search place
                (Py.or_opt (Some (inc_pais inc)) hint) st) as Hgeo.
  pose proof (geocode_place_numbers place
                (Py.or_opt (Some (inc_pais inc)) hint) st) as Hgnum.
  cbn zeta in Hgnum.
  destruct (geocode_place _nominatim_search place
              (Py.or_opt (Some (inc_pais inc)) hint) st)
    as [[[[[[[lat lon] a1] a2] acc] src]|] st1]; cbn [fst snd] in Hgeo, Hgnum;
    [|apply Hskip; [done|]; intros Hans Hc; by apply Hgnum].
  pose proof (get_incidentes_pendientes_incidentes st st1 Hgeo) as Hp.
  assert (ids st1 = ids st) as Hids by (unfold ids; by rewrite Hgeo).
  rewrite <- Hp in Hpend.
  destruct (update_pending inc lat lon a1 a2 acc src st1)
    as (Hsub & Hlen & Hnum); [by rewrite Hids | done|].
  cbn zeta in Hsub, Hlen, Hnum.
  set (st2 := update_incidente_geocode (inc_id inc) lat lon a1 a2 acc src st1)
    in *.
  destruct (IH (count + 1) st2) as (Hle & Hsub2 & Hlen2 & Hids2 & Hnum2).
  - unfold st2. by rewrite update_incidente_geocode_ids, Hids.
  - done.
  - apply Forall_forall. intros r Hr.
    rewrite Forall_forall in Hrest. specialize (Hrest r Hr).
    rewrite <- Hp in Hrest. apply elem_of_pendientes in Hrest as [Hin Hpr].
    apply elem_of_pendientes. split; [|done].
    apply update_incidente_geocode_other; [done|].
    intros Heq. apply Hinc. apply list_elem_of_fmap. by exists r.
  - rewrite <- Hp. cbn [length]. split_and!.
    + lia.
    + lia.
    + by etrans.
    + lia.
    + rewrite Hids2. unfold st2. by rewrite update_incidente_geocode_ids.
    + intros Hans Hc. destruct (Hgnum Hans Hc) as [Hc1 Hres].
      destruct (Hres _ _ _ _ _ _ eq_refl) as [Hlat Hlon].
      destruct (Hnum Hlat Hlon) as [Hs Hl].
      destruct (Hnum2 Hans) as [Hs2 Hl2]; [done|].
      split; [by etrans | lia].
Qed.

(** X19.  The count of [resolve_missing_coords].  On a ledger without repeated
    ids, the number returned counts the rows that were updated: no more
    than were pending.  The rows still pending are among those that
    were pending, in the same order, and no more than the number
    returned have left them.  When the online geocoder answers with
    numbers only and the cache holds numbers only, the number returned
    is the number of rows that were pending and no longer are, and the
    rows still pending are as they were; a coordinate that is not a
    number is stored as [NULL], and its row is counted and pending
    still.  No row is added or removed, and none changes its id,
    country, category, description or place. *)
Theorem resolve_missing_coords_count (hint : option string)
    (st : @state float World) :
  NoDup (ids st) ->
  let result := resolve_missing_coords _nominatim_search hint st in
  0 <= result.1 <= Z.of_nat (length (get_incidentes_pendientes st))
  ∧ inc_id <$> get_incidentes_pendientes result.2
    `sublist_of` inc_id <$> get_incidentes_pendientes st
  ∧ Z.of_nat (length (get_incidentes_pendientes st))
    <= Z.of_nat (length (get_incidentes_pendientes result.2)) + result.1
  ∧ ids result.2 = ids st
  ∧ identities result.2 = identities st
  ∧ (answers_numbers _nominatim_search -> cache_numbers st ->
     get_incidentes_pendientes result.2
     `sublist_of` get_incidentes_pendientes st
     ∧ Z.of_nat (length (get_incidentes_pendientes st))
       = Z.of_nat (length (get_incidentes_pendientes result.2)) + result.1).
Proof.
  intros Hnd. cbn zeta. unfold resolve_missing_coords.
  destruct (resolve_loop_count hint (get_incidentes_pendientes st) 0 st)
    as (Hle & Hsub & Hlen & Hids & Hnum).
  - done.
  - apply (NoDup_fmap_2_strong inc_id).
    + intros x y Hx%elem_of_pendientes Hy%elem_of_pendientes Heq.
      destruct Hx as [Hx _], Hy as [Hy _]. unfold ids in Hnd.
      apply list_elem_of_lookup in Hx as [i Hi], Hy as [j Hj].
      assert (i = j) as ->; [|congruence].
      eapply NoDup_lookup; [exact Hnd|..];
        rewrite list_lookup_fmap; [by rewrite Hi | by rewrite Hj, Heq].
    + eapply sublist_NoDup; [eapply NoDup_fmap_1; exact Hnd|].
      unfold get_incidentes_pendientes.
      induction (incidentes st) as [|row rows IHrows]; [done|].
      cbn [List.filter]. destruct (_ && _); [by apply sublist_skip|].
      by apply sublist_cons.
  - by apply Forall_forall.
  - split_and!; [lia | lia | done | lia | done | apply resolve_loop_identities |].
    intros Hans Hc. destruct (Hnum Hans Hc) as [Hs Hl]. split; [done | lia].
Qed.

Lemma resolve_missing_coords_ids (hint : option string)
    (st : @state float World) :
  ids (resolve_missing_coords _nominatim_search hint st).2 = ids st.
Proof.
  unfold resolve_missing_coords.
  generalize (get_incidentes_pendientes st) 0.
  intros pendientes. revert st.
  induction pendientes as [|inc rest IH]; intros st count; [done|].
  cbn [resolve_loop].
  destruct (inc_place inc) as [place|]; [|apply IH].
  destruct (negb (Py.truthy place)); [apply IH|].
  pose proof (geocode_place_incidentes _nominatim_search place
                (Py.or_opt (Some (inc_pais inc)) hint) st) as Hgeo.
  destruct (geocode_place _nominatim_search place
              (Py.or_opt (Some (inc_pais inc)) hint) st)
    as [[[[[[[lat lon] a1] a2] acc] src]|] st1]; cbn [snd] in Hgeo.
  - rewrite IH, update_incidente_geocode_ids. unfold ids. by rewrite Hgeo.
  - rewrite IH. unfold ids. by rewrite Hgeo.
Qed.

(** *** The single registrar *)

(** X18.  [registrar_incidente_desde_informe] makes no existence check: it
    always writes one row, with the country, category, description and
    place as given, at the end of the ledger, and returns its id, which
    is larger than every id in use.  Registering the same incident twice
    this way leaves two rows. *)
Theorem registrar_incidente_always_writes (pais categoria descripcion
    fuente : string) (lat lon : option float) (place : option string)
    (resolver_ahora : bool) (country_hint : option string)
    (st : @state float World) :
  let result :=
    registrar_incidente_desde_informe _nominatim_search pais categoria
      descripcion fuente lat lon place resolver_ahora country_hint st in
  identities result.2 = identities st ++ [(pais, categoria, descripcion, place)]
  ∧ ids result.2 = ids st ++ [result.1]
  ∧ Forall (fun i => i < result.1) (ids st).
Proof.
  cbn zeta. unfold registrar_incidente_desde_informe.
  pose proof (add_incidente_identities pais categoria descripcion fuente lat
                lon place st) as Hid.
  assert (ids (add_incidente pais categoria descripcion fuente lat lon place st).2
          = ids st ++ [(add_incidente pais categoria descripcion fuente lat
                          lon place st).1]) as Hids.
  { unfold add_incidente, ids. cbn [fst snd incidentes]. by rewrite fmap_app. }
  assert (Forall (fun i => i < (add_incidente pais categoria descripcion
                                  fuente lat lon place st).1) (ids st)) as Hlt.
  { unfold add_incidente, ids. cbn [fst]. apply Forall_fmap.
    apply next_id_above. }
  destruct (add_incidente pais categoria descripcion fuente lat lon place st)
    as [rowid st1]. cbn [fst snd] in *.
  destruct resolver_ahora; [|done].
  by rewrite resolve_missing_coords_identities, resolve_missing_coords_ids.
Qed.

End Ledger.

(** ** Retrying on a locked database *)

Section RetryProperties.

Context {A World : Type}.

Variable fn : World -> attempt A * World.

Lemma wait_not_negative (base_sleep : Q) (j : Z) :
  (0 <= base_sleep)%Q -> 0 <= j ->
  Qlt_bool (base_sleep * inject_Z (2 ^ j)) 0 = false.
Proof.
  intros Hb Hj. unfold Qlt_bool. apply negb_false_iff, Qle_bool_iff.
  apply Qmult_le_0_compat; [done|].
  change 0%Q with (inject_Z 0). rewrite <- Zle_Qle. by apply Z.pow_nonneg.
Qed.

Lemma retry_loop_spec (max_tries : Z) (base_sleep : Q) (n : nat) (j : Z)
    (w : World) (events : list retry_event) :
  (0 <= base_sleep)%Q -> 0 <= j ->
  j + Z.of_nat (S n) = max_tries ->
  ∃ (k : nat) outs wk out w',
    (k <= n)%nat
    ∧ calls fn k w = (outs, wk)
    ∧ fn wk = (out, w')
    ∧ Forall (fun o => transient o = true) outs
    ∧ (transient out = true -> k = n)
    ∧ retry_loop fn max_tries base_sleep (seqZ j (Z.of_nat (S n))) w events
      = (ends_with out, w',
         events ++ flat_map (call_and_wait base_sleep) (seqZ j (Z.of_nat k))
         ++ [Called]).
Proof.
  assert (∀ (k : nat) (i : Z),
            seqZ i (Z.of_nat (S k)) = i :: seqZ (Z.succ i) (Z.of_nat k))
    as Hseq.
  { intros k i. rewrite seqZ_cons by lia. f_equal. f_equal. lia. }
  intros Hbase. revert j w events.
  induction n as [|n IH]; intros j w events Hpos Hj.
  - rewrite Hseq. cbn [retry_loop].
    destruct (fn w) as [out w1] eqn:Hfn. exists O, [], w, out, w1.
    split_and!; [done | done | done | constructor | done |].
    destruct out as [a | msg |]; cbn; [done | | done].
    destruct (is_locked msg); [|done].
    destruct (j =? max_tries - 1) eqn:Hlast; [done | lia].
  - rewrite Hseq. cbn [retry_loop].
    destruct (fn w) as [out w1] eqn:Hfn.
    destruct (transient out) eqn:Htr.
    + destruct out as [a | msg |]; [done | | done]. cbn in Htr. rewrite Htr.
      destruct (j =? max_tries - 1) eqn:Hlast; [lia|].
      cbn zeta. rewrite wait_not_negative by done.
      destruct (IH (Z.succ j) w1
                  ((events ++ [Called])
                   ++ [Slept (base_sleep * inject_Z (2 ^ j))%Q]))
        as (k & outs & wk & out & w' & Hk & Hcalls & Hout & Houts & Hlast'
            & Hres);
        [lia | lia|].
      exists (S k), (RaisesOperationalError msg :: outs), wk, out, w'.
      split_and!.
      * lia.
      * cbn [calls]. by rewrite Hfn, Hcalls.
      * done.
      * constructor; [done | done].
      * intros H. by rewrite Hlast'.
      * rewrite Hres, Hseq. cbn [flat_map]. unfold call_and_wait at 2.
        by rewrite <- !app_assoc.
    + exists O, [], w, out, w1.
      split_and!; [lia | done | done | constructor | by rewrite Htr |].
      destruct out as [a | msg |]; cbn; [done | | done].
      cbn in Htr. by rewrite Htr.
Qed.

(** X20.  How [_retry_locked] ends, for a time [base_sleep] that is not
    negative.  With no try allowed it calls nothing and
    returns [None].  Otherwise it calls [fn] again as long as the call
    fails on a locked or busy database, and waits [base_sleep] times 2
    to the power of the number of failures so far before each new call.
    It ends with the first call that does anything else (its value is
    returned, its exception raised at once) or with the call number
    [max_tries], whose exception is raised without a wait. *)
Theorem retry_locked_spec (max_tries : Z) (base_sleep : Q) (w : World) :
  (0 <= base_sleep)%Q ->
  if decide (max_tries <= 0)
  then _retry_locked fn max_tries base_sleep w = (ReturnedNone, w, [])
  else
    ∃ (k : nat) outs wk out w',
      Z.of_nat k < max_tries
      ∧ calls fn k w = (outs, wk)
      ∧ fn wk = (out, w')
      ∧ Forall (fun o => transient o = true) outs
      ∧ (transient out = true -> Z.of_nat k = max_tries - 1)
      ∧ _retry_locked fn max_tries base_sleep w
        = (ends_with out, w',
           flat_map (call_and_wait base_sleep) (seqZ 0 (Z.of_nat k))
           ++ [Called]).
Proof.
  intros Hbase. unfold _retry_locked.
  destruct (decide (max_tries <= 0)) as [Hle | Hgt].
  - by rewrite seqZ_nil.
  - destruct (retry_loop_spec max_tries base_sleep
                (Z.to_nat (max_tries - 1)) 0 w [])
      as (k & outs & wk & out & w' & Hk & Hcalls & Hout & Houts & Hlast & Hres);
      [done | done | lia|].
    exists k, outs, wk, out, w'.
    replace (Z.of_nat (S (Z.to_nat (max_tries - 1)))) with max_tries in Hres
      by lia.
    split_and!; [lia | done | done | done | | done].
    intros H. specialize (Hlast H). lia.
Qed.

End RetryProperties.

Lemma calls_made_app (e1 e2 : list retry_event) :
  calls_made (e1 ++ e2) = (calls_made e1 + calls_made e2)%nat.
Proof. unfold calls_made. by rewrite List.filter_app, length_app. Qed.

Lemma seconds_slept_app (e1 e2 : list retry_event) :
  (seconds_slept (e1 ++ e2) == seconds_slept e1 + seconds_slept e2)%Q.
Proof.
  induction e1 as [|e e1 IH]; cbn [app].
  - change (seconds_slept []) with 0%Q. ring.
  - unfold seconds_slept in *. cbn [foldr]. destruct e as [|s]; [done|].
    rewrite IH. ring.
Qed.

(** The calls and the seconds of [k] failed attempts, the first of them
    the attempt [j]. *)
Lemma call_and_wait_totals (base_sleep : Q) (k : nat) (j : Z) :
  0 <= j ->
  calls_made (flat_map (call_and_wait base_sleep) (seqZ j (Z.of_nat k))) = k
  ∧ (seconds_slept (flat_map (call_and_wait base_sleep) (seqZ j (Z.of_nat k)))
     == base_sleep * (inject_Z (2 ^ (j + Z.of_nat k)) - inject_Z (2 ^ j)))%Q.
Proof.
  revert j. induction k as [|k IH]; intros j Hj.
  - change (Z.of_nat 0) with 0. rewrite seqZ_nil by done. cbn [flat_map].
    split; [done|]. rewrite Z.add_0_r. change (seconds_slept []) with 0%Q.
    ring.
  - rewrite seqZ_cons by lia.
    replace (Z.pred (Z.of_nat (S k))) with (Z.of_nat k) by lia.
    cbn [flat_map]. destruct (IH (Z.succ j)) as [Hc Hs]; [lia|]. split.
    + rewrite calls_made_app, Hc. done.
    + rewrite seconds_slept_app, Hs.
      replace (Z.succ j + Z.of_nat k) with (j + Z.of_nat (S k)) by lia.
      unfold call_and_wait, seconds_slept. cbn [foldr].
      rewrite Z.pow_succ_r by done. rewrite inject_Z_mult.
      change (inject_Z 2) with 2%Q. ring.
Qed.

Section RetryBounds.

Context {A World : Type}.

Variable fn : World -> attempt A * World.

(** X21.  The cost of [_retry_locked], for a time [base_sleep] that is not
    negative: it never calls [fn] more than
    [max_tries] times, and when it has made [c] calls it has slept
    [base_sleep] times (2 to the power [c - 1], minus 1) seconds in all,
    nothing when it has made none: with the 6 tries and the 0.05 s that
    the ledger uses, at most 1.55 s. *)
Theorem retry_locked_cost (max_tries : Z) (base_sleep : Q) (w : World) :
  (0 <= base_sleep)%Q ->
  let events := (_retry_locked fn max_tries base_sleep w).2 in
  Z.of_nat (calls_made events) <= Z.max 0 max_tries
  ∧ (seconds_slept events
     == base_sleep * (inject_Z (2 ^ Z.of_nat (calls_made events - 1)) - 1))%Q.
Proof.
  intros Hbase. cbn zeta. unfold _retry_locked.
  destruct (decide (max_tries <= 0)) as [Hle | Hgt].
  - rewrite seqZ_nil by done. cbn [retry_loop snd].
    change (calls_made []) with O. change (seconds_slept []) with 0%Q.
    split; [lia|]. change (inject_Z (2 ^ Z.of_nat (0 - 1))) with 1%Q. ring.
  - destruct (retry_loop_spec fn max_tries base_sleep
                (Z.to_nat (max_tries - 1)) 0 w [])
      as (k & outs & wk & out & w' & Hk & Hcalls & Hout & Houts & Hlast & Hres);
      [done | done | lia|].
    replace (Z.of_nat (S (Z.to_nat (max_tries - 1)))) with max_tries in Hres
      by lia.
    rewrite Hres. cbn [snd app].
    destruct (call_and_wait_totals base_sleep k 0) as [Hc Hs]; [done|].
    rewrite calls_made_app, seconds_slept_app, Hc, Hs.
    change (calls_made [Called]) with 1%nat.
    change (seconds_slept [Called]) with 0%Q.
    split; [lia|].
    replace (k + 1 - 1)%nat with k by lia. rewrite Z.add_0_l.
    change (inject_Z (2 ^ 0)) with 1%Q. ring.
Qed.

End RetryBounds.

(** ** The matcher finds matches only *)

Lemma run_sound (icase : bool) (r : Re.re) (c : Re.cursor)
    (k : Re.cursor -> option Re.cursor) (res : Re.cursor) :
  Re.run icase r c k = Some res ->
  ∃ c', spans icase r c c' ∧ k c' = Some res.
Proof.
  revert c k. induction r as [s | | | | chars | | | | r1 IH1 r2 IH2
    | r1 IH1 r2 IH2 | r1 IH1 | r1 IH1 | r1 IH1 | r1 IH1 | i r1 IH1];
    intros c k; cbn [Re.run spans].
  - destruct (Re.lit_matches icase s (Re.rest c)) eqn:Hs; [|done].
    intros Hk. by eexists.
  - destruct (Re.rest c) as [|a t] eqn:Hrest; [done|].
    destruct (Ascii.eqb a "010") eqn:Ha; [done|].
    apply Ascii.eqb_neq in Ha. intros Hk. eexists. split; [|done].
    split; [by exists a, t | done].
  - destruct (Py.space_len (Re.rest c)) as [|n] eqn:Hn; [done|].
    intros Hk. eexists. split; [|done]. done.
  - destruct (Py.decode_first (Re.rest c)) as [[cp len]|] eqn:Hcp; [|done].
    destruct (Py.decimal cp) as [d|] eqn:Hd; [|done].
    intros Hk. eexists. split; [|done]. exists cp, len. by rewrite Hd.
  - destruct (Re.rest c) as [|a t] eqn:Hrest; [done|].
    destruct (Py.mem_char a chars) eqn:Ha; [done|].
    intros Hk. eexists. split; [|done]. split; [by exists a, t | done].
  - destruct (Re.before c) eqn:Hb; [|done]. intros Hk. by exists c.
  - destruct (Re.rest c) as [|a [|b t]] eqn:Hrest.
    + intros Hk. exists c. split; [|done]. split; [by left | done].
    + destruct a as [[] [] [] [] [] [] [] []]; try done.
      intros Hk. exists c. split; [|done]. split; [by right | done].
    + by destruct a as [[] [] [] [] [] [] [] []].
  - destruct (xorb _ _) eqn:Hx; [|done]. intros Hk. by exists c.
  - intros H. apply IH1 in H as (cm & H1 & H).
    apply IH2 in H as (c' & H2 & H). exists c'. split; [by exists cm | done].
  - destruct (Re.run icase r1 c k) as [c1|] eqn:H1.
    + intros [= <-]. apply IH1 in H1 as (c' & H1 & H). exists c'.
      split; [by left | done].
    + intros H. apply IH2 in H as (c' & H2 & H). exists c'.
      split; [by right | done].
  - destruct (Re.run icase r1 c k) as [c1|] eqn:H1.
    + intros [= <-]. apply IH1 in H1 as (c' & H1 & H). exists c'.
      split; [by left | done].
    + intros H. exists c. split; [by right | done].
  - generalize (String.length (Re.rest c)). intros fuel. revert c.
    induction fuel as [|fuel IHf]; intros c.
    + intros Hk. exists c. split; [by exists O | done].
    + destruct (Re.run icase r1 c _) as [c1|] eqn:H1.
      * intros [= <-]. apply IH1 in H1 as (cm & H1 & H).
        destruct (_ <? _)%nat; [|done].
        apply IHf in H as (c' & [n Hn] & H). exists c'. split; [|done].
        exists (S n), cm. done.
      * intros Hk. exists c. split; [by exists O | done].
  - intros H. apply IH1 in H as (cm & H1 & H).
    enough (∃ c', (∃ n, power (spans icase r1) n cm c') ∧ k c' = Some res)
      as (c' & [n Hn] & Hk).
    { exists c'. split; [|done]. exists n, cm. done. }
    clear H1. revert H. generalize (String.length (Re.rest cm)).
    intros fuel. revert cm. induction fuel as [|fuel IHf]; intros cm.
    + intros Hk. exists cm. split; [by exists O | done].
    + destruct (Re.run icase r1 cm _) as [c1|] eqn:H1.
      * intros [= <-]. apply IH1 in H1 as (cm' & H1 & H).
        destruct (_ <? _)%nat; [|done].
        apply IHf in H as (c' & [n Hn] & H). exists c'. split; [|done].
        exists (S n), cm'. done.
      * intros Hk. exists cm. split; [by exists O | done].
  - intros H. apply IH1 in H as (cm & H1 & H).
    enough (∃ c', (∃ n, power (spans icase r1) n cm c') ∧ k c' = Some res)
      as (c' & [n Hn] & Hk).
    { exists c'. split; [|done]. exists n, cm. done. }
    clear H1. revert H. generalize (String.length (Re.rest cm)).
    intros fuel. revert cm. induction fuel as [|fuel IHf]; intros cm.
    + destruct (k cm) as [c1|] eqn:Hk; [|done].
      intros [= <-]. exists cm. split; [by exists O | done].
    + destruct (k cm) as [c1|] eqn:Hk.
      * intros [= <-]. exists cm. split; [by exists O | done].
      * intros H. apply IH1 in H as (cm' & H1 & H).
        destruct (_ <? _)%nat; [|done].
        apply IHf in H as (c' & [n Hn] & H). exists c'. split; [|done].
        exists (S n), cm'. done.
  - intros H. apply IH1 in H as (c1 & H1 & H). eexists. split; [|exact H].
    by exists c1.
Qed.

(** ** The text of a match *)

Lemma length_append (s t : string) :
  String.length (s +:+ t) = (String.length s + String.length t)%nat.
Proof.
  induction s as [|a s IH]; [done|]. rewrite append_cons. cbn. by rewrite IH.
Qed.

Lemma take_str_append (s t : string) :
  Re.take_str (String.length (s +:+ t) - String.length t) (s +:+ t) = s.
Proof.
  rewrite length_append.
  replace (String.length s + String.length t - String.length t)%nat
    with (String.length s) by lia.
  induction s as [|a s IH]; [by destruct t|].
  rewrite append_cons. cbn. by rewrite IH.
Qed.

Lemma advance_rest (n : nat) (p s : string) :
  ∃ mid, s = mid +:+ (Re.advance n p s).2
         ∧ String.length mid = Nat.min n (String.length s).
Proof.
  revert p s. induction n as [|n IH]; intros p s; [by exists ""|].
  destruct s as [|a s]; [by exists ""|]. cbn [Re.advance].
  destruct (IH (String a p) s) as (mid & Hmid & Hlen).
  exists (String a mid). rewrite append_cons, <- Hmid. cbn. by rewrite Hlen.
Qed.

Lemma consume_between (n : nat) (c : Re.cursor) :
  ∃ mid, between c (Re.consume n c) mid
         ∧ String.length mid = Nat.min n (String.length (Re.rest c)).
Proof.
  unfold between, Re.consume.
  destruct (advance_rest n (Re.before c) (Re.rest c)) as (mid & Hmid & Hlen).
  exists mid. by destruct (Re.advance n (Re.before c) (Re.rest c)).
Qed.

Lemma between_trans (c1 c2 c3 : Re.cursor) (m1 m2 : string) :
  between c1 c2 m1 -> between c2 c3 m2 -> between c1 c3 (m1 +:+ m2).
Proof. unfold between. intros -> ->. by rewrite append_assoc. Qed.

Lemma power_between (R : Re.cursor -> Re.cursor -> Prop) (n : nat) :
  (∀ c c', R c c' -> ∃ mid, between c c' mid) ->
  ∀ c c', power R n c c' -> ∃ mid, between c c' mid.
Proof.
  intros HR. induction n as [|n IH]; intros c c'; cbn [power].
  - intros ->. by exists "".
  - intros (cm & H1 & H2). apply HR in H1 as [m1 H1].
    apply IH in H2 as [m2 H2]. exists (m1 +:+ m2). by eapply between_trans.
Qed.

(** A match is a piece of the text ahead. *)
Lemma spans_between (icase : bool) (r : Re.re) (c c' : Re.cursor) :
  spans icase r c c' -> ∃ mid, between c c' mid.
Proof.
  revert c c'. induction r as [s | | | | chars | | | | r1 IH1 r2 IH2
    | r1 IH1 r2 IH2 | r1 IH1 | r1 IH1 | r1 IH1 | r1 IH1 | i r1 IH1];
    intros c c'; cbn [spans].
  - intros [_ ->]. destruct (consume_between (String.length s) c) as [m [H _]].
    by exists m.
  - intros [_ ->]. destruct (consume_between 1 c) as [m [H _]]. by exists m.
  - intros [_ ->].
    destruct (consume_between (Py.space_len (Re.rest c)) c) as [m [H _]].
    by exists m.
  - intros (cp & len & _ & _ & ->).
    destruct (consume_between len c) as [m [H _]]. by exists m.
  - intros [_ ->]. destruct (consume_between 1 c) as [m [H _]]. by exists m.
  - intros [_ ->]. by exists "".
  - intros [_ ->]. by exists "".
  - intros [_ ->]. by exists "".
  - intros (cm & H1 & H2). apply IH1 in H1 as [m1 H1].
    apply IH2 in H2 as [m2 H2]. exists (m1 +:+ m2). by eapply between_trans.
  - intros [H | H]; [by apply IH1 | by apply IH2].
  - intros [H | ->]; [by apply IH1 | by exists ""].
  - intros [n H]. by apply (power_between _ n IH1).
  - intros [n H]. by apply (power_between _ (S n) IH1).
  - intros [n H]. by apply (power_between _ (S n) IH1).
  - intros (c1 & H1 & ->). apply IH1 in H1 as [m H1]. by exists m.
Qed.

(** The text of a group that the matcher has just closed. *)
Lemma group_text (i : nat) (c c1 : Re.cursor) (mid : string) :
  between c c1 mid ->
  Re.group i
    (Re.Cursor (Re.before c1) (Re.rest c1)
       ((i, Re.take_str (String.length (Re.rest c) - String.length (Re.rest c1))
              (Re.rest c))
        :: Re.groups c1))
  = mid.
Proof.
  unfold between. intros ->. unfold Re.group. cbn [Re.groups List.find fst snd].
  rewrite Nat.eqb_refl. apply take_str_append.
Qed.

(** One character or more, none of them a newline, is a text that is
    not empty. *)
Lemma plus_any_between (c c' : Re.cursor) :
  spans false (Re.Plus Re.Any) c c' ->
  ∃ a mid, between c c' (String a mid).
Proof.
  cbn [spans]. intros (n & cm & [(a & t & Ha & _) ->] & Hn).
  destruct (consume_between 1 c) as (m1 & H1 & Hlen).
  apply (power_between _ n (spans_between false Re.Any)) in Hn as [m2 H2].
  pose proof (between_trans _ _ _ _ _ H1 H2) as H.
  rewrite Ha in Hlen. destruct m1 as [|b m1]; [done|].
  exists b, (m1 +:+ m2). by rewrite <- append_cons.
Qed.

(** What [BULLET_RE] captures: a text that is not empty, and after it
    the line ends, but for a newline. *)
Lemma bullet_text (line : string) (m : Re.cursor) :
  Re.match_ false IncidentParser.BULLET_RE line = Some m ->
  ∃ pre a mid tail,
    line = pre +:+ String a mid +:+ tail
    ∧ Re.group 1 m = String a mid
    ∧ (tail = EmptyString ∨ tail = String "010" EmptyString).
Proof.
  unfold Re.match_. intros H. apply run_sound in H as (c' & H & [= ->]).
  cbn [IncidentParser.BULLET_RE Re.seq_of] in H.
  destruct H as (c1 & H1 & c2 & H2 & c3 & H3 & c4 & H4 & c5 & H5 & H6).
  destruct H1 as [_ ->].
  apply spans_between in H2 as [m2 H2], H3 as [m3 H3], H4 as [m4 H4].
  cbn [spans] in H5. destruct H5 as (c0 & H5 & ->).
  change (spans false (Re.Plus Re.Any) c4 c0) in H5.
  apply plus_any_between in H5 as (a & mid & H5).
  cbn [spans Re.rest] in H6. destruct H6 as [Htail ->].
  exists (m2 +:+ m3 +:+ m4), a, mid, (Re.rest c0). split_and!.
  - pose proof (between_trans _ _ _ _ _
                  (between_trans _ _ _ _ _
                     (between_trans _ _ _ _ _ H2 H3) H4) H5) as H.
    unfold between in H. cbn [Re.rest] in H. by rewrite H, !append_assoc.
  - by apply group_text.
  - done.
Qed.

(** ** The report parser *)

(** A text that [lstrip] empties ends in white space, which the
    recognizers, run backwards, see at the head of the reversed text. *)
Lemma lstrip_empty_backwards (n : nat) (s : string) :
  (String.length s <= n)%nat -> s ≠ EmptyString ->
  Py.lstrip s = EmptyString ->
  head_kept Py.space1 (fun a b => Py.space2 b a)
    (fun a b c => Py.space3 c b a) (String.rev s) = false.
Proof.
  assert (∀ t suffix,
            head_kept Py.space1 (fun a b => Py.space2 b a)
              (fun a b c => Py.space3 c b a) t = false ->
            head_kept Py.space1 (fun a b => Py.space2 b a)
              (fun a b c => Py.space3 c b a) (t +:+ suffix) = false) as Hext.
  { intros t suffix Ht.
    destruct (head_kept _ _ _ (t +:+ suffix)) eqn:H; [|done].
    apply head_kept_prefix in H. congruence. }
  unfold Py.lstrip. revert s. induction n as [|n IH]; intros s Hn Hs.
  { destruct s; [done | simpl in Hn; lia]. }
  destruct s as [|a r1]; [done|]. cbn [String.length] in Hn.
  cbn [Py.lstrip_gen]. destruct (Py.space1 a) eqn:H1.
  { intros Hr. destruct r1 as [|b r2].
    - change (String.rev (String a "")) with (String a "").
      cbn [head_kept]. by rewrite H1.
    - rewrite (rev_cons a).
      apply Hext, IH; [lia | done | done]. }
  destruct r1 as [|b r2]; [done|]. cbn [String.length] in Hn.
  destruct (Py.space2 a b) eqn:H2.
  { intros Hr. destruct r2 as [|c r3].
    - change (String.rev (String a (String b "")))
        with (String b (String a "")).
      cbn [head_kept]. rewrite H2. by rewrite andb_false_r.
    - rewrite (rev_cons a), (rev_cons b), append_assoc. apply Hext, IH; [lia | done | done]. }
  destruct r2 as [|c r3]; [done|]. cbn [String.length] in Hn.
  destruct (Py.space3 a b c) eqn:H3; [|done].
  intros Hr. destruct r3 as [|d r4].
  - change (String.rev (String a (String b (String c ""))))
      with (String c (String b (String a ""))).
    cbn [head_kept]. rewrite H3. by rewrite !andb_false_r.
  - rewrite (rev_cons a), (rev_cons b), (rev_cons c), !append_assoc. apply Hext, IH; [lia | done | done].
Qed.

Lemma rev_empty (s : string) : String.rev s = EmptyString -> s = EmptyString.
Proof.
  intros H. apply (f_equal String.rev) in H. by rewrite rev_involutive in H.
Qed.

(** The end of a stripped text, stripped, is not empty. *)
Lemma strip_suffix_of_stripped (raw pre g : string) :
  Py.strip raw = pre +:+ g -> g ≠ EmptyString ->
  Py.strip g ≠ EmptyString ∧ Py.rstrip g = g.
Proof.
  intros Hline Hg. destruct (strip_ends raw) as [_ Hback].
  rewrite Hline, rev_append in Hback. apply head_kept_prefix in Hback.
  assert (Py.rstrip g = g) as Hr.
  { unfold Py.rstrip. rewrite lstrip_gen_kept by done. apply rev_involutive. }
  split; [|done]. unfold Py.strip. intros Hempty.
  assert (Py.lstrip g = EmptyString) as Hl.
  { destruct (lstrip_gen_suffix Py.space1 Py.space2 Py.space3 g) as [p Hp].
    fold (Py.lstrip g) in Hp.
    assert (head_kept Py.space1 (fun a b => Py.space2 b a)
              (fun a b c => Py.space3 c b a) (String.rev (Py.lstrip g)) = true)
      as Hk.
    { apply (head_kept_prefix _ _ _ _ (String.rev p)).
      by rewrite <- rev_append, <- Hp. }
    unfold Py.rstrip in Hempty. rewrite lstrip_gen_kept in Hempty by done.
    rewrite rev_involutive in Hempty. done. }
  pose proof (lstrip_empty_backwards (String.length g) g ltac:(lia) Hg Hl).
  congruence.
Qed.

Lemma normaliza_sicu_categorias (seccion : string) :
  IncidentParser._normaliza_sicu seccion ∈ categorias.
Proof.
  unfold IncidentParser._normaliza_sicu.
  destruct (IncidentParser.SICU_SECCIONES !! _) as [v|] eqn:Hv; cbn [default].
  - unfold IncidentParser.SICU_SECCIONES in Hv.
    apply elem_of_list_to_map_2 in Hv. unfold categorias.
    repeat (apply elem_of_cons in Hv as [[= _ <-] | Hv]; [set_solver|]).
    by apply elem_of_nil in Hv.
  - unfold categorias. set_solver.
Qed.

(** What [BULLET_RE] captures in a stripped line: its text, stripped,
    is not empty, and is the end of the line. *)
Lemma bullet_description (raw_line : string) (m : Re.cursor) :
  Re.match_ false IncidentParser.BULLET_RE (Py.strip raw_line) = Some m ->
  Py.strip (Re.group 1 m) ≠ EmptyString
  ∧ ∃ pre, Py.strip raw_line = pre +:+ Py.strip (Re.group 1 m).
Proof.
  intros Hm. apply bullet_text in Hm as (pre & a & mid & tail & Hline & -> & Htail).
  assert (tail = EmptyString) as ->.
  { destruct Htail as [-> | ->]; [done|]. exfalso.
    destruct (strip_ends raw_line) as [_ Hback].
    rewrite Hline, !rev_append in Hback. by apply head_kept_prefix in Hback. }
  rewrite append_nil_r in Hline.
  destruct (strip_suffix_of_stripped raw_line pre (String a mid) Hline)
    as [Hne Hr]; [done|].
  split; [done|].
  destruct (lstrip_gen_suffix Py.space1 Py.space2 Py.space3 (String a mid))
    as [p Hp].
  fold (Py.lstrip (String a mid)) in Hp.
  assert (Py.strip (String a mid) = Py.lstrip (String a mid)) as Hs.
  { unfold Py.strip, Py.rstrip. rewrite lstrip_gen_kept; [apply rev_involutive|].
    apply (head_kept_prefix _ _ _ _ (String.rev p)).
    rewrite <- rev_append, <- Hp.
    destruct (strip_ends raw_line) as [_ Hback].
    rewrite Hline, rev_append in Hback. by apply head_kept_prefix in Hback. }
  exists (pre +:+ p). by rewrite Hs, append_assoc, <- Hp.
Qed.

Section ParserProperties.

Context {float : Type}.
Variable _extrae_place : string -> option string.

(** What the loop of the parser keeps true, on the lines of [all]: the
    section is one of the categories, and each incident is a bullet of
    a line. *)
Lemma parse_line_invariant (default_fuente : string) (all : list string)
    (good : @candidate float -> Prop)
    (acc : list (@candidate float) * option string) (raw_line : string) :
  (∀ categoria descripcion,
     categoria ∈ categorias -> descripcion ≠ EmptyString ->
     Py.strip descripcion = descripcion ->
     (∃ raw_line pre,
        raw_line ∈ all ∧ Py.strip raw_line = pre +:+ descripcion) ->
     good (Candidate (Some categoria) None (Some descripcion)
             (_extrae_place descripcion) None (Some default_fuente)
             None None None)) ->
  raw_line ∈ all ->
  Forall good acc.1 ∧ (∀ s, acc.2 = Some s -> s ∈ categorias) ->
  let acc' := IncidentParser.parse_line _extrae_place default_fuente acc
                raw_line in
  Forall good acc'.1 ∧ (∀ s, acc'.2 = Some s -> s ∈ categorias).
Proof.
  destruct acc as [incidentes seccion]. cbn [fst snd].
  intros Hgood Hin [Hacc Hsec]. unfold IncidentParser.parse_line.
  destruct (negb (Py.truthy (Py.strip raw_line))); [done|].
  destruct (Re.match_ false IncidentParser.HEADER_RE (Py.strip raw_line))
    as [h|]; cbn [fst snd].
  { split; [done|]. intros s [= <-]. apply normaliza_sicu_categorias. }
  destruct (Re.match_ false IncidentParser.BULLET_RE (Py.strip raw_line))
    as [m|] eqn:Hm; [|done].
  destruct seccion as [seccion_actual|]; [|done].
  destruct (Py.truthy seccion_actual); [|done]. cbn [fst snd].
  split; [|done]. apply Forall_app. split; [done|].
  apply Forall_singleton.
  apply bullet_description in Hm as [Hne [pre Hpre]].
  apply Hgood; [by apply Hsec | done | apply strip_idempotent |].
  by exists raw_line, pre.
Qed.

Lemma parse_lines_invariant (default_fuente : string) (all : list string)
    (good : @candidate float -> Prop) (lines : list string)
    (acc : list (@candidate float) * option string) :
  (∀ categoria descripcion,
     categoria ∈ categorias -> descripcion ≠ EmptyString ->
     Py.strip descripcion = descripcion ->
     (∃ raw_line pre,
        raw_line ∈ all ∧ Py.strip raw_line = pre +:+ descripcion) ->
     good (Candidate (Some categoria) None (Some descripcion)
             (_extrae_place descripcion) None (Some default_fuente)
             None None None)) ->
  lines ⊆ all ->
  Forall good acc.1 ∧ (∀ s, acc.2 = Some s -> s ∈ categorias) ->
  Forall good
    (foldl (IncidentParser.parse_line _extrae_place default_fuente) acc
       lines).1.
Proof.
  intros Hgood. revert acc. induction lines as [|l lines IH]; intros acc Hsub Hacc.
  - by destruct Hacc.
  - cbn [foldl]. apply IH.
    { intros x Hx. apply Hsub, elem_of_cons. by right. }
    apply (parse_line_invariant default_fuente all good acc l Hgood);
      [|done].
    apply Hsub, elem_of_cons. by left.
Qed.

(** X22.  [parse_incidents_from_text]: what it returns.  Every incident has
    the source given, one of the five categories of the headers or
    "Otros", and a description that is not empty, has no white space at
    its ends and is the end of a line of the text; its place is what
    [_extrae_place] reads in this description. *)
Theorem parse_incidents_candidates (texto default_fuente : string)
    (c : @candidate float) :
  c ∈ IncidentParser.parse_incidents_from_text _extrae_place texto
        default_fuente ->
  ∃ categoria descripcion,
    c = Candidate (Some categoria) None (Some descripcion)
          (_extrae_place descripcion) None (Some default_fuente)
          None None None
    ∧ categoria ∈ categorias
    ∧ descripcion ≠ EmptyString
    ∧ Py.strip descripcion = descripcion
    ∧ ∃ raw_line pre,
        raw_line ∈ Py.splitlines texto
        ∧ Py.strip raw_line = pre +:+ descripcion.
Proof.
  revert c. apply Forall_forall.
  unfold IncidentParser.parse_incidents_from_text.
  apply (parse_lines_invariant default_fuente (Py.splitlines texto));
    [|done|by split].
  intros categoria descripcion Hc Hd Hs Hl. by exists categoria, descripcion.
Qed.

(** X23.  Bullets under no header are no incidents: a text none of whose
    lines is a header of a section gives the empty list. *)
Theorem parse_incidents_without_header (texto default_fuente : string) :
  (∀ raw_line,
     raw_line ∈ Py.splitlines texto ->
     Re.match_ false IncidentParser.HEADER_RE (Py.strip raw_line) = None) ->
  IncidentParser.parse_incidents_from_text (float := float) _extrae_place
    texto default_fuente
  = [].
Proof.
  intros Hno. unfold IncidentParser.parse_incidents_from_text.
  enough (foldl (IncidentParser.parse_line _extrae_place default_fuente)
            (([] : list (@candidate float)), None) (Py.splitlines texto)
          = ([], None)) as -> by done.
  induction (Py.splitlines texto) as [|l lines IH]; [done|].
  cbn [foldl].
  assert (IncidentParser.parse_line _extrae_place default_fuente
            (([] : list (@candidate float)), None) l = ([], None)) as ->.
  { unfold IncidentParser.parse_line.
    rewrite Hno by (apply elem_of_cons; by left). cbn [snd].
    destruct (negb _); [done|]. by destruct (Re.match_ false _ _). }
  apply IH. intros r Hr. apply Hno, elem_of_cons. by right.
Qed.

(** No more incidents than lines. *)
Lemma parse_incidents_length (texto default_fuente : string) :
  (length (IncidentParser.parse_incidents_from_text (float := float)
             _extrae_place texto default_fuente)
   <= length (Py.splitlines texto))%nat.
Proof.
  unfold IncidentParser.parse_incidents_from_text.
  enough (∀ lines (acc : list (@candidate float) * option string),
            (length (foldl (IncidentParser.parse_line _extrae_place
                              default_fuente) acc lines).1
             <= length acc.1 + length lines)%nat) as H by apply (H _ ([], None)).
  induction lines as [|l lines IH]; intros acc; [cbn [foldl length]; lia|].
  cbn [foldl length]. etransitivity; [apply IH|].
  enough (length (IncidentParser.parse_line _extrae_place default_fuente
                    acc l).1 <= S (length acc.1))%nat by lia.
  unfold IncidentParser.parse_line.
  destruct (negb _); [lia|]. destruct (Re.match_ false _ _); [cbn; lia|].
  destruct (Re.match_ false _ _); [|lia]. destruct acc.2; [|lia].
  destruct (Py.truthy _); [|lia]. cbn [fst]. rewrite length_app. cbn. lia.
Qed.

End ParserProperties.

(** ** Registering the incidents of a report *)

Section ReportRegistrar.

Context {float : Type} {floats : Floats float} {World : Type}.
Variable _nominatim_search :
  string -> World -> search_outcome (@nominatim_item float) * World.
Variable _extrae_place : string -> option string.

(** The rows that the loop of the registrar appends: as many as it
    counts, each one written from a candidate of the batch. *)
Lemma registrar_loop_added (pais : string) (incs : list (@candidate float))
    (n : Z) (st : @state float World) :
  ∃ added,
    identities (registrar_loop pais incs n st).2 = identities st ++ added
    ∧ (registrar_loop pais incs n st).1 = n + Z.of_nat (length added)
    ∧ (length added <= length incs)%nat
    ∧ Forall (fun i =>
                ∃ inc,
                  inc ∈ incs
                  ∧ Py.truthy (candidate_descripcion inc) = true
                  ∧ i = (pais,
                         default "Otros"
                           (Py.or_opt
                              (Py.or_opt (c_categoria inc)
                                 (c_categoria_sicu inc))
                              (Some "Otros")),
                         candidate_descripcion inc, candidate_place inc))
        added.
Proof.
  revert n st. induction incs as [|inc rest IH]; intros n st.
  { exists []. cbn [registrar_loop fst snd length].
    rewrite app_nil_r. split_and!; [done | lia | done | constructor]. }
  assert (∀ n (st : @state float World),
            ∃ added,
              identities (registrar_loop pais rest n st).2
              = identities st ++ added
              ∧ (registrar_loop pais rest n st).1
                = n + Z.of_nat (length added)
              ∧ (length added <= length (inc :: rest))%nat
              ∧ Forall (fun i =>
                          ∃ inc0,
                            inc0 ∈ inc :: rest
                            ∧ Py.truthy (candidate_descripcion inc0) = true
                            ∧ i = (pais,
                                   default "Otros"
                                     (Py.or_opt
                                        (Py.or_opt (c_categoria inc0)
                                           (c_categoria_sicu inc0))
                                        (Some "Otros")),
                                   candidate_descripcion inc0,
                                   candidate_place inc0))
                  added) as Hskip.
  { intros n0 st0. destruct (IH n0 st0) as (added & H1 & H2 & H3 & H4).
    exists added. split_and!; [done | done | cbn [length]; lia |].
    eapply Forall_impl; [exact H4|]. intros i (inc0 & Hin & Hd & ->).
    exists inc0. split_and!; [|done|done]. apply elem_of_cons. by right. }
  cbn [registrar_loop]. fold (candidate_descripcion inc).
  fold (candidate_place inc).
  destruct (Py.truthy (candidate_descripcion inc)) eqn:Hd; cbn [negb];
    [|apply Hskip].
  destruct (incidente_exists _ _ _ _ st); [apply Hskip|].
  match goal with
  | |- context [add_incidente ?p ?c ?d ?f ?la ?lo ?pl st] =>
      pose proof (add_incidente_identities p c d f la lo pl st) as Hid;
      destruct (add_incidente p c d f la lo pl st) as [rowid st1]
  end.
  cbn [snd] in Hid. destruct (IH (n + 1) st1) as (added & H1 & H2 & H3 & H4).
  eexists (_ :: added). rewrite H1, H2, Hid, <- app_assoc. cbn [length].
  split_and!; [done | lia | lia |].
  constructor.
  - exists inc. split_and!; [|done|done]. apply elem_of_cons. by left.
  - eapply Forall_impl; [exact H4|]. intros i (inc0 & Hin & Hd0 & ->).
    exists inc0. split_and!; [|done|done]. apply elem_of_cons. by right.
Qed.

Lemma categorias_truthy (categoria : string) :
  categoria ∈ categorias -> Py.truthy categoria = true.
Proof.
  unfold categorias. intros H.
  repeat (apply elem_of_cons in H as [-> | H]; [done|]).
  by apply elem_of_nil in H.
Qed.

Lemma truthy_not_empty (s : string) : s ≠ EmptyString -> Py.truthy s = true.
Proof. by destruct s. Qed.

(** X24.  [registrar_incidentes_desde_texto]: what a report adds to the
    ledger.  The rows are appended after those there were, and the
    number returned counts them; there is at most one for each line of
    the text.  Every new row has the country given, one of the five
    categories of the headers or "Otros", a description that is not
    empty and is the end of a line of the text, and the place that
    [_extrae_place] reads in this description, unless it is empty. *)
Theorem registrar_texto_rows (pais texto_informe fuente : string)
    (resolver_ahora : bool) (country_hint : option string)
    (st : @state float World) :
  let result :=
    registrar_incidentes_desde_texto _nominatim_search _extrae_place pais
      texto_informe fuente resolver_ahora country_hint st in
  ∃ added,
    identities result.2 = identities st ++ added
    ∧ result.1 = Z.of_nat (length added)
    ∧ (length added <= length (Py.splitlines texto_informe))%nat
    ∧ Forall (fun '(pais0, categoria, descripcion, place) =>
                pais0 = pais
                ∧ categoria ∈ categorias
                ∧ descripcion ≠ EmptyString
                ∧ (∃ raw_line pre,
                     raw_line ∈ Py.splitlines texto_informe
                     ∧ Py.strip raw_line = pre +:+ descripcion)
                ∧ place = Py.or_opt (_extrae_place descripcion) None)
        added.
Proof.
  cbn zeta. unfold registrar_incidentes_desde_texto.
  set (incs := IncidentParser.parse_incidents_from_text _extrae_place
                 texto_informe fuente).
  assert (Forall (fun c : @candidate float =>
            ∃ categoria descripcion,
              c = Candidate (Some categoria) None (Some descripcion)
                    (_extrae_place descripcion) None (Some fuente)
                    None None None
              ∧ categoria ∈ categorias
              ∧ descripcion ≠ EmptyString
              ∧ Py.strip descripcion = descripcion
              ∧ ∃ raw_line pre,
                  raw_line ∈ Py.splitlines texto_informe
                  ∧ Py.strip raw_line = pre +:+ descripcion) incs) as Hincs.
  { unfold incs, IncidentParser.parse_incidents_from_text.
    apply (parse_lines_invariant _extrae_place fuente
             (Py.splitlines texto_informe)); [|done|by split].
    intros categoria descripcion Hc Hd Hs Hl.
    by exists categoria, descripcion. }
  assert (length incs <= length (Py.splitlines texto_informe))%nat as Hlen.
  { unfold incs. apply parse_incidents_length. }
  destruct (registrar_loop_added pais incs 0 st)
    as (added & H1 & H2 & H3 & H4).
  exists added. unfold registrar_incidentes_desde_lista.
  destruct (registrar_loop pais incs 0 st) as [n st1]. cbn [fst snd] in *.
  split_and!.
  - destruct resolver_ahora; [|done].
    by rewrite resolve_missing_coords_identities.
  - lia.
  - lia.
  - eapply Forall_impl; [exact H4|]. intros i (inc & Hin & Hd & ->).
    rewrite Forall_forall in Hincs.
    destruct (Hincs inc Hin) as (categoria & descripcion & -> & Hc & Hne & Hs & Hl).
    unfold candidate_descripcion, candidate_place in *.
    cbn [c_categoria c_categoria_sicu c_descripcion c_place c_localizacion].
    assert (Py.or_opt (Py.or_opt (Some categoria) None) (Some "Otros")
            = Some categoria) as ->.
    { unfold Py.or_opt. rewrite (categorias_truthy _ Hc).
      by rewrite (categorias_truthy _ Hc). }
    assert (Py.or_opt (Some descripcion) (Some EmptyString)
            = Some descripcion) as ->.
    { unfold Py.or_opt. by rewrite (truthy_not_empty _ Hne). }
    change (default "Otros" (Some categoria)) with categoria.
    change (default EmptyString (Some descripcion)) with descripcion.
    rewrite Hs. done.
Qed.

End ReportRegistrar.

(** ** The theorems at work *)

(** The theorem on a bomb attack in Tripoli written to an empty
    ledger. *)
Lemma add_incidente_then_exists_witness :
  let st' :=
    (add_incidente "Libia" "Terrorismo" "Ataque con bomba en Tripoli"
       "Collect" None None (Some "Tripoli")
       (fresh (float := Q) [])).2 in
  incidente_exists "Libia" "Terrorismo" "Ataque con bomba en Tripoli"
    (Some "Tripoli") st' = true
  ∧ ∀ pais0 categoria0 descripcion0 place0,
      incidente_exists pais0 categoria0 descripcion0 place0
        (fresh (float := Q) []) = true ->
      incidente_exists pais0 categoria0 descripcion0 place0 st' = true.
Proof.
  apply (add_incidente_then_exists "Libia" "Terrorismo"
           "Ataque con bomba en Tripoli" "Collect" None None (Some "Tripoli")
           (fresh (float := Q) [])); reflexivity.
Defined.

(** The theorem on a batch that holds the same candidate twice. *)
Lemma registrar_batch_again_witness :
  let first :=
    registrar_incidentes_desde_lista scripted "Libia"
      [plain_candidate; plain_candidate] true None
      (fresh [Found tripoli_item]) in
  let second :=
    registrar_incidentes_desde_lista scripted "Libia"
      [plain_candidate; plain_candidate] true None first.2 in
  second.1 = 0 ∧ identities second.2 = identities first.2.
Proof.
  apply (registrar_batch_again scripted "Libia"
           [plain_candidate; plain_candidate] true true None None
           (fresh [Found tripoli_item])).
  repeat constructor.
Defined.

(** The theorem on a ledger with one pending row, in front of a world
    that answers with numbers. *)
Lemma resolve_missing_coords_count_witness :
  let result := resolve_missing_coords scripted None pending_ledger in
  0 <= result.1 <= Z.of_nat (length (get_incidentes_pendientes pending_ledger))
  ∧ inc_id <$> get_incidentes_pendientes result.2
    `sublist_of` inc_id <$> get_incidentes_pendientes pending_ledger
  ∧ Z.of_nat (length (get_incidentes_pendientes pending_ledger))
    <= Z.of_nat (length (get_incidentes_pendientes result.2)) + result.1
  ∧ ids result.2 = ids pending_ledger
  ∧ identities result.2 = identities pending_ledger
  ∧ get_incidentes_pendientes result.2
    `sublist_of` get_incidentes_pendientes pending_ledger
  ∧ Z.of_nat (length (get_incidentes_pendientes pending_ledger))
    = Z.of_nat (length (get_incidentes_pendientes result.2)) + result.1.
Proof.
  destruct (resolve_missing_coords_count scripted None pending_ledger)
    as (H1 & H2 & H3 & H4 & H5 & H6).
  { apply NoDup_singleton. }
  destruct H6 as [H6 H7].
  { intros query w item w' _. split; reflexivity. }
  { apply map_Forall_empty. }
  exact (conj H1 (conj H2 (conj H3 (conj H4 (conj H5 (conj H6 H7)))))).
Defined.

(** The resolver on a latitude that is not a number: the row is
    counted, and it is pending still. *)
Lemma nan_row_is_counted :
  let result := resolve_missing_coords scripted None nan_ledger in
  result.1 = 1
  ∧ inc_id <$> get_incidentes_pendientes nan_ledger = [1]
  ∧ inc_id <$> get_incidentes_pendientes result.2 = [1].
Proof. split_and!; by vm_compute. Qed.

(** The theorem on a database that is locked once. *)
Lemma retry_locked_spec_witness :
  ∃ (k : nat) outs wk out w',
    Z.of_nat k < 6
    ∧ calls scripted_calls k
        [RaisesOperationalError "database is locked"; Returns 7] = (outs, wk)
    ∧ scripted_calls wk = (out, w')
    ∧ Forall (fun o => transient o = true) outs
    ∧ (transient out = true -> Z.of_nat k = 6 - 1)
    ∧ _retry_locked scripted_calls 6 (1 # 20)
        [RaisesOperationalError "database is locked"; Returns 7]
      = (ends_with out, w',
         flat_map (call_and_wait (1 # 20)) (seqZ 0 (Z.of_nat k)) ++ [Called]).
Proof.
  apply (retry_locked_spec scripted_calls 6 (1 # 20)
           [RaisesOperationalError "database is locked"; Returns 7]).
  discriminate.
Defined.

Lemma retry_locked_cost_witness :
  let events :=
    (_retry_locked scripted_calls 6 (1 # 20)
       [RaisesOperationalError "database is locked"; Returns 7]).2 in
  Z.of_nat (calls_made events) <= Z.max 0 6
  ∧ (seconds_slept events
     == (1 # 20) * (inject_Z (2 ^ Z.of_nat (calls_made events - 1)) - 1))%Q.
Proof.
  apply (retry_locked_cost scripted_calls 6 (1 # 20)
           [RaisesOperationalError "database is locked"; Returns 7]).
  discriminate.
Defined.

(** The theorem on a quarter past ten. *)
Lemma parse_time_of_clock_witness :
  _parse_time_to_minutes "10:15:30" = Some 615
  ∧ _parse_time_to_minutes "10:15" = Some 615
  ∧ _parse_time_to_minutes "10" = Some 600
  ∧ ∀ blank, Py.strip blank = EmptyString ->
      _parse_time_to_minutes blank = None.
Proof.
  apply (parse_time_of_clock "10" "15" "30");
    [reflexivity | reflexivity | reflexivity | simpl; lia | simpl; lia].
Defined.

(** The theorem on a batch that holds the same candidate twice. *)
Lemma registrar_keeps_unique_witness :
  unique_ledger
    (registrar_incidentes_desde_lista scripted "Libia"
       [plain_candidate; plain_candidate] true None
       (fresh [Found tripoli_item])).2.
Proof.
  apply (registrar_keeps_unique scripted "Libia"
           [plain_candidate; plain_candidate] true None
           (fresh [Found tripoli_item])).
  - apply NoDup_nil_2.
  - repeat constructor.
Defined.

(** The theorem on two rows whose dates differ in case. *)
Lemma deduplicate_distinct_keys_witness :
  deduplicate_sicu_incidents [row_ENE; row_ene] = [row_ENE; row_ene].
Proof.
  apply (deduplicate_distinct_keys [row_ENE; row_ene]).
  apply (bool_decide_unpack _). by vm_compute.
Defined.

(** The theorem on two rows without a description. *)
Lemma blank_descriptions_are_kept_witness :
  deduplicate_sicu_incidents [row_blank_1; row_blank_2]
  ≡ₚ [row_blank_1; row_blank_2].
Proof.
  apply (blank_descriptions_are_kept [row_blank_1; row_blank_2]).
  repeat constructor.
Defined.

(** The theorem on a report with one section and one bullet. *)
Lemma parse_incidents_candidates_witness :
  ∃ categoria descripcion,
    incidente_tripoli
    = Candidate (Some categoria) None (Some descripcion) None None
        (Some "Informe") None None None
    ∧ categoria ∈ categorias
    ∧ descripcion ≠ EmptyString
    ∧ Py.strip descripcion = descripcion
    ∧ ∃ raw_line pre,
        raw_line ∈ Py.splitlines informe_tripoli
        ∧ Py.strip raw_line = pre +:+ descripcion.
Proof.
  apply (parse_incidents_candidates (fun _ => None) informe_tripoli "Informe"
           incidente_tripoli).
  vm_compute. apply list_elem_of_here.
Defined.

(** The theorem on a report whose bullets come under no header. *)
Lemma parse_incidents_without_header_witness :
  IncidentParser.parse_incidents_from_text (float := Q) (fun _ => None)
    informe_sin_cabecera "Informe"
  = [].
Proof.
  apply (parse_incidents_without_header (fun _ => None) informe_sin_cabecera
           "Informe").
  intros raw_line H.
  change (Py.splitlines informe_sin_cabecera)
    with ["- Ataque con bomba en Tripoli"; "* Robo en Bengasi"] in H.
  repeat (apply elem_of_cons in H as [-> | H]; [by vm_compute|]).
  by apply elem_of_nil in H.
Defined.
